(** * Agent deployment and lifecycle orchestration: a verified model

    The development embeds the deployment manager ([DeploymentManager]:
    [generateDockerCompose], [saveAgentConfig], [saveDockerCompose],
    [deployAgent], [waitForHealth], [stopAgent]) and the lifecycle routes of
    the API server ([/stop], [/pause], [/logs]) and proves or refutes the
    properties the design document states about them.

    Conventions.
    - A JavaScript string is a [string]; every character stands for one
      code unit below 256.
    - A JavaScript number that the code only uses as an integer is a [Z];
      [NaN] is [None] in an [option Z].
    - A rejected promise or a thrown [Error] is represented by its
      [message].
    - Every call that leaves the process (file system, child processes,
      HTTP, timers, the clock) is an [Effect] appended to a trace; what the
      outside world answers is given by an [Env], a record of oracles that
      see the whole trace so far.
    - Console output is not part of the model, except the two reports of the
      diagnostics branch of [waitForHealth]. *)

From Stdlib Require Import ZArith Ascii String List Lia DecimalString.
From stdpp Require Import base option list strings gmap fin_maps.

Local Open Scope Z_scope.
Local Open Scope string_scope.

(* ===================================================================== *)
(** * JavaScript primitives used by the code *)
(* ===================================================================== *)

Module Js.

(** [String(n)] for an integral number. *)
Definition ofZ (z : Z) : string := NilZero.string_of_int (Z.to_int z).

(** [`${n}`] for a number that may be [NaN]. *)
Definition ofNumber (n : option Z) : string :=
  match n with
  | Some z => ofZ z
  | None => "NaN"
  end.

(** [s.slice(-k)]: the last [k] code units, the whole string when it is
    shorter. *)
Definition sliceLast (k : nat) (s : string) : string :=
  let len := String.length s in
  substring (len - k)%nat (len - (len - k))%nat s.

(** White space and line terminators that [parseInt] skips, among the code
    units below 256: TAB, LF, VT, FF, CR, SP and NBSP. *)
Definition isWhiteSpace (c : ascii) : bool :=
  let n := N_of_ascii c in
  ((9 <=? n) && (n <=? 13) || (n =? 32) || (n =? 160))%N.

Fixpoint trimStart (s : string) : string :=
  match s with
  | String c rest => if isWhiteSpace c then trimStart rest else s
  | EmptyString => EmptyString
  end.

(** Value of a digit in radix 16, [None] for any other code unit. *)
Definition hexDigit (c : ascii) : option Z :=
  let n := Z.of_N (N_of_ascii c) in
  if ((48 <=? n) && (n <=? 57))%Z then Some (n - 48)
  else if ((97 <=? n) && (n <=? 102))%Z then Some (n - 87)
  else if ((65 <=? n) && (n <=? 70))%Z then Some (n - 55)
  else None.

(** The digits of the longest prefix made of radix-16 digits. *)
Fixpoint hexPrefix (s : string) : list Z :=
  match s with
  | String c rest =>
      match hexDigit c with
      | Some d => d :: hexPrefix rest
      | None => []
      end
  | EmptyString => []
  end.

Definition hexValue (ds : list Z) : Z :=
  fold_left (fun acc d => 16 * acc + d) ds 0.

(** [parseInt(s, 16)] as ECMA-262 defines it: skip leading white space,
    read an optional sign, drop an optional [0x]/[0X], take the longest
    prefix of hexadecimal digits; [NaN] when that prefix is empty. *)
Definition parseInt16 (s : string) : option Z :=
  let s1 := trimStart s in
  let '(sign, s2) :=
    match s1 with
    | String "-" rest => (-1, rest)
    | String "+" rest => (1, rest)
    | _ => (1, s1)
    end in
  let s3 :=
    match s2 with
    | String "0" (String "x" rest) => rest
    | String "0" (String "X" rest) => rest
    | _ => s2
    end in
  match hexPrefix s3 with
  | [] => None
  | ds => Some (sign * hexValue ds)
  end.

(** [s.includes(needle)]. *)
Fixpoint includes (needle s : string) : bool :=
  if String.prefix needle s then true
  else match s with
       | String _ rest => includes needle rest
       | EmptyString => false
       end.

(** [s.split(sep)] for a separator of one code unit. *)
Fixpoint split (sep : ascii) (s : string) : list string :=
  match s with
  | EmptyString => [EmptyString]
  | String c rest =>
      let parts := split sep rest in
      if Ascii.eqb c sep then EmptyString :: parts
      else match parts with
           | p :: ps => String c p :: ps
           | [] => [String c EmptyString]
           end
  end.

(** [`${parts[i]}`]: an index past the end reads [undefined]. *)
Definition index (parts : list string) (i : nat) : string :=
  match nth_error parts i with
  | Some p => p
  | None => "undefined"
  end.

(** A string is truthy when it is not empty. *)
Definition truthy (s : string) : bool :=
  match s with
  | EmptyString => false
  | String _ _ => true
  end.

(** The double quote, as a string of one code unit. *)
Definition dquote : string := String (ascii_of_nat 34) EmptyString.

(** [a + b % m] on numbers: [%] is the remainder that keeps the sign of the
    dividend and binds tighter than [+]; [NaN] propagates. *)
Definition plusRem (a : Z) (b : option Z) (m : Z) : option Z :=
  match b with
  | Some n => Some (a + Z.rem n m)
  | None => None
  end.

End Js.

(* ===================================================================== *)
(** * Descriptor generator: the published port *)
(* ===================================================================== *)

(** [3100 + parseInt(agentId.slice(-3), 16) % 900], the expression that
    [generateDockerCompose] puts in [ports] and that [deployAgent] uses to
    build the URL it probes. *)
Definition composePort (agentId : string) : option Z :=
  Js.plusRem 3100 (Js.parseInt16 (Js.sliceLast 3 agentId)) 900.

Definition deployPort (agentId : string) : option Z :=
  Js.plusRem 3100 (Js.parseInt16 (Js.sliceLast 3 agentId)) 900.

(* ===================================================================== *)
(** * The outside world *)
(* ===================================================================== *)

(** Outcome of an awaited call: resolved with a value, or rejected with an
    error of which the code only ever reads the [message]. *)
Inductive Res (A : Type) : Type :=
| Resolved (value : A)
| Rejected (message : string).
Arguments Resolved {A} value.
Arguments Rejected {A} message.

Record Stats := { isDirectory : bool; size : Z }.

Record ExecOutput := { stdout : string; stderr : string }.

(** A [fetch] response: its status and what reading its body settles to
    ([response.text()] in [waitForHealth], [response.json()] in
    [getAgentStatus]; a parsed body is represented by its text). *)
Record Response := { status : Z; text : Res string }.

(** [response.ok]: the status is in the range 200-299. *)
Definition ok (r : Response) : bool :=
  ((200 <=? status r) && (status r <=? 299))%Z.

(** The two console reports of the diagnostics branch of [waitForHealth]. *)
Inductive Report :=
| ContainerLogs (logs : string)
| CouldNotFetchLogs (message : string).

(** One call that left the process, with what came back. *)
Inductive Event :=
| EvMkdir (path : string) (r : Res unit)
| EvStat (path : string) (r : Res Stats)
| EvRmdir (path : string) (r : Res unit)
| EvWriteFile (path content : string) (r : Res unit)
| EvAccess (path : string) (r : Res unit)
| EvExec (command : string) (cwd : option string) (r : Res ExecOutput)
| EvFetch (url : string) (r : Res Response)
| EvSleep (ms : Z)
| EvNow (iso : string)
| EvConsole (report : Report).

(** The environment: Node's [path] functions and, for every kind of call,
    what the world answers given everything that happened before. *)
Record Env := {
  dirname__ : string;
  path_join : string -> string -> string;
  path_resolve : string -> string -> string;
  path_dirname : string -> string;
  fs_mkdir : list Event -> string -> Res unit;
  fs_stat : list Event -> string -> Res Stats;
  fs_rmdir : list Event -> string -> Res unit;
  fs_writeFile : list Event -> string -> string -> Res unit;
  fs_access : list Event -> string -> Res unit;
  child_exec : list Event -> string -> option string -> Res ExecOutput;
  node_fetch : list Event -> string -> Res Response;
  date_now : list Event -> string
}.

(* ===================================================================== *)
(** * Process state and the monad of asynchronous code *)
(* ===================================================================== *)

(** An agent configuration. The manager only serializes it, so it is
    represented by the text [JSON.stringify(config, null, 2)] yields. *)
Record AgentConfig := { json : string }.

(** Entry of the in-memory registry [runningAgents]. *)
Module Deployment.
Record t := {
  url : string;
  composePath : string;
  status : string;
  deployedAt : string
}.
End Deployment.

(** Result object of [deployAgent] and [stopAgent]; an absent property is
    [None]. *)
Module Result.
Record t := {
  success : bool;
  agentId : option string;
  url : option string;
  status : option string;
  error : option string
}.
End Result.

(** Result object of [getAgentStatus]. *)
Module StatusReport.
Record t := {
  status : string;
  url : option string;
  health : option string;
  error : option string;
  deployedAt : option string
}.
End StatusReport.

(** Record of the server's [agents] map, with the properties the lifecycle
    routes read or write. *)
Module Agent.
Record t := {
  name : string;
  status : string;
  superiorAgentConfig : AgentConfig;
  updatedAt : string;
  deployedAt : option string;
  stoppedAt : option string;
  pausedAt : option string;
  containerUrl : option string;
  error : option string
}.
End Agent.

(** The mutable state of the server process: the calls made so far, the
    manager's registry and the server's agent table. *)
Record Process := {
  trace : list Event;
  runningAgents : gmap string Deployment.t;
  agents : gmap string Agent.t
}.

Definition initial : Process :=
  {| trace := []; runningAgents := ∅; agents := ∅ |}.

(** An asynchronous computation: it transforms the process state and either
    resolves or rejects. State changes made before a rejection persist. *)
Definition M (A : Type) : Type := Process -> Process * Res A.

Definition ret {A} (a : A) : M A := fun p => (p, Resolved a).

Definition throw {A} (message : string) : M A := fun p => (p, Rejected message).

Definition bind {A B} (m : M A) (k : A -> M B) : M B :=
  fun p =>
    match m p with
    | (p', Resolved a) => k a p'
    | (p', Rejected e) => (p', Rejected e)
    end.

(** [try { body } catch (error) { handler(error.message) }]. *)
Definition try_catch {A} (body : M A) (handler : string -> M A) : M A :=
  fun p =>
    match body p with
    | (p', Resolved a) => (p', Resolved a)
    | (p', Rejected e) => handler e p'
    end.

Declare Scope js_scope.
Delimit Scope js_scope with js.
Notation "'await' x <- m ; k" := (bind m (fun x => k))
  (at level 10, x name, m at level 100, k at level 200) : js_scope.
Notation "'await_' m ; k" := (bind m (fun _ => k))
  (at level 10, m at level 100, k at level 200) : js_scope.
Local Open Scope js_scope.

(** Record a call together with its outcome. *)
Definition emit (e : Event) : M unit :=
  fun p => ({| trace := trace p ++ [e];
               runningAgents := runningAgents p;
               agents := agents p |}, Resolved tt).

(** Settle a recorded outcome. *)
Definition settle {A} (r : Res A) : M A := fun p => (p, r).

Definition readTrace : M (list Event) := fun p => (p, Resolved (trace p)).

Definition readRegistry : M (gmap string Deployment.t) :=
  fun p => (p, Resolved (runningAgents p)).

Definition writeRegistry (reg : gmap string Deployment.t) : M unit :=
  fun p => ({| trace := trace p; runningAgents := reg; agents := agents p |},
            Resolved tt).

Definition readAgents : M (gmap string Agent.t) :=
  fun p => (p, Resolved (agents p)).

Definition writeAgents (tbl : gmap string Agent.t) : M unit :=
  fun p => ({| trace := trace p; runningAgents := runningAgents p; agents := tbl |},
            Resolved tt).

Section Calls.
Context (env : Env).

Definition mkdir (path : string) : M unit :=
  await t <- readTrace;
  let r := fs_mkdir env t path in
  await_ emit (EvMkdir path r); settle r.

Definition stat (path : string) : M Stats :=
  await t <- readTrace;
  let r := fs_stat env t path in
  await_ emit (EvStat path r); settle r.

Definition rmdir (path : string) : M unit :=
  await t <- readTrace;
  let r := fs_rmdir env t path in
  await_ emit (EvRmdir path r); settle r.

Definition writeFile (path content : string) : M unit :=
  await t <- readTrace;
  let r := fs_writeFile env t path content in
  await_ emit (EvWriteFile path content r); settle r.

Definition access (path : string) : M unit :=
  await t <- readTrace;
  let r := fs_access env t path in
  await_ emit (EvAccess path r); settle r.

Definition execAsync (command : string) (cwd : option string) : M ExecOutput :=
  await t <- readTrace;
  let r := child_exec env t command cwd in
  await_ emit (EvExec command cwd r); settle r.

Definition fetch (url : string) : M Response :=
  await t <- readTrace;
  let r := node_fetch env t url in
  await_ emit (EvFetch url r); settle r.

(** [await new Promise(resolve => setTimeout(resolve, ms))]. *)
Definition sleep (ms : Z) : M unit := emit (EvSleep ms).

(** [new Date().toISOString()]. *)
Definition now : M string :=
  await t <- readTrace;
  let iso := date_now env t in
  await_ emit (EvNow iso); ret iso.

Definition console (r : Report) : M unit := emit (EvConsole r).

End Calls.

(* ===================================================================== *)
(** * The deployment manager *)
(* ===================================================================== *)

Record HealthCheck := {
  test : list string;
  interval : string;
  timeout : string;
  retries : Z;
  start_period : string
}.

Record Service := {
  build_context : string;
  build_dockerfile : string;
  container_name : string;
  environment : list string;
  volumes : list string;
  ports : list string;
  healthcheck : HealthCheck;
  restart : string;
  networks : list string
}.

(** The descriptor: one service, keyed by its name, and one network. *)
Record Compose := {
  service_name : string;
  service : Service;
  network_name : string;
  network_driver : string
}.

(** What a name is bound to when the code calls it: a function that runs a
    shell command, or [undefined]. *)
Inductive Binding :=
| ExecAsyncFunction
| Undefined.

Section Manager.
Context (env : Env).
(** [objectToYaml], the text of a descriptor; no property below depends on
    the layout of that text. *)
Context (objectToYaml : Compose -> string).

(** [this.deploymentDir], set by the constructor. *)
Definition deploymentDir : string := path_join env (dirname__ env) "../runtime-agent".

Definition generateDockerCompose (agentId : string) (agentConfig : AgentConfig) : Compose :=
  {| service_name := "agent-" ++ agentId;
     service :=
       {| build_context := "../runtime-agent";
          build_dockerfile := "Dockerfile";
          container_name := "superior-agent-" ++ agentId;
          environment := ["AGENT_CONFIG_PATH=/app/config.json"; "AGENT_PORT=8000"];
          volumes := [path_resolve env (dirname__ env) "../agent-configs"
                        ++ "/" ++ agentId ++ ".json:/app/config.json:ro"];
          ports := [Js.ofNumber (composePort agentId) ++ ":8000"];
          healthcheck :=
            {| test := ["CMD"; "curl"; "-f"; "http://localhost:8000/health"];
               interval := "30s";
               timeout := "10s";
               retries := 3;
               start_period := "40s" |};
          restart := "unless-stopped";
          networks := ["superior-agents"] |};
     network_name := "superior-agents";
     network_driver := "bridge" |}.

Definition saveAgentConfig (agentId : string) (config : AgentConfig) : M string :=
  let configDir := path_join env (dirname__ env) "../agent-configs" in
  await_ mkdir env configDir;
  let configPath := path_join env configDir (agentId ++ ".json") in
  await_ try_catch
    (await stats <- stat env configPath;
     if isDirectory stats then rmdir env configPath else ret tt)
    (fun _ => ret tt);
  await_ writeFile env configPath (json config);
  await_ stat env configPath;
  ret configPath.

Definition saveDockerCompose (agentId : string) (compose : Compose) : M string :=
  let composeDir := path_join env (dirname__ env) "../deployments" in
  await_ mkdir env composeDir;
  let composePath := path_join env composeDir (agentId ++ "-compose.yml") in
  let yamlContent := objectToYaml compose in
  await_ writeFile env composePath yamlContent;
  ret composePath.

(** Calling the value a name is bound to; calling [undefined] throws a
    [TypeError]. *)
Definition call (b : Binding) (name command : string) : M ExecOutput :=
  match b with
  | ExecAsyncFunction => execAsync env command None
  | Undefined => throw (name ++ " is not a function")
  end.

(** [const { execAsync } = require('util').promisify(...)] inside the
    diagnostics branch reads the property [execAsync] of a function object,
    which has none. *)
Definition destructuredExecAsync : Binding := Undefined.

(** The command of the diagnostics branch: the container name is read off
    the probed URL. *)
Definition diagnosticsCommand (url : string) : string :=
  let containerName :=
    if Js.includes "3100" url then Js.index (Js.split ":" url) 2 else "unknown" in
  "docker logs --tail 10 superior-agent-" ++ containerName
    ++ " 2>&1 || echo " ++ Js.dquote ++ "No logs available" ++ Js.dquote.

(** The diagnostics branch: the inner [try]/[catch] of [waitForHealth]. *)
Definition diagnostics (b : Binding) (url : string) : M unit :=
  try_catch
    (await logs <- call b "execAsync" (diagnosticsCommand url);
     console (ContainerLogs (stdout logs)))
    (fun message => console (CouldNotFetchLogs message)).

(** One iteration of the loop of [waitForHealth] up to the sleep: [true]
    when the iteration returns [true] from the function. *)
Definition healthAttempt (b : Binding) (url : string) (attempt : Z) : M bool :=
  try_catch
    (await response <- fetch env (url ++ "/health");
     if ok response
     then await_ settle (text response); ret true
     else ret false)
    (fun _ =>
       await_ (if (Z.rem attempt 5 =? 0)%Z then diagnostics b url else ret tt);
       ret false).

(** The [for] loop with [remaining = maxAttempts - attempt + 1] iterations
    left. *)
Fixpoint healthLoop (b : Binding) (url : string) (interval : Z)
    (remaining : nat) (attempt : Z) : M bool :=
  match remaining with
  | O => ret false
  | S remaining' =>
      await healthy <- healthAttempt b url attempt;
      if healthy then ret true
      else await_ sleep interval;
           healthLoop b url interval remaining' (attempt + 1)
  end.

Definition maxAttemptsOf (timeoutSeconds : Z) : Z :=
  let timeout := timeoutSeconds * 1000 in
  let interval := 2000 in
  timeout / interval.

Definition waitForHealthWith (b : Binding) (url : string) (timeoutSeconds : Z) : M bool :=
  let interval := 2000 in
  let maxAttempts := maxAttemptsOf timeoutSeconds in
  healthLoop b url interval (Z.to_nat maxAttempts) 1.

Definition waitForHealth (url : string) (timeoutSeconds : Z) : M bool :=
  waitForHealthWith destructuredExecAsync url timeoutSeconds.

Definition stopAgent (agentId : string) : M Result.t :=
  try_catch
    (await reg <- readRegistry;
     match reg !! agentId with
     | None =>
         ret {| Result.success := false; Result.agentId := None; Result.url := None;
                Result.status := None; Result.error := Some "Agent not found" |}
     | Some agent =>
         await accessible <-
           (if Js.truthy (Deployment.composePath agent)
            then try_catch (await_ access env (Deployment.composePath agent); ret true)
                           (fun _ => ret false)
            else ret false);
         await_ (if accessible : bool
                 then await_ execAsync env
                        ("docker-compose -f " ++ Deployment.composePath agent ++ " down") None;
                      ret tt
                 else ret tt);
         await reg' <- readRegistry;
         await_ writeRegistry (delete agentId reg');
         ret {| Result.success := true; Result.agentId := Some agentId; Result.url := None;
                Result.status := None; Result.error := None |}
     end)
    (fun message =>
       ret {| Result.success := false; Result.agentId := Some agentId; Result.url := None;
              Result.status := None; Result.error := Some message |}).

(** The [try] block of [deployAgent]. *)
Definition deployAttempt (agentId : string) (agentConfig : AgentConfig) : M Result.t :=
  await_ saveAgentConfig agentId agentConfig;
  let compose := generateDockerCompose agentId agentConfig in
  await composePath <- saveDockerCompose agentId compose;
  await_ execAsync env "docker build -t superior-agent-runtime ." (Some deploymentDir);
  await_ execAsync env ("docker-compose -f " ++ composePath ++ " up -d")
           (Some (path_dirname env composePath));
  let port := deployPort agentId in
  let agentUrl := "http://localhost:" ++ Js.ofNumber port in
  await isHealthy <- waitForHealth agentUrl 60;
  if isHealthy then
    await deployedAt <- now env;
    await reg <- readRegistry;
    await_ writeRegistry
      (<[agentId := {| Deployment.url := agentUrl;
                       Deployment.composePath := composePath;
                       Deployment.status := "running";
                       Deployment.deployedAt := deployedAt |}]> reg);
    ret {| Result.success := true; Result.agentId := Some agentId;
           Result.url := Some agentUrl; Result.status := Some "running";
           Result.error := None |}
  else throw "Agent failed health check".

(** The failure result of the [catch] block of [deployAgent]. *)
Definition deployFailure (agentId message : string) : Result.t :=
  {| Result.success := false; Result.agentId := Some agentId; Result.url := None;
     Result.status := None; Result.error := Some message |}.

Definition deployAgent (agentId : string) (agentConfig : AgentConfig) : M Result.t :=
  try_catch
    (deployAttempt agentId agentConfig)
    (fun message =>
       await_ stopAgent agentId;
       ret (deployFailure agentId message)).

Definition getAgentStatus (agentId : string) : M StatusReport.t :=
  await reg <- readRegistry;
  match reg !! agentId with
  | None =>
      ret {| StatusReport.status := "not_running"; StatusReport.url := None;
             StatusReport.health := None; StatusReport.error := None;
             StatusReport.deployedAt := None |}
  | Some agent =>
      try_catch
        (await response <- fetch env (Deployment.url agent ++ "/health");
         if ok response then
           await health <- settle (text response);
           ret {| StatusReport.status := "healthy";
                  StatusReport.url := Some (Deployment.url agent);
                  StatusReport.health := Some health;
                  StatusReport.error := None;
                  StatusReport.deployedAt := Some (Deployment.deployedAt agent) |}
         else
           ret {| StatusReport.status := "unhealthy";
                  StatusReport.url := Some (Deployment.url agent);
                  StatusReport.health := None;
                  StatusReport.error := None;
                  StatusReport.deployedAt := Some (Deployment.deployedAt agent) |})
        (fun message =>
           ret {| StatusReport.status := "unreachable";
                  StatusReport.url := Some (Deployment.url agent);
                  StatusReport.health := None;
                  StatusReport.error := Some message;
                  StatusReport.deployedAt := Some (Deployment.deployedAt agent) |})
  end.

End Manager.

(* ===================================================================== *)
(** * Lifecycle routes of the API server *)
(* ===================================================================== *)

(** JSON body of a route's answer; an absent property is [None]. *)
Module Body.
Record t := {
  message : option string;
  agentId : option string;
  status : option string;
  error : option string;
  details : option string
}.
Definition empty : t :=
  {| message := None; agentId := None; status := None; error := None; details := None |}.
End Body.

Record HttpAnswer := { code : Z; body : Body.t }.

Definition errorAnswer (c : Z) (e : string) (d : option string) : HttpAnswer :=
  {| code := c;
     body := {| Body.message := None; Body.agentId := None; Body.status := None;
                Body.error := Some e; Body.details := d |} |}.

Definition okAnswer (m id st : string) : HttpAnswer :=
  {| code := 200;
     body := {| Body.message := Some m; Body.agentId := Some id; Body.status := Some st;
                Body.error := None; Body.details := None |} |}.

(** The assignments of the stop route to the agent record:
    [status = 'stopped'], [stoppedAt], [updatedAt], [delete containerUrl]. *)
Definition markStopped (stoppedAt updatedAt : string) (a : Agent.t) : Agent.t :=
  {| Agent.name := Agent.name a;
     Agent.status := "stopped";
     Agent.superiorAgentConfig := Agent.superiorAgentConfig a;
     Agent.updatedAt := updatedAt;
     Agent.deployedAt := Agent.deployedAt a;
     Agent.stoppedAt := Some stoppedAt;
     Agent.pausedAt := Agent.pausedAt a;
     Agent.containerUrl := None;
     Agent.error := Agent.error a |}.

(** The assignments of the pause route to the agent record:
    [status = 'paused'], [pausedAt], [updatedAt], [delete containerUrl]. *)
Definition markPaused (pausedAt updatedAt : string) (a : Agent.t) : Agent.t :=
  {| Agent.name := Agent.name a;
     Agent.status := "paused";
     Agent.superiorAgentConfig := Agent.superiorAgentConfig a;
     Agent.updatedAt := updatedAt;
     Agent.deployedAt := Agent.deployedAt a;
     Agent.stoppedAt := Agent.stoppedAt a;
     Agent.pausedAt := Some pausedAt;
     Agent.containerUrl := None;
     Agent.error := Agent.error a |}.

Section Server.
Context (env : Env).
(** [JSON.stringify(Array.from(agents.values()), null, 2)], the text of the
    persisted agent table. *)
Context (agentsJson : gmap string Agent.t -> string).

Definition agentsDbPath : string := path_join env (dirname__ env) "agents-db.json".

Definition saveAgents : M unit :=
  try_catch
    (await tbl <- readAgents;
     writeFile env agentsDbPath (agentsJson tbl))
    (fun _ => ret tt).

(** [POST /api/agents/:id/stop]. A route runs to completion before the next
    one starts. *)
Definition stopRoute (id : string) : M HttpAnswer :=
  try_catch
    (await tbl <- readAgents;
     match tbl !! id with
     | None => ret (errorAnswer 404 "Agent not found" None)
     | Some agent =>
         await stopResult <- stopAgent env id;
         if Result.success stopResult then
           await stoppedAt <- now env;
           await updatedAt <- now env;
           await tbl' <- readAgents;
           await_ writeAgents (<[id := markStopped stoppedAt updatedAt agent]> tbl');
           await_ saveAgents;
           ret (okAnswer "Agent stopped successfully" id "stopped")
         else ret (errorAnswer 500 "Failed to stop agent" (Result.error stopResult))
     end)
    (fun _ => ret (errorAnswer 500 "Internal server error" None)).

(** [POST /api/agents/:id/pause]. *)
Definition pauseRoute (id : string) : M HttpAnswer :=
  try_catch
    (await tbl <- readAgents;
     match tbl !! id with
     | None => ret (errorAnswer 404 "Agent not found" None)
     | Some agent =>
         await stopResult <- stopAgent env id;
         if Result.success stopResult then
           await pausedAt <- now env;
           await updatedAt <- now env;
           await tbl' <- readAgents;
           await_ writeAgents (<[id := markPaused pausedAt updatedAt agent]> tbl');
           await_ saveAgents;
           ret (okAnswer "Agent paused successfully" id "paused")
         else ret (errorAnswer 500 "Failed to pause agent" (Result.error stopResult))
     end)
    (fun _ => ret (errorAnswer 500 "Internal server error" None)).

End Server.

(* ===================================================================== *)
(** * Follow-mode log streaming as an event-driven machine *)
(* ===================================================================== *)

(** The follow branch of [GET /api/agents/:id/logs] suspends once, at the
    [await] of the initial logs, and afterwards only runs in listeners. Node
    delivers one event at a time; an event reaches the listeners registered
    at that moment and is never replayed to a listener registered later. *)
Module LogStream.

Inductive Subprocess :=
| NotSpawned
| Running
| Killed
| Exited.

(** A server-sent event: its [type] and [content]. *)
Record Sse := { type : string; content : string }.

Record State := {
  followProcess : Subprocess;
  closeListener : bool;    (* [req.on('close', ...)] has been registered *)
  requestClosed : bool;    (* the request's [close] event has fired *)
  responseEnded : bool;    (* [res.end()] has been called *)
  sent : list Sse          (* what [res.write] was given, oldest first *)
}.

(** What the event loop can deliver to the route. *)
Inductive Input :=
| InitialLogsSettled (r : Res ExecOutput)  (* the awaited [execAsync(logCommand)] *)
| RequestClose                             (* the consumer disconnects *)
| ProcessStdout (data : string)
| ProcessStderr (data : string)
| ProcessClose.                            (* the subprocess has gone *)

(** The state when the route suspends at the [await]. *)
Definition start : State :=
  {| followProcess := NotSpawned; closeListener := false; requestClosed := false;
     responseEnded := false; sent := [] |}.

Definition write (m : Sse) (s : State) : State :=
  {| followProcess := followProcess s; closeListener := closeListener s;
     requestClosed := requestClosed s; responseEnded := responseEnded s;
     sent := sent s ++ [m] |}.

(** [a || b || c] on strings. *)
Definition firstTruthy (a b c : string) : string :=
  if Js.truthy a then a else if Js.truthy b then b else c.

Definition step (s : State) (i : Input) : State :=
  match i with
  | InitialLogsSettled r =>
      match followProcess s with
      | NotSpawned =>
          let first :=
            match r with
            | Resolved out =>
                {| type := "logs";
                   content := firstTruthy (stdout out) (stderr out) "No logs available" |}
            | Rejected m =>
                {| type := "error"; content := "Error getting logs: " ++ m |}
            end in
          let s' := write first s in
          (* spawn, then register the listeners, the close listener last *)
          {| followProcess := Running; closeListener := true;
             requestClosed := requestClosed s'; responseEnded := responseEnded s';
             sent := sent s' |}
      | _ => s
      end
  | RequestClose =>
      if requestClosed s then s
      else
        {| followProcess :=
             if closeListener s
             then match followProcess s with
                  | Running => Killed        (* [followProcess.kill()] *)
                  | other => other
                  end
             else followProcess s;
           closeListener := closeListener s;
           requestClosed := true;
           responseEnded := responseEnded s;
           sent := sent s |}
  | ProcessStdout data =>
      match followProcess s with
      | Running | Killed => write {| type := "stdout"; content := data |} s
      | _ => s
      end
  | ProcessStderr data =>
      match followProcess s with
      | Running | Killed => write {| type := "stderr"; content := data |} s
      | _ => s
      end
  | ProcessClose =>
      match followProcess s with
      | Running | Killed =>
          let s' := write {| type := "info"; content := "Log stream ended" |} s in
          {| followProcess := Exited; closeListener := closeListener s';
             requestClosed := requestClosed s'; responseEnded := true;
             sent := sent s' |}
      | _ => s
      end
  end.

Definition run (inputs : list Input) : State := fold_left step inputs start.

End LogStream.

(* ===================================================================== *)
(** * Vocabulary of the properties *)
(* ===================================================================== *)

(** Every code unit of [s] is a hexadecimal digit. *)
Fixpoint allHex (s : string) : bool :=
  match s with
  | String c rest =>
      match Js.hexDigit c with
      | Some _ => allHex rest
      | None => false
      end
  | EmptyString => true
  end.

(** An identifier whose last three code units (or all of them when it is
    shorter) are hexadecimal digits, as in every UUID. *)
Definition endsInHex (agentId : string) : Prop :=
  agentId <> "" /\ allHex (Js.sliceLast 3 agentId) = true.

(** The result objects of [stopAgent]. *)
Definition agentNotFound : Result.t :=
  {| Result.success := false; Result.agentId := None; Result.url := None;
     Result.status := None; Result.error := Some "Agent not found" |}.

Definition stopped (agentId : string) : Result.t :=
  {| Result.success := true; Result.agentId := Some agentId; Result.url := None;
     Result.status := None; Result.error := None |}.

Definition stopFailed (agentId message : string) : Result.t :=
  {| Result.success := false; Result.agentId := Some agentId; Result.url := None;
     Result.status := None; Result.error := Some message |}.

(** The tear-down command of [stopAgent] for a registry entry. *)
Definition downCommand (agent : Deployment.t) : string :=
  "docker-compose -f " ++ Deployment.composePath agent ++ " down".

(** The calls of a tear-down step that went through without error: nothing
    at all when the entry has no descriptor path, only the existence check
    when the descriptor is not accessible, otherwise the check and the
    command. *)
Definition tearDownClean (agent : Deployment.t) (evs : list Event) : Prop :=
  evs = [] /\ Js.truthy (Deployment.composePath agent) = false
  \/ (exists m, evs = [EvAccess (Deployment.composePath agent) (Rejected m)])
  \/ (exists out, evs = [EvAccess (Deployment.composePath agent) (Resolved tt);
                         EvExec (downCommand agent) None (Resolved out)]).

(** The calls of a tear-down step whose command threw [message]. *)
Definition tearDownThrew (agent : Deployment.t) (message : string) (evs : list Event) : Prop :=
  evs = [EvAccess (Deployment.composePath agent) (Resolved tt);
         EvExec (downCommand agent) None (Rejected message)].

(** The outcomes of the health probes among some events, oldest first. *)
Fixpoint probes (evs : list Event) : list (Res Response) :=
  match evs with
  | EvFetch _ r :: rest => r :: probes rest
  | _ :: rest => probes rest
  | [] => []
  end.

(** ** A scripted world for the examples *)

(** Paths are joined textually; every file-system call succeeds and finds a
    regular file; shell commands and probes answer as the two scripts say. *)
Definition scripted
    (execAnswer : list Event -> string -> Res ExecOutput)
    (fetchAnswer : list Event -> Res Response) : Env :=
  {| dirname__ := "/srv/backend";
     path_join := fun a b => a ++ "/" ++ b;
     path_resolve := fun a b => a ++ "/" ++ b;
     path_dirname := fun _ => "/srv/backend/../deployments";
     fs_mkdir := fun _ _ => Resolved tt;
     fs_stat := fun _ _ => Resolved {| isDirectory := false; size := 2 |};
     fs_rmdir := fun _ _ => Resolved tt;
     fs_writeFile := fun _ _ _ => Resolved tt;
     fs_access := fun _ _ => Resolved tt;
     child_exec := fun t command _ => execAnswer t command;
     node_fetch := fun t _ => fetchAnswer t;
     date_now := fun t => "2025-01-01T00:00:" ++ Js.ofZ (Z.of_nat (length t)) ++ "Z" |}.

Definition quiet : ExecOutput := {| stdout := ""; stderr := "" |}.

Definition healthy : Res Response := Resolved {| status := 200; text := Resolved "ok" |}.

(** A world in which everything works and the agent answers at once. *)
Definition sunny : Env := scripted (fun _ _ => Resolved quiet) (fun _ => healthy).

(** A world in which the agent is healthy but no tear-down goes through. *)
Definition stuck : Env :=
  scripted (fun _ command =>
              if Js.includes " down" command then Rejected "down failed"
              else Resolved quiet)
           (fun _ => healthy).

Definition sampleYaml (c : Compose) : string := "services:".

Definition sampleConfig : AgentConfig := {| json := "{}" |}.

(** The state after agent [a1] was deployed in the sunny world. *)
Definition a1Running : Process :=
  fst (deployAgent sunny sampleYaml "a1" sampleConfig initial).

(** The entry the sunny deployment of [a1] leaves in the registry. *)
Definition a1Entry : Deployment.t :=
  {| Deployment.url := "http://localhost:3261";
     Deployment.composePath := "/srv/backend/../deployments/a1-compose.yml";
     Deployment.status := "running";
     Deployment.deployedAt := "2025-01-01T00:00:9Z" |}.

(** ** Health probes *)

(** A probe succeeded: a status in the success range, and the body could be
    read. *)
Definition succeeded (r : Res Response) : bool :=
  match r with
  | Resolved resp =>
      ok resp && match text resp with Resolved _ => true | Rejected _ => false end
  | Rejected _ => false
  end.

(** A probe failed with a thrown error (a time-out, a refused or a broken
    connection), as opposed to an answer with a non-success status. *)
Definition threw (r : Res Response) : bool :=
  match r with
  | Resolved resp =>
      ok resp && match text resp with Resolved _ => false | Rejected _ => true end
  | Rejected _ => true
  end.

(** One attempt of the health loop: its number, what the probe came back
    with, and the calls of the diagnostics branch, if it was entered. *)
Record Attempt := {
  number : Z;
  outcome : Res Response;
  diagnosticsCalls : list Event
}.

(** The calls of one attempt: the probe, the diagnostics if any, and the
    sleep unless the probe succeeded. *)
Definition attemptEvents (url : string) (a : Attempt) : list Event :=
  EvFetch (url ++ "/health") (outcome a)
    :: (diagnosticsCalls a ++ if succeeded (outcome a) then [] else [EvSleep 2000])%list.

Definition runEvents (url : string) (attempts : list Attempt) : list Event :=
  concat (map (attemptEvents url) attempts).

(** The calls of the diagnostics branch once it is entered. With the
    binding of the code the call throws before any command is issued. *)
Definition isDiagnostics (b : Binding) (url : string) (evs : list Event) : Prop :=
  match b with
  | Undefined => evs = [EvConsole (CouldNotFetchLogs "execAsync is not a function")]
  | ExecAsyncFunction =>
      (exists out, evs = [EvExec (diagnosticsCommand url) None (Resolved out);
                          EvConsole (ContainerLogs (stdout out))])
      \/ (exists m, evs = [EvExec (diagnosticsCommand url) None (Rejected m);
                           EvConsole (CouldNotFetchLogs m)])
  end.

(** The diagnostics branch is entered on the attempts whose number is a
    multiple of five and whose probe threw, and on no other attempt. *)
Definition diagnosticsAsDesigned (b : Binding) (url : string) (a : Attempt) : Prop :=
  if threw (outcome a) && (Z.rem (number a) 5 =? 0)%Z
  then isDiagnostics b url (diagnosticsCalls a)
  else diagnosticsCalls a = [].

(** Attempts are numbered from [first] on. *)
Fixpoint numberedFrom (first : Z) (attempts : list Attempt) : Prop :=
  match attempts with
  | [] => True
  | a :: rest => number a = first /\ numberedFrom (first + 1) rest
  end.

(** The loop stops at the first success and otherwise uses up its budget. *)
Definition stopsAtFirstSuccess (budget : nat) (attempts : list Attempt) (result : bool) : Prop :=
  if result
  then exists failed last,
         attempts = (failed ++ [last])%list /\
         Forall (fun a => succeeded (outcome a) = false) failed /\
         succeeded (outcome last) = true /\
         (length attempts <= budget)%nat
  else Forall (fun a => succeeded (outcome a) = false) attempts /\
       length attempts = budget.

(** A world whose agent answers every probe with status 503. *)
Definition unavailable : Env :=
  scripted (fun _ _ => Resolved quiet)
           (fun _ => Resolved {| status := 503; text := Resolved "starting" |}).

(** A world whose agent answers 200 and then drops the connection before
    the body is delivered. *)
Definition truncating : Env :=
  scripted (fun _ _ => Resolved quiet)
           (fun _ => Resolved {| status := 200; text := Rejected "Premature close" |}).

(** A world whose agent refuses every connection. *)
Definition refusing : Env :=
  scripted (fun _ _ => Resolved quiet) (fun _ => Rejected "ECONNREFUSED").

(** The process state after further calls, registry and agent table kept. *)
Definition extend (p : Process) (evs : list Event) : Process :=
  {| trace := trace p ++ evs; runningAgents := runningAgents p; agents := agents p |}.

(** The outcome of a stage with verdict [v] and value [a]. *)
Definition settled {A} (v : option string) (a : A) : Res A :=
  match v with
  | None => Resolved a
  | Some m => Rejected m
  end.

(** ** The deploy pipeline *)

Inductive Stage :=
| ConfigWrite
| DescriptorWrite
| ImageBuild
| BringUp
| HealthWait.

(** The stages in the order of the code. *)
Definition pipeline : list Stage :=
  [ConfigWrite; DescriptorWrite; ImageBuild; BringUp; HealthWait].

Section PipelineVocabulary.
Context (env : Env) (objectToYaml : Compose -> string).
Context (agentId : string) (agentConfig : AgentConfig).

Definition configDirOf : string := path_join env (dirname__ env) "../agent-configs".
Definition configPathOf : string := path_join env configDirOf (agentId ++ ".json").
Definition composeDirOf : string := path_join env (dirname__ env) "../deployments".
Definition composePathOf : string := path_join env composeDirOf (agentId ++ "-compose.yml").
Definition agentUrlOf : string := "http://localhost:" ++ Js.ofNumber (deployPort agentId).
Definition buildCommand : string := "docker build -t superior-agent-runtime .".
Definition upCommand : string := "docker-compose -f " ++ composePathOf ++ " up -d".

(** The calls of the check for a stale directory at the configuration path;
    whatever goes wrong in it is swallowed. *)
Inductive StaleCheck : list Event -> Prop :=
| StaleCheck_nothing m :
    StaleCheck [EvStat configPathOf (Rejected m)]
| StaleCheck_file st :
    isDirectory st = false ->
    StaleCheck [EvStat configPathOf (Resolved st)]
| StaleCheck_directory st r :
    isDirectory st = true ->
    StaleCheck [EvStat configPathOf (Resolved st); EvRmdir configPathOf r].

(** [StageRan stage calls verdict]: the calls a stage made when it ran, and
    its verdict, [None] when it completed and [Some message] when it failed
    with that message. *)
Inductive StageRan : Stage -> list Event -> option string -> Prop :=
| Config_mkdir_failed m :
    StageRan ConfigWrite [EvMkdir configDirOf (Rejected m)] (Some m)
| Config_write_failed check m :
    StaleCheck check ->
    StageRan ConfigWrite
      (EvMkdir configDirOf (Resolved tt)
         :: check ++ [EvWriteFile configPathOf (json agentConfig) (Rejected m)])
      (Some m)
| Config_size_failed check m :
    StaleCheck check ->
    StageRan ConfigWrite
      (EvMkdir configDirOf (Resolved tt)
         :: check ++ [EvWriteFile configPathOf (json agentConfig) (Resolved tt);
                      EvStat configPathOf (Rejected m)])
      (Some m)
| Config_written check st :
    StaleCheck check ->
    StageRan ConfigWrite
      (EvMkdir configDirOf (Resolved tt)
         :: check ++ [EvWriteFile configPathOf (json agentConfig) (Resolved tt);
                      EvStat configPathOf (Resolved st)])
      None
| Descriptor_mkdir_failed m :
    StageRan DescriptorWrite [EvMkdir composeDirOf (Rejected m)] (Some m)
| Descriptor_write_failed m :
    StageRan DescriptorWrite
      [EvMkdir composeDirOf (Resolved tt);
       EvWriteFile composePathOf
         (objectToYaml (generateDockerCompose env agentId agentConfig)) (Rejected m)]
      (Some m)
| Descriptor_written :
    StageRan DescriptorWrite
      [EvMkdir composeDirOf (Resolved tt);
       EvWriteFile composePathOf
         (objectToYaml (generateDockerCompose env agentId agentConfig)) (Resolved tt)]
      None
| Build_failed m :
    StageRan ImageBuild
      [EvExec buildCommand (Some (deploymentDir env)) (Rejected m)] (Some m)
| Build_done out :
    StageRan ImageBuild
      [EvExec buildCommand (Some (deploymentDir env)) (Resolved out)] None
| Up_failed m :
    StageRan BringUp
      [EvExec upCommand (Some (path_dirname env composePathOf)) (Rejected m)] (Some m)
| Up_done out :
    StageRan BringUp
      [EvExec upCommand (Some (path_dirname env composePathOf)) (Resolved out)] None
| Health_failed attempts :
    numberedFrom 1 attempts ->
    Forall (diagnosticsAsDesigned destructuredExecAsync agentUrlOf) attempts ->
    stopsAtFirstSuccess 30 attempts false ->
    StageRan HealthWait (runEvents agentUrlOf attempts) (Some "Agent failed health check")
| Health_passed attempts :
    numberedFrom 1 attempts ->
    Forall (diagnosticsAsDesigned destructuredExecAsync agentUrlOf) attempts ->
    stopsAtFirstSuccess 30 attempts true ->
    StageRan HealthWait (runEvents agentUrlOf attempts) None.

(** One stage that ran. *)
Record StageRun := {
  stage : Stage;
  calls : list Event;
  verdict : option string
}.

Definition ran (s : StageRun) : Prop := StageRan (stage s) (calls s) (verdict s).

(** All the calls of the stages that ran, in order. *)
Definition callsOf (runs : list StageRun) : list Event := concat (map calls runs).

(** The registry entry and the result object of a successful deployment. *)
Definition deployedEntry (deployedAt : string) : Deployment.t :=
  {| Deployment.url := agentUrlOf;
     Deployment.composePath := composePathOf;
     Deployment.status := "running";
     Deployment.deployedAt := deployedAt |}.

Definition deployed : Result.t :=
  {| Result.success := true; Result.agentId := Some agentId;
     Result.url := Some agentUrlOf; Result.status := Some "running";
     Result.error := None |}.

End PipelineVocabulary.


(** A world in which the image cannot be built. *)
Definition unbuildable : Env :=
  scripted (fun _ command =>
              if String.prefix "docker build" command then Rejected "build failed"
              else Resolved quiet)
           (fun _ => healthy).

(** The order the design document gives to the pipeline, written from its
    words: the descriptor is written only after the image was built. It
    holds of a list of calls when every write to the descriptor path has a
    completed image build before it. *)
Fixpoint buildsBeforeDescriptor (descriptorPath : string) (built : bool) (evs : list Event) : bool :=
  match evs with
  | [] => true
  | EvExec command _ (Resolved _) :: rest =>
      buildsBeforeDescriptor descriptorPath
        (built || String.eqb command "docker build -t superior-agent-runtime .") rest
  | EvWriteFile path _ _ :: rest =>
      (negb (String.eqb path descriptorPath) || built)
      && buildsBeforeDescriptor descriptorPath built rest
  | _ :: rest => buildsBeforeDescriptor descriptorPath built rest
  end.


(** ** The registry and the operations that write it *)

(** The methods of the manager that read or write [runningAgents]. *)
Inductive Op :=
| Deploy (agentId : string) (agentConfig : AgentConfig)
| Stop (agentId : string)
| Status (agentId : string).

Definition target (op : Op) : string :=
  match op with
  | Deploy agentId _ => agentId
  | Stop agentId => agentId
  | Status agentId => agentId
  end.

(** The state an operation leaves. *)
Definition perform (env : Env) (yaml : Compose -> string) (op : Op) (p : Process) : Process :=
  match op with
  | Deploy agentId agentConfig => fst (deployAgent env yaml agentId agentConfig p)
  | Stop agentId => fst (stopAgent env agentId p)
  | Status agentId => fst (getAgentStatus env agentId p)
  end.




(** ** The lifecycle routes *)

Definition sampleAgentsJson (tbl : gmap string Agent.t) : string := "[]".

Definition a1Record : Agent.t :=
  {| Agent.name := "Scout";
     Agent.status := "running";
     Agent.superiorAgentConfig := sampleConfig;
     Agent.updatedAt := "2025-01-01T00:00:00Z";
     Agent.deployedAt := Some "2025-01-01T00:00:00Z";
     Agent.stoppedAt := None;
     Agent.pausedAt := None;
     Agent.containerUrl := Some "http://localhost:3261";
     Agent.error := None |}.

(** The server state in which agent [a1] is known, deployed and reachable. *)
Definition a1Serving : Process :=
  {| trace := trace a1Running;
     runningAgents := runningAgents a1Running;
     agents := {[ "a1" := a1Record ]} |}.

(** The state a route leaves after a successful tear-down: two readings of
    the clock, the updated record, the agent table persisted. *)
Definition afterTearDown (env : Env) (agentsJson : gmap string Agent.t -> string)
    (id : string) (mark : string -> string -> Agent.t) (p1 : Process) : Process :=
  let t1 := date_now env (trace p1) in
  let t2 := date_now env (trace p1 ++ [EvNow t1]) in
  let tbl := <[id := mark t1 t2]> (agents p1) in
  let t := (trace p1 ++ [EvNow t1; EvNow t2])%list in
  {| trace := t ++ [EvWriteFile (agentsDbPath env) (agentsJson tbl)
                      (fs_writeFile env t (agentsDbPath env) (agentsJson tbl))];
     runningAgents := runningAgents p1;
     agents := tbl |}.


(** ** Follow-mode log streaming *)

(** Once the route has spawned the subprocess and registered its
    listeners, a closed request means a subprocess that is not running. *)
Definition armed (s : LogStream.State) : Prop :=
  LogStream.closeListener s = true /\
  LogStream.followProcess s <> LogStream.NotSpawned /\
  (LogStream.requestClosed s = true -> LogStream.followProcess s <> LogStream.Running).


(** ** Proof steps *)

(** Unfold the monad and the primitive calls. *)
Ltac run_monad :=
  unfold mkdir, stat, rmdir, writeFile, access, execAsync, fetch, sleep, now, console,
    readRegistry, writeRegistry, readAgents, writeAgents, readTrace, emit, settle,
    try_catch, bind, ret, throw in *; simpl in *.


(* ===================================================================== *)
(** * Further vocabulary: what a run of the manager issued *)
(* ===================================================================== *)


(** The shell commands among some events, each with its working directory,
    oldest first. *)
Fixpoint commands (evs : list Event) : list (string * option string) :=
  match evs with
  | EvExec command cwd _ :: rest => (command, cwd) :: commands rest
  | _ :: rest => commands rest
  | [] => []
  end.

(** The shell command of a stage of the deploy pipeline, if it has one. *)
Definition stageCommands (env : Env) (agentId : string) (s : Stage)
    : list (string * option string) :=
  match s with
  | ImageBuild => [(buildCommand, Some (deploymentDir env))]
  | BringUp =>
      [(upCommand env agentId, Some (path_dirname env (composePathOf env agentId)))]
  | _ => []
  end.

(** The result object of [getAgentStatus] for an agent that is not
    registered. *)
Definition notRunning : StatusReport.t :=
  {| StatusReport.status := "not_running"; StatusReport.url := None;
     StatusReport.health := None; StatusReport.error := None;
     StatusReport.deployedAt := None |}.

(** The message a probe threw, when it did. *)
Definition thrown (r : Res Response) : option string :=
  match r with
  | Rejected m => Some m
  | Resolved resp =>
      if ok resp then
        match text resp with
        | Rejected m => Some m
        | Resolved _ => None
        end
      else None
  end.

(** The body a probe delivered, when it succeeded. *)
Definition delivered (r : Res Response) : option string :=
  match r with
  | Resolved resp =>
      if ok resp then
        match text resp with
        | Resolved body => Some body
        | Rejected _ => None
        end
      else None
  | Rejected _ => None
  end.

(* ===================================================================== *)
(** * Further lifecycle routes of the API server *)
(* ===================================================================== *)

(** The assignments of the start route to the agent record after a
    successful deployment: [status = 'running'], [deployedAt],
    [containerUrl = deployResult.url], [updatedAt]. *)
Definition markRunning (deployedAt : string) (url : option string) (updatedAt : string)
    (a : Agent.t) : Agent.t :=
  {| Agent.name := Agent.name a;
     Agent.status := "running";
     Agent.superiorAgentConfig := Agent.superiorAgentConfig a;
     Agent.updatedAt := updatedAt;
     Agent.deployedAt := Some deployedAt;
     Agent.stoppedAt := Agent.stoppedAt a;
     Agent.pausedAt := Agent.pausedAt a;
     Agent.containerUrl := url;
     Agent.error := Agent.error a |}.

(** The assignments of the start route after a failed deployment:
    [status = 'failed'], [error = deployResult.error], [updatedAt]. *)
Definition markFailed (error : option string) (updatedAt : string) (a : Agent.t) : Agent.t :=
  {| Agent.name := Agent.name a;
     Agent.status := "failed";
     Agent.superiorAgentConfig := Agent.superiorAgentConfig a;
     Agent.updatedAt := updatedAt;
     Agent.deployedAt := Agent.deployedAt a;
     Agent.stoppedAt := Agent.stoppedAt a;
     Agent.pausedAt := Agent.pausedAt a;
     Agent.containerUrl := Agent.containerUrl a;
     Agent.error := error |}.

(** JSON body of the start route's answer. *)
Module StartBody.
Record t := {
  message : option string;
  agentId : option string;
  status : option string;
  url : option string;
  error : option string;
  details : option string
}.
End StartBody.

Record StartAnswer := { startCode : Z; startBody : StartBody.t }.

Definition startError (c : Z) (e : string) (d : option string) : StartAnswer :=
  {| startCode := c;
     startBody := {| StartBody.message := None; StartBody.agentId := None;
                     StartBody.status := None; StartBody.url := None;
                     StartBody.error := Some e; StartBody.details := d |} |}.

Definition started (id : string) (url : option string) : StartAnswer :=
  {| startCode := 200;
     startBody := {| StartBody.message := Some "Agent started successfully";
                     StartBody.agentId := Some id;
                     StartBody.status := Some "running"; StartBody.url := url;
                     StartBody.error := None; StartBody.details := None |} |}.

(** JSON body of the status route's answer. *)
Module StatusBody.
Record t := {
  agentId : string;
  name : string;
  configStatus : string;
  deploymentStatus : string;
  url : option string;
  deployedAt : option string;
  health : option string;
  error : option string
}.
End StatusBody.

Inductive StatusAnswer :=
| StatusOk (b : StatusBody.t)
| StatusError (c : Z) (error : string).

Section Routes.
Context (env : Env) (objectToYaml : Compose -> string).
Context (agentsJson : gmap string Agent.t -> string).

(** [POST /api/agents/:id/start]. *)
Definition startRoute (id : string) : M StartAnswer :=
  try_catch
    (await tbl <- readAgents;
     match tbl !! id with
     | None => ret (startError 404 "Agent not found" None)
     | Some agent =>
         await deployResult <-
           deployAgent env objectToYaml id (Agent.superiorAgentConfig agent);
         if Result.success deployResult then
           await deployedAt <- now env;
           await updatedAt <- now env;
           await tbl' <- readAgents;
           await_ writeAgents
             (<[id := markRunning deployedAt (Result.url deployResult) updatedAt agent]> tbl');
           await_ saveAgents env agentsJson;
           ret (started id (Result.url deployResult))
         else
           await updatedAt <- now env;
           await tbl' <- readAgents;
           await_ writeAgents
             (<[id := markFailed (Result.error deployResult) updatedAt agent]> tbl');
           await_ saveAgents env agentsJson;
           ret (startError 500 "Failed to start agent" (Result.error deployResult))
     end)
    (fun _ => ret (startError 500 "Internal server error" None)).

(** [POST /api/agents/:id/delete]. The result of [stopAgent] is not
    looked at. *)
Definition deleteRoute (id : string) : M HttpAnswer :=
  try_catch
    (await tbl <- readAgents;
     match tbl !! id with
     | None => ret (errorAnswer 404 "Agent not found" None)
     | Some agent =>
         await_ stopAgent env id;
         await tbl' <- readAgents;
         await_ writeAgents (delete id tbl');
         await_ saveAgents env agentsJson;
         ret {| code := 200;
                body := {| Body.message := Some "Agent deleted successfully";
                           Body.agentId := Some id; Body.status := None;
                           Body.error := None; Body.details := None |} |}
     end)
    (fun _ => ret (errorAnswer 500 "Internal server error" None)).

(** [GET /api/agents/:id/status]. *)
Definition statusRoute (id : string) : M StatusAnswer :=
  try_catch
    (await tbl <- readAgents;
     match tbl !! id with
     | None => ret (StatusError 404 "Agent not found")
     | Some agent =>
         await deploymentStatus <- getAgentStatus env id;
         ret (StatusOk
                {| StatusBody.agentId := id;
                   StatusBody.name := Agent.name agent;
                   StatusBody.configStatus := Agent.status agent;
                   StatusBody.deploymentStatus := StatusReport.status deploymentStatus;
                   StatusBody.url := StatusReport.url deploymentStatus;
                   StatusBody.deployedAt := Agent.deployedAt agent;
                   StatusBody.health := StatusReport.health deploymentStatus;
                   StatusBody.error := StatusReport.error deploymentStatus |})
     end)
    (fun _ => ret (StatusError 500 "Internal server error")).

(** A request to one of the routes that await the manager. *)
Inductive Request :=
| PostStop (id : string)
| PostPause (id : string)
| PostStart (id : string)
| PostDelete (id : string)
| GetStatus (id : string).

(** The state the server is in after it has answered a request. *)
Definition serve (rq : Request) (p : Process) : Process :=
  match rq with
  | PostStop id => fst (stopRoute env agentsJson id p)
  | PostPause id => fst (pauseRoute env agentsJson id p)
  | PostStart id => fst (startRoute id p)
  | PostDelete id => fst (deleteRoute id p)
  | GetStatus id => fst (statusRoute id p)
  end.

Definition serveAll (rqs : list Request) (p : Process) : Process :=
  fold_left (fun q rq => serve rq q) rqs p.

End Routes.

(** The agent a request names. *)
Definition requested (rq : Request) : string :=
  match rq with
  | PostStop id | PostPause id | PostStart id | PostDelete id | GetStatus id => id
  end.

(** Every record that says [running] has an entry in the manager's
    registry, and its [containerUrl] is that entry's URL. *)
Definition runningRecordsAreRegistered (p : Process) : Prop :=
  forall id a,
    agents p !! id = Some a ->
    Agent.status a = "running" ->
    exists e,
      runningAgents p !! id = Some e /\
      Agent.containerUrl a = Some (Deployment.url e).

(** The state the start route leaves after a failed deployment: one reading
    of the clock, the updated record, the agent table persisted. *)
Definition afterFailedStart (env : Env) (agentsJson : gmap string Agent.t -> string)
    (id : string) (mark : string -> Agent.t) (p1 : Process) : Process :=
  let t1 := date_now env (trace p1) in
  let tbl := <[id := mark t1]> (agents p1) in
  let t := (trace p1 ++ [EvNow t1])%list in
  {| trace := t ++ [EvWriteFile (agentsDbPath env) (agentsJson tbl)
                      (fs_writeFile env t (agentsDbPath env) (agentsJson tbl))];
     runningAgents := runningAgents p1;
     agents := tbl |}.

(** The state the delete route leaves: the record removed, the agent table
    persisted. *)
Definition afterDelete (env : Env) (agentsJson : gmap string Agent.t -> string)
    (id : string) (p1 : Process) : Process :=
  let tbl := delete id (agents p1) in
  {| trace := trace p1 ++ [EvWriteFile (agentsDbPath env) (agentsJson tbl)
                             (fs_writeFile env (trace p1) (agentsDbPath env) (agentsJson tbl))];
     runningAgents := runningAgents p1;
     agents := tbl |}.

(* ===================================================================== *)
(** * The descriptor as text: [objectToYaml] *)
(* ===================================================================== *)

Module Yaml.

(** The values [objectToYaml] tells apart: [null], [undefined], a string,
    any other primitive (a number or a boolean, given by the text
    [`${value}`] yields), an array without holes, and a plain object, given
    by the list [Object.entries] returns for it. *)
#[warnings="-register-all"]
Inductive Value :=
| VNull
| VUndefined
| VString (s : string)
| VOther (text : string)
| VArray (items : list Value)
| VObject (properties : list (string * Value)).

Definition newline : string := String (ascii_of_nat 10) EmptyString.

(** The message of the [TypeError] that [Object.entries] throws for [null]
    and [undefined]. *)
Definition notAnObject : string := "Cannot convert undefined or null to object".

(** [s.repeat(n)]. *)
Fixpoint repeatString (s : string) (n : nat) : string :=
  match n with
  | O => ""
  | S n' => s ++ repeatString s n'
  end.

(** [String(i)] for an array index. *)
Definition ofIndex (i : nat) : string := NilZero.string_of_uint (Nat.to_uint i).

(** What the loop of [objectToYaml] adds for the entries of a string: one
    line per code unit, keyed by its index. *)
Fixpoint characterLines (spaces : string) (i : nat) (s : string) : string :=
  match s with
  | EmptyString => ""
  | String c rest =>
      (spaces ++ ofIndex i ++ ": " ++ Js.dquote ++ String c EmptyString
         ++ Js.dquote ++ newline)
        ++ characterLines spaces (S i) rest
  end.

(** [objectToYaml(obj, indent)]. The local function [property] is the body
    of the [for] loop over [Object.entries(obj)], with [yaml] the text
    accumulated so far; [forEach] is the callback loop over the items of an
    array. An item for which [typeof item === 'object'] holds is [null], an
    array or an object. *)
Fixpoint objectToYaml (obj : Value) (indent : nat) {struct obj} : Res string :=
  let spaces := repeatString "  " indent in
  let property (yaml key : string) (value : Value) : Res string :=
    match value with
    | VNull | VUndefined => Resolved (yaml ++ spaces ++ key ++ ": null" ++ newline)
    | VObject _ =>
        match objectToYaml value (indent + 1) with
        | Resolved inner => Resolved ((yaml ++ spaces ++ key ++ ":" ++ newline) ++ inner)
        | Rejected m => Rejected m
        end
    | VArray items =>
        (fix forEach (items : list Value) (yaml : string) : Res string :=
           match items with
           | [] => Resolved yaml
           | item :: rest =>
               match item with
               | VNull | VArray _ | VObject _ =>
                   match objectToYaml item (indent + 2) with
                   | Resolved inner =>
                       forEach rest ((yaml ++ spaces ++ "  -" ++ newline) ++ inner)
                   | Rejected m => Rejected m
                   end
               | VUndefined => forEach rest (yaml ++ spaces ++ "  - undefined" ++ newline)
               | VString text | VOther text =>
                   forEach rest (yaml ++ spaces ++ "  - " ++ text ++ newline)
               end
           end) items (yaml ++ spaces ++ key ++ ":" ++ newline)
    | VString s =>
        Resolved (yaml ++ spaces ++ key ++ ": " ++ Js.dquote ++ s ++ Js.dquote ++ newline)
    | VOther text => Resolved (yaml ++ spaces ++ key ++ ": " ++ text ++ newline)
    end in
  match obj with
  | VNull | VUndefined => Rejected notAnObject
  | VOther _ => Resolved ""
  | VString s => Resolved (characterLines spaces 0 s)
  | VArray items =>
      (fix elements (items : list Value) (i : nat) (yaml : string) : Res string :=
         match items with
         | [] => Resolved yaml
         | item :: rest =>
             match property yaml (ofIndex i) item with
             | Resolved yaml' => elements rest (S i) yaml'
             | Rejected m => Rejected m
             end
         end) items 0%nat ""
  | VObject properties =>
      (fix entries (es : list (string * Value)) (yaml : string) : Res string :=
         match es with
         | [] => Resolved yaml
         | (key, value) :: rest =>
             match property yaml key value with
             | Resolved yaml' => entries rest yaml'
             | Rejected m => Rejected m
             end
         end) properties ""
  end.

(** The loops of [objectToYaml], named, so that its defining equations
    can be stated. *)
Definition forEach (indent : nat) : list Value -> string -> Res string :=
  let spaces := repeatString "  " indent in
  fix forEach (items : list Value) (yaml : string) : Res string :=
    match items with
    | [] => Resolved yaml
    | item :: rest =>
        match item with
        | VNull | VArray _ | VObject _ =>
            match objectToYaml item (indent + 2) with
            | Resolved inner => forEach rest ((yaml ++ spaces ++ "  -" ++ newline) ++ inner)
            | Rejected m => Rejected m
            end
        | VUndefined => forEach rest (yaml ++ spaces ++ "  - undefined" ++ newline)
        | VString text | VOther text =>
            forEach rest (yaml ++ spaces ++ "  - " ++ text ++ newline)
        end
    end.

Definition property (indent : nat) (yaml key : string) (value : Value) : Res string :=
  let spaces := repeatString "  " indent in
  match value with
  | VNull | VUndefined => Resolved (yaml ++ spaces ++ key ++ ": null" ++ newline)
  | VObject _ =>
      match objectToYaml value (indent + 1) with
      | Resolved inner => Resolved ((yaml ++ spaces ++ key ++ ":" ++ newline) ++ inner)
      | Rejected m => Rejected m
      end
  | VArray items => forEach indent items (yaml ++ spaces ++ key ++ ":" ++ newline)
  | VString s =>
      Resolved (yaml ++ spaces ++ key ++ ": " ++ Js.dquote ++ s ++ Js.dquote ++ newline)
  | VOther text => Resolved (yaml ++ spaces ++ key ++ ": " ++ text ++ newline)
  end.

Definition elements (indent : nat) : list Value -> nat -> string -> Res string :=
  fix elements (items : list Value) (i : nat) (yaml : string) : Res string :=
    match items with
    | [] => Resolved yaml
    | item :: rest =>
        match property indent yaml (ofIndex i) item with
        | Resolved yaml' => elements rest (S i) yaml'
        | Rejected m => Rejected m
        end
    end.

Definition entries (indent : nat) : list (string * Value) -> string -> Res string :=
  fix entries (es : list (string * Value)) (yaml : string) : Res string :=
    match es with
    | [] => Resolved yaml
    | (key, value) :: rest =>
        match property indent yaml key value with
        | Resolved yaml' => entries rest yaml'
        | Rejected m => Rejected m
        end
    end.

(** Lines, each indented by [n] levels and ended by a line feed. *)
Fixpoint indentLines (n : nat) (ls : list string) : string :=
  match ls with
  | [] => ""
  | l :: rest => (repeatString "  " n ++ l ++ newline) ++ indentLines n rest
  end.

(** An item of an array for which [typeof item === 'object'] holds. *)
Definition typeofObject (item : Value) : bool :=
  match item with
  | VNull | VArray _ | VObject _ => true
  | VUndefined | VString _ | VOther _ => false
  end.

(** [throws obj]: somewhere below [obj], or at [obj] itself, [null] or
    [undefined] is handed to [Object.entries]. That happens to [obj] itself
    and to a [null] item of an array that is the value of a property; an
    array that is itself an item of an array is read as an object, and
    its [null] elements as properties. *)
Fixpoint throws (obj : Value) : bool :=
  let asProperty (value : Value) : bool :=
    match value with
    | VObject _ => throws value
    | VArray items =>
        existsb (fun item =>
                   match item with
                   | VNull | VArray _ | VObject _ => throws item
                   | VUndefined | VString _ | VOther _ => false
                   end) items
    | VNull | VUndefined | VString _ | VOther _ => false
    end in
  match obj with
  | VNull | VUndefined => true
  | VString _ | VOther _ => false
  | VArray items => existsb asProperty items
  | VObject properties => existsb (fun kv => asProperty (snd kv)) properties
  end.

Definition throwsAsItem (item : Value) : bool :=
  match item with
  | VNull | VArray _ | VObject _ => throws item
  | VUndefined | VString _ | VOther _ => false
  end.

Definition throwsAsProperty (value : Value) : bool :=
  match value with
  | VObject _ => throws value
  | VArray items => existsb throwsAsItem items
  | VNull | VUndefined | VString _ | VOther _ => false
  end.

(** The two outcomes of [objectToYaml]: it throws the [TypeError] at every
    indentation, or it yields the same lines at every indentation, each
    shifted by it. *)
Definition shape (v : Value) : Prop :=
  if throws v
  then forall n, objectToYaml v n = Rejected notAnObject
  else exists ls, forall n, objectToYaml v n = Resolved (indentLines n ls).

Definition propertyShape (value : Value) : Prop :=
  forall key,
    if throwsAsProperty value
    then forall n yaml, property n yaml key value = Rejected notAnObject
    else exists ls, forall n yaml,
           property n yaml key value = Resolved (yaml ++ indentLines n ls).

(** No [null] and no [undefined] anywhere in a value. *)
Fixpoint nullFree (v : Value) : bool :=
  match v with
  | VNull | VUndefined => false
  | VString _ | VOther _ => true
  | VArray items => forallb nullFree items
  | VObject properties => forallb (fun kv => nullFree (snd kv)) properties
  end.

End Yaml.



(* ===================================================================== *)
(** * The MCP catalog and the configuration generated from a selection *)
(* ===================================================================== *)

Module Catalog.

Record Tool := { toolName : string; toolDescription : string }.

(** A field of an MCP's configuration; [required] is the truthiness of the
    property, which is [true], [false] or absent in the catalog. *)
Record Field := {
  key : string;
  label : string;
  type : string;
  required : bool
}.

(** The [config] of a catalog entry; an absent list reads as the empty
    list, as [|| []] makes it. *)
Record Config := {
  configFields : list Field;
  requiredEnvVars : list string;
  optionalEnvVars : list string
}.

(** An entry of [MCP_CATALOG], with the properties the functions below
    read; [transport] and [config] may be absent. *)
Record Mcp := {
  id : string;
  name : string;
  description : string;
  category : string;
  icon : string;
  transport : option string;
  tools : list Tool;
  config : option Config
}.

(** [[...new Set(xs)]]: the distinct elements, each at its first
    occurrence; [seen] are the elements the set holds already. *)
Fixpoint distinct (seen xs : list string) : list string :=
  match xs with
  | [] => []
  | x :: rest =>
      if existsb (String.eqb x) seen then distinct seen rest
      else x :: distinct (x :: seen) rest
  end.

Section Functions.
Context (MCP_CATALOG : list Mcp).

Definition getMCPById (mcpId : string) : option Mcp :=
  List.find (fun mcp => String.eqb (id mcp) mcpId) MCP_CATALOG.

(** [getMCPsByCategory(category)]; the argument is optional, and an empty
    string is falsy. *)
Definition getMCPsByCategory (wanted : option string) : list Mcp :=
  let validMCPs :=
    List.filter (fun mcp => Js.truthy (id mcp) && Js.truthy (name mcp)) MCP_CATALOG in
  match wanted with
  | Some c =>
      if Js.truthy c then List.filter (fun mcp => String.eqb (category mcp) c) validMCPs
      else validMCPs
  | None => validMCPs
  end.

Definition getAvailableCategories : list string :=
  distinct [] (map category MCP_CATALOG).

(** [.map(id => getMCPById(id)).filter(Boolean)]. *)
Definition selected (mcpIds : list string) : list Mcp :=
  omap getMCPById mcpIds.

Definition toolLine (tool : Tool) : string :=
  "  - " ++ toolName tool ++ "(): " ++ toolDescription tool ++ Yaml.newline.

Definition mcpBlock (mcp : Mcp) : string :=
  icon mcp ++ " " ++ name mcp ++ ":" ++ Yaml.newline
    ++ description mcp ++ Yaml.newline
    ++ "Tools:" ++ Yaml.newline
    ++ fold_right (fun tool rest => toolLine tool ++ rest) "" (tools mcp)
    ++ Yaml.newline.

Definition generateMCPToolsDescription (mcpIds : list string) : string :=
  "AVAILABLE TOOLS:" ++ Yaml.newline ++ Yaml.newline
    ++ fold_right (fun mcp rest => mcpBlock mcp ++ rest) "" (selected mcpIds)
    ++ "Use these tools to gather real-time data for your analysis and decision making."
    ++ Yaml.newline
    ++ "Always call the appropriate tool functions to get current information before making recommendations."
    ++ Yaml.newline.

(** ** [MCPConfigManager]: the requirements of a selection *)

Record Requirements := {
  mcpId : string;
  reqName : string;
  reqDescription : string;
  reqIcon : string;
  fields : list Field;
  reqRequiredEnvVars : list string;
  reqOptionalEnvVars : list string;
  hasRequiredFields : bool
}.

Definition getMCPConfigRequirements (mcpId : string) : option Requirements :=
  match getMCPById mcpId with
  | None => None
  | Some mcp =>
      match config mcp with
      | None => None
      | Some c =>
          Some {| mcpId := mcpId;
                  reqName := name mcp;
                  reqDescription := description mcp;
                  reqIcon := icon mcp;
                  fields := configFields c;
                  reqRequiredEnvVars := requiredEnvVars c;
                  reqOptionalEnvVars := optionalEnvVars c;
                  hasRequiredFields := existsb required (configFields c) |}
      end
  end.

Record Summary := {
  mcps : list Requirements;
  totalFields : nat;
  requiredFields : nat;
  hasRequiredConfigs : bool
}.

Definition getMCPsConfigRequirements (mcpIds : list string) : Summary :=
  let requirements := omap getMCPConfigRequirements mcpIds in
  {| mcps := requirements;
     totalFields :=
       fold_left (fun sum req => (sum + length (fields req))%nat) requirements 0%nat;
     requiredFields :=
       fold_left (fun sum req => (sum + length (List.filter required (fields req)))%nat)
         requirements 0%nat;
     hasRequiredConfigs := existsb hasRequiredFields requirements |}.

(** ** The create route's check of a selection, and the generated
    configuration *)

(** [mcps.filter(mcpId => !getMCPById(mcpId))], the identifiers the create
    route refuses. *)
Definition invalidMCPs (mcps : list string) : list string :=
  List.filter (fun mcpId =>
                 match getMCPById mcpId with
                 | Some _ => false
                 | None => true
                 end) mcps.

Record Client := {
  clientId : string;
  clientName : string;
  clientDescription : string;
  clientTransport : string;
  clientTools : list Tool;
  clientCategory : string
}.

(** The callback of [mcps.map(...)] in [generateSuperiorAgentConfig];
    [null] for an identifier the catalog does not have. *)
Definition client (mcpId : string) : option Client :=
  match getMCPById mcpId with
  | None => None
  | Some mcp =>
      Some {| clientId := id mcp;
              clientName := name mcp;
              clientDescription := description mcp;
              clientTransport :=
                match transport mcp with
                | Some t => if Js.truthy t then t else "stdio"
                | None => "stdio"
                end;
              clientTools :=
                map (fun tool => {| toolName := toolName tool;
                                    toolDescription := toolDescription tool |})
                  (tools mcp);
              clientCategory := category mcp |}
  end.

(** An element of [deployment.mcps_embedded]: a client without its
    category. *)
Record Embedded := {
  embeddedId : string;
  embeddedName : string;
  embeddedDescription : string;
  embeddedTransport : string;
  embeddedTools : list Tool
}.

Definition embedded (c : Client) : Embedded :=
  {| embeddedId := clientId c;
     embeddedName := clientName c;
     embeddedDescription := clientDescription c;
     embeddedTransport := clientTransport c;
     embeddedTools := clientTools c |}.

(** The value of [llmMapping[llm]]: a provider name for one of the four
    keys of the literal, the member of [Object.prototype] of that name for
    a name it has, [undefined] otherwise. *)
Inductive Looked :=
| Provider (providerName : string)
| Inherited (member : string)
| Missing.

Definition objectPrototypeMembers : list string :=
  ["constructor"; "__defineGetter__"; "__defineSetter__"; "hasOwnProperty";
   "__lookupGetter__"; "__lookupSetter__"; "isPrototypeOf"; "propertyIsEnumerable";
   "toString"; "valueOf"; "__proto__"; "toLocaleString"].

Definition llmMapping (llm : string) : Looked :=
  if String.eqb llm "claude" then Provider "claude"
  else if String.eqb llm "gpt4" then Provider "openai"
  else if String.eqb llm "gemini" then Provider "gemini"
  else if String.eqb llm "deepseek" then Provider "deepseek"
  else if existsb (String.eqb llm) objectPrototypeMembers then Inherited llm
  else Missing.

(** The configuration [generateSuperiorAgentConfig] returns, with the
    properties that depend on its argument; [rag.enabled], [rag.config],
    [flows], [container] and [deployment.mode] are constants of the
    literal. *)
Record SuperiorAgentConfig := {
  agent_name : string;
  config_description : string;
  system_prompt : string;
  llm_provider : Looked;
  mcp_clients : list Client;
  rag_type : string;
  mcps_embedded : list Embedded
}.

Definition generateSuperiorAgentConfig
    (name description prompt llm : string) (mcps : list string) (rag : string)
    : SuperiorAgentConfig :=
  let mcpToolsDescription := generateMCPToolsDescription mcps in
  let enhancedPrompt := prompt ++ Yaml.newline ++ Yaml.newline ++ mcpToolsDescription in
  let mcpClients := omap client mcps in
  {| agent_name := name;
     config_description := description;
     system_prompt := enhancedPrompt;
     llm_provider :=
       match llmMapping llm with
       | Missing => Provider "claude"
       | found => found
       end;
     mcp_clients := mcpClients;
     rag_type := rag;
     mcps_embedded := map embedded mcpClients |}.

End Functions.

End Catalog.

(** A catalog of two entries, for examples; the second has no required
    field and no transport. *)
Definition sampleCatalog : list Catalog.Mcp :=
  [{| Catalog.id := "wallet-tracker";
      Catalog.name := "Wallet Tracker MCP";
      Catalog.description := "Monitor wallet balances";
      Catalog.category := "blockchain";
      Catalog.icon := "W";
      Catalog.transport := Some "stdio";
      Catalog.tools :=
        [{| Catalog.toolName := "get_balance";
            Catalog.toolDescription := "Get current balance for a wallet address" |}];
      Catalog.config :=
        Some {| Catalog.configFields :=
                  [{| Catalog.key := "ETH_RPC_URL"; Catalog.label := "Ethereum RPC URL";
                      Catalog.type := "url"; Catalog.required := true |};
                   {| Catalog.key := "SOL_RPC_URL";
                      Catalog.label := "Solana RPC URL (Optional)";
                      Catalog.type := "url"; Catalog.required := false |}];
                Catalog.requiredEnvVars := ["ETH_RPC_URL"];
                Catalog.optionalEnvVars := ["SOL_RPC_URL"; "ETHERSCAN_API_KEY"] |} |};
   {| Catalog.id := "price-feed";
      Catalog.name := "Price Feed MCP";
      Catalog.description := "Real-time cryptocurrency prices";
      Catalog.category := "market-data";
      Catalog.icon := "P";
      Catalog.transport := None;
      Catalog.tools :=
        [{| Catalog.toolName := "get_price";
            Catalog.toolDescription := "Get current price for a token" |}];
      Catalog.config :=
        Some {| Catalog.configFields :=
                  [{| Catalog.key := "UPDATE_INTERVAL"; Catalog.label := "Update interval";
                      Catalog.type := "number"; Catalog.required := false |}];
                Catalog.requiredEnvVars := [];
                Catalog.optionalEnvVars := ["COINGECKO_API_KEY"] |} |}].

(* ===================================================================== *)
(** * Further vocabulary: what a log stream sends *)
(* ===================================================================== *)

(** The first event of a stream, by the outcome of the initial command. *)
Definition initialEvent (r : Res ExecOutput) : LogStream.Sse :=
  match r with
  | Resolved out =>
      {| LogStream.type := "logs";
         LogStream.content :=
           LogStream.firstTruthy (stdout out) (stderr out) "No logs available" |}
  | Rejected m =>
      {| LogStream.type := "error"; LogStream.content := "Error getting logs: " ++ m |}
  end.

(** The chunks of output among some inputs, as the events that carry
    them. *)
Fixpoint chunksOf (inputs : list LogStream.Input) : list LogStream.Sse :=
  match inputs with
  | [] => []
  | LogStream.ProcessStdout data :: rest =>
      {| LogStream.type := "stdout"; LogStream.content := data |} :: chunksOf rest
  | LogStream.ProcessStderr data :: rest =>
      {| LogStream.type := "stderr"; LogStream.content := data |} :: chunksOf rest
  | _ :: rest => chunksOf rest
  end.

(** What can happen between the set-up of a stream and the end of its
    subprocess: output, and the consumer going away. *)
Definition whileFollowing (i : LogStream.Input) : bool :=
  match i with
  | LogStream.ProcessStdout _ | LogStream.ProcessStderr _ | LogStream.RequestClose => true
  | LogStream.InitialLogsSettled _ | LogStream.ProcessClose => false
  end.

Definition streamEnded : LogStream.Sse :=
  {| LogStream.type := "info"; LogStream.content := "Log stream ended" |}.

(* ===================================================================== *)
(** * The published port *)
(* ===================================================================== *)

Example port_a1 : composePort "a1" = Some 3261.
Proof. reflexivity. Qed.

Example port_not_a_number : composePort "agent-xyz" = None.
Proof. reflexivity. Qed.

Lemma hexDigit_bound c d : Js.hexDigit c = Some d -> 0 <= d <= 15.
Proof.
  unfold Js.hexDigit. intros H.
  repeat match type of H with
         | (if ?b then _ else _) = _ => destruct b eqn:?
         end; inversion H; subst; lia.
Qed.

Lemma hexDigit_not_space c d : Js.hexDigit c = Some d -> Js.isWhiteSpace c = false.
Proof.
  destruct c as [[] [] [] [] [] [] [] []]; vm_compute; congruence.
Qed.

Lemma hexDigit_not_sign c d :
  Js.hexDigit c = Some d -> c <> "-"%char /\ c <> "+"%char /\ c <> "x"%char /\ c <> "X"%char.
Proof.
  destruct c as [[] [] [] [] [] [] [] []]; vm_compute; intros H;
    try discriminate H; repeat split; discriminate.
Qed.

Lemma hexPrefix_allHex s : allHex s = true -> length (Js.hexPrefix s) = String.length s.
Proof.
  induction s as [|c rest IH]; simpl; [reflexivity|].
  destruct (Js.hexDigit c); [|discriminate]. intros H. simpl. now rewrite IH.
Qed.

Lemma parseInt16_allHex s :
  s <> "" -> allHex s = true ->
  Js.parseInt16 s = Some (Js.hexValue (Js.hexPrefix s)).
Proof.
  destruct s as [|c rest]; [congruence|]. intros _ H.
  simpl in H. destruct (Js.hexDigit c) as [d|] eqn:Hc; [|discriminate].
  assert (Hrest : match rest with
                  | String c' _ => c' <> "x"%char /\ c' <> "X"%char
                  | EmptyString => True
                  end).
  { destruct rest as [|c' r]; [exact I|]. simpl in H.
    destruct (Js.hexDigit c') eqn:Hc'; [|discriminate].
    destruct (hexDigit_not_sign _ _ Hc') as (_ & _ & ? & ?). now split. }
  unfold Js.parseInt16. simpl Js.trimStart.
  rewrite (hexDigit_not_space _ _ Hc).
  assert (Hp : Js.hexPrefix (String c rest) = d :: Js.hexPrefix rest)
    by (simpl; now rewrite Hc).
  destruct c as [[] [] [] [] [] [] [] []]; try (vm_compute in Hc; discriminate Hc);
    try (rewrite Hp; now rewrite Z.mul_1_l).
  (* the digit 0: no hexadecimal prefix marker can follow *)
  destruct rest as [|c' r]; [rewrite Hp; now rewrite Z.mul_1_l|].
  destruct Hrest as [Hx HX].
  destruct c' as [[] [] [] [] [] [] [] []]; try congruence;
    rewrite Hp; now rewrite Z.mul_1_l.
Qed.

Lemma length_substring_le n m s : (String.length (substring n m s) <= m)%nat.
Proof.
  revert n m. induction s as [|c s IH]; intros [|n] [|m]; simpl; try lia.
  - specialize (IH 0%nat m). lia.
  - apply (IH n 0%nat).
  - apply (IH n (S m)).
Qed.

Lemma length_substring n m s :
  (n + m <= String.length s)%nat -> String.length (substring n m s) = m.
Proof.
  revert n m. induction s as [|c s IH]; intros [|n] [|m]; simpl; try lia.
  - intros H. rewrite IH; simpl; lia.
  - intros H. apply (IH n 0%nat). lia.
  - intros H. apply (IH n (S m)). lia.
Qed.

Lemma sliceLast_length k s :
  String.length (Js.sliceLast k s) = Nat.min k (String.length s).
Proof.
  unfold Js.sliceLast. rewrite length_substring; lia.
Qed.

Lemma hexValue_bound3 ds :
  Forall (fun d => 0 <= d <= 15) ds -> (length ds <= 3)%nat -> 0 <= Js.hexValue ds < 4096.
Proof.
  intros HF Hlen.
  destruct ds as [|a [|b [|c [|? ?]]]]; simpl in Hlen; try lia;
    repeat match goal with
           | H : Forall _ (_ :: _) |- _ => inversion H; subst; clear H
           end; unfold Js.hexValue; simpl; lia.
Qed.

Lemma hexPrefix_digits s : Forall (fun d => 0 <= d <= 15) (Js.hexPrefix s).
Proof.
  induction s as [|c s IH]; simpl; [constructor|].
  destruct (Js.hexDigit c) eqn:Hc; constructor; eauto using hexDigit_bound.
Qed.

(** The hexadecimal number the last three code units of an identifier
    spell, when they are hexadecimal digits. *)
Lemma parse_tail_of_hex_id agentId :
  endsInHex agentId ->
  exists n, Js.parseInt16 (Js.sliceLast 3 agentId) = Some n /\ 0 <= n < 4096.
Proof.
  intros [Hne Hhex].
  exists (Js.hexValue (Js.hexPrefix (Js.sliceLast 3 agentId))). split.
  - apply parseInt16_allHex; [|exact Hhex].
    intros E. pose proof (sliceLast_length 3 agentId) as L. rewrite E in L. simpl in L.
    destruct agentId; [congruence|]. simpl in L. lia.
  - apply hexValue_bound3; [apply hexPrefix_digits|].
    rewrite (hexPrefix_allHex _ Hhex), sliceLast_length. lia.
Qed.

(** C3 (as amended). For every agent identifier, the port published in the
    descriptor and the port the deploy pipeline probes are the same function
    of the identifier alone. Whenever the last three code units of the
    identifier read as a non-negative hexadecimal number [n], that port is
    3100 plus [n] modulo 900 and lies in the range 3100..3999; this is the
    case of every identifier that ends in hexadecimal digits, such as a
    UUID. *)
Theorem port_is_deterministic_and_in_range
    (env : Env) (agentId : string) (agentConfig : AgentConfig) :
  composePort agentId = deployPort agentId /\
  (forall n,
     Js.parseInt16 (Js.sliceLast 3 agentId) = Some n ->
     0 <= n ->
     deployPort agentId = Some (3100 + n mod 900) /\
     3100 <= 3100 + n mod 900 <= 3999 /\
     ports (service (generateDockerCompose env agentId agentConfig))
       = [Js.ofZ (3100 + n mod 900) ++ ":8000"]) /\
  (endsInHex agentId ->
   exists n, Js.parseInt16 (Js.sliceLast 3 agentId) = Some n /\ 0 <= n < 4096).
Proof.
  split; [reflexivity|]. split; [|apply parse_tail_of_hex_id].
  intros n Hn Hpos.
  assert (Hp : deployPort agentId = Some (3100 + n mod 900)).
  { unfold deployPort. rewrite Hn. simpl. now rewrite Z.rem_mod_nonneg by lia. }
  split; [exact Hp|].
  split; [pose proof (Z.mod_pos_bound n 900); lia|].
  simpl. unfold composePort. fold (deployPort agentId). now rewrite Hp.
Qed.

(** The port of a UUID. *)
Example port_of_a_uuid :
  endsInHex "3f2b8c1e-9d4a-4e7b-8a21-5c6d7e8f9abc" /\
  Js.parseInt16 (Js.sliceLast 3 "3f2b8c1e-9d4a-4e7b-8a21-5c6d7e8f9abc") = Some 2748 /\
  deployPort "3f2b8c1e-9d4a-4e7b-8a21-5c6d7e8f9abc" = Some 3148 /\
  ports (service (generateDockerCompose sunny "3f2b8c1e-9d4a-4e7b-8a21-5c6d7e8f9abc"
                    sampleConfig)) = ["3148:8000"].
Proof. split; [split; [discriminate | reflexivity]|]. repeat split. Qed.

(** C3, as stated, fails: an identifier whose last three code units read as
    a negative hexadecimal number gets a port below the range. *)
Lemma port_below_range :
  deployPort "agent-12" = Some 3082 /\
  ~ (exists p, composePort "agent-12" = Some p /\ 3100 <= p <= 3999).
Proof.
  split; [reflexivity|].
  intros (p & Hp & Hr). vm_compute in Hp. inversion Hp; subst. lia.
Qed.

(* ===================================================================== *)
(** * Tear-down: [stopAgent] *)
(* ===================================================================== *)

(** What [stopAgent] does, case by case. *)
Lemma stopAgent_cases (env : Env) (agentId : string) (p : Process) :
  stopAgent env agentId p =
  match runningAgents p !! agentId with
  | None => (p, Resolved agentNotFound)
  | Some agent =>
      let path := Deployment.composePath agent in
      if Js.truthy path then
        match fs_access env (trace p) path with
        | Resolved u =>
            let t1 := (trace p ++ [EvAccess path (Resolved u)])%list in
            match child_exec env t1 (downCommand agent) None with
            | Resolved out =>
                ({| trace := (t1 ++ [EvExec (downCommand agent) None (Resolved out)])%list;
                    runningAgents := delete agentId (runningAgents p);
                    agents := agents p |}, Resolved (stopped agentId))
            | Rejected m =>
                ({| trace := (t1 ++ [EvExec (downCommand agent) None (Rejected m)])%list;
                    runningAgents := runningAgents p;
                    agents := agents p |}, Resolved (stopFailed agentId m))
            end
        | Rejected m =>
            ({| trace := (trace p ++ [EvAccess path (Rejected m)])%list;
                runningAgents := delete agentId (runningAgents p);
                agents := agents p |}, Resolved (stopped agentId))
        end
      else
        ({| trace := trace p;
            runningAgents := delete agentId (runningAgents p);
            agents := agents p |}, Resolved (stopped agentId))
  end.
Proof.
  unfold stopAgent, downCommand. run_monad.
  destruct (runningAgents p !! agentId) as [agent|]; [|reflexivity].
  destruct (Js.truthy (Deployment.composePath agent)); [|reflexivity].
  destruct (fs_access env (trace p) (Deployment.composePath agent)) as [u|m]; simpl;
    [|reflexivity].
  destruct (child_exec env _ _ None) as [out|m]; reflexivity.
Qed.

(** Without a registry entry [stopAgent] changes nothing. *)
Lemma stopAgent_unregistered_is_noop (env : Env) (agentId : string) (p : Process) :
  runningAgents p !! agentId = None ->
  stopAgent env agentId p = (p, Resolved agentNotFound).
Proof.
  intros H. rewrite stopAgent_cases, H. reflexivity.
Qed.

(** C8. For an identifier with no registry entry, [stopAgent] returns exactly
    [{success: false, error: 'Agent not found'}] and has no side effect: the
    whole process state, so the registry and the list of calls made (no
    tear-down command is issued), is unchanged. *)
Theorem stopAgent_unregistered_has_no_effect
    (env : Env) (agentId : string) (p : Process) :
  runningAgents p !! agentId = None ->
  stopAgent env agentId p =
    (p, Resolved {| Result.success := false; Result.agentId := None;
                    Result.url := None; Result.status := None;
                    Result.error := Some "Agent not found" |}).
Proof.
  intros H. rewrite stopAgent_cases, H. reflexivity.
Qed.

Lemma stopAgent_unregistered_has_no_effect_witness :
  runningAgents a1Running !! "b2" = None /\
  stopAgent stuck "b2" a1Running =
    (a1Running, Resolved {| Result.success := false; Result.agentId := None;
                            Result.url := None; Result.status := None;
                            Result.error := Some "Agent not found" |}).
Proof.
  assert (H : runningAgents a1Running !! "b2" = None) by (vm_compute; reflexivity).
  split; [exact H | exact (stopAgent_unregistered_has_no_effect stuck "b2" a1Running H)].
Defined.

(** What [stopAgent] does to a registered agent: the calls it makes are
    those of a tear-down step, the server's agent table is untouched, and
    either the command threw, the failure is reported and the registry is
    unchanged, or the step went through and exactly this entry is removed. *)
Lemma stopAgent_registered (env : Env) (agentId : string) (p : Process) (agent : Deployment.t) :
  runningAgents p !! agentId = Some agent ->
  exists p' r evs,
    stopAgent env agentId p = (p', Resolved r) /\
    trace p' = (trace p ++ evs)%list /\
    agents p' = agents p /\
    ((exists message,
        tearDownThrew agent message evs /\
        r = stopFailed agentId message /\
        runningAgents p' = runningAgents p)
     \/ (tearDownClean agent evs /\
         r = stopped agentId /\
         runningAgents p' = delete agentId (runningAgents p))).
Proof.
  intros H. rewrite stopAgent_cases, H. cbv zeta.
  destruct (Js.truthy (Deployment.composePath agent)) eqn:Ht.
  - destruct (fs_access env (trace p) (Deployment.composePath agent)) as [[]|m] eqn:Ha.
    + destruct (child_exec env _ (downCommand agent) None) as [out|m] eqn:Hx.
      * eexists _, _, [_; _]. split; [reflexivity|]. simpl.
        split; [now rewrite <- app_assoc|]. split; [reflexivity|].
        right. split; [|split; reflexivity]. right. right. now exists out.
      * eexists _, _, [_; _]. split; [reflexivity|]. simpl.
        split; [now rewrite <- app_assoc|]. split; [reflexivity|].
        left. exists m. repeat split.
    + eexists _, _, [_]. split; [reflexivity|]. simpl.
      split; [reflexivity|]. split; [reflexivity|].
      right. split; [|split; reflexivity]. right. left. now exists m.
  - eexists _, _, []. split; [reflexivity|]. simpl.
    split; [now rewrite app_nil_r|]. split; [reflexivity|].
    right. split; [|split; reflexivity]. left. now split.
Qed.

(** [stopAgent] never rejects. *)
Lemma stopAgent_resolves (env : Env) (agentId : string) (p : Process) :
  exists p' r, stopAgent env agentId p = (p', Resolved r).
Proof.
  destruct (runningAgents p !! agentId) as [agent|] eqn:H.
  - destruct (stopAgent_registered env agentId p agent H) as (p' & r & _ & E & _). eauto.
  - rewrite stopAgent_cases, H. eauto.
Qed.

(** C10. For a registered agent, when the tear-down command throws,
    [stopAgent] returns [{success: false, agentId, error}] with the thrown
    message and leaves the registry as it was; conversely, whenever the
    entry is gone after [stopAgent], the tear-down step completed without
    error and success was reported. *)
Theorem stopAgent_is_atomic_on_teardown_failure
    (env : Env) (agentId : string) (p : Process) (agent : Deployment.t) :
  runningAgents p !! agentId = Some agent ->
  exists p' r evs,
    stopAgent env agentId p = (p', Resolved r) /\
    trace p' = (trace p ++ evs)%list /\
    (forall message,
       tearDownThrew agent message evs ->
       r = {| Result.success := false; Result.agentId := Some agentId;
              Result.url := None; Result.status := None;
              Result.error := Some message |} /\
       runningAgents p' = runningAgents p) /\
    (runningAgents p' !! agentId = None ->
       tearDownClean agent evs /\ Result.success r = true).
Proof.
  intros H.
  destruct (stopAgent_registered env agentId p agent H)
    as (p' & r & evs & E & Ht & _ & [(m & Hthrew & Hr & Hreg) | (Hclean & Hr & Hreg)]).
  - exists p', r, evs. split; [exact E|]. split; [exact Ht|]. split.
    + intros m' Hm'. unfold tearDownThrew in *. rewrite Hthrew in Hm'.
      inversion Hm'; subst. split; [reflexivity | exact Hreg].
    + intros Hgone. rewrite Hreg, H in Hgone. discriminate.
  - exists p', r, evs. split; [exact E|]. split; [exact Ht|]. split.
    + intros m Hm. exfalso. unfold tearDownThrew in Hm. subst evs.
      destruct Hclean as [[? _] | [[? ?] | [? ?]]]; discriminate.
    + intros _. split; [exact Hclean | now subst r].
Qed.

Example a1Running_registry : runningAgents a1Running = {[ "a1" := a1Entry ]}.
Proof. vm_compute. reflexivity. Qed.

Lemma stopAgent_is_atomic_on_teardown_failure_witness :
  runningAgents a1Running !! "a1" = Some a1Entry /\
  exists p' r evs,
    stopAgent stuck "a1" a1Running = (p', Resolved r) /\
    trace p' = (trace a1Running ++ evs)%list /\
    (forall message,
       tearDownThrew a1Entry message evs ->
       r = {| Result.success := false; Result.agentId := Some "a1";
              Result.url := None; Result.status := None;
              Result.error := Some message |} /\
       runningAgents p' = runningAgents a1Running) /\
    (runningAgents p' !! "a1" = None ->
       tearDownClean a1Entry evs /\ Result.success r = true).
Proof.
  assert (H : runningAgents a1Running !! "a1" = Some a1Entry) by (vm_compute; reflexivity).
  split; [exact H | exact (stopAgent_is_atomic_on_teardown_failure stuck "a1" a1Running a1Entry H)].
Defined.

(** In the stuck world the tear-down of [a1] throws: the failure is reported
    and the entry stays. *)
Example stop_a1_when_stuck :
  snd (stopAgent stuck "a1" a1Running) = Resolved (stopFailed "a1" "down failed") /\
  runningAgents (fst (stopAgent stuck "a1" a1Running)) !! "a1" = Some a1Entry.
Proof. split; vm_compute; reflexivity. Qed.

(* ===================================================================== *)
(** * The health monitor: [waitForHealth] *)
(* ===================================================================== *)

Lemma extend_nil p : extend p [] = p.
Proof. destruct p. unfold extend. simpl. now rewrite app_nil_r. Qed.

Lemma extend_extend p a b : extend (extend p a) b = extend p (a ++ b).
Proof. unfold extend. simpl. now rewrite app_assoc. Qed.

Lemma diagnostics_cases (env : Env) (b : Binding) (url : string) (p : Process) :
  exists evs,
    diagnostics env b url p = (extend p evs, Resolved tt) /\ isDiagnostics b url evs.
Proof.
  unfold diagnostics, call, isDiagnostics. destruct b; run_monad.
  - destruct (child_exec env (trace p) (diagnosticsCommand url) None) as [out|m] eqn:E.
    + eexists [_; _]. unfold extend. simpl. rewrite <- app_assoc. simpl.
      split; [reflexivity|]. left. now exists out.
    + eexists [_; _]. unfold extend. simpl. rewrite <- app_assoc. simpl.
      split; [reflexivity|]. right. now exists m.
  - eexists [_]. unfold extend. simpl. split; reflexivity.
Qed.

(** One attempt: the probe is issued; the attempt reports success exactly
    when the probe succeeded; the diagnostics branch is entered exactly when
    the probe threw on an attempt whose number is a multiple of five. *)
Lemma healthAttempt_cases (env : Env) (b : Binding) (url : string) (attempt : Z) (p : Process) :
  exists a,
    number a = attempt /\
    healthAttempt env b url attempt p
      = (extend p (EvFetch (url ++ "/health") (outcome a) :: diagnosticsCalls a),
         Resolved (succeeded (outcome a))) /\
    diagnosticsAsDesigned b url a.
Proof.
  unfold healthAttempt, diagnosticsAsDesigned. run_monad.
  set (u := url ++ "/health").
  destruct (node_fetch env (trace p) u) as [resp|m] eqn:E.
  - destruct (ok resp) eqn:Hok.
    + destruct (text resp) as [body|m] eqn:Ht.
      * exists {| number := attempt; outcome := Resolved resp; diagnosticsCalls := [] |}.
        simpl. rewrite Hok, Ht. simpl. repeat split.
      * destruct (Z.rem attempt 5 =? 0)%Z eqn:H5.
        -- destruct (diagnostics_cases env b url (extend p [EvFetch u (Resolved resp)]))
             as (evs & Hd & Hshape).
           exists {| number := attempt; outcome := Resolved resp; diagnosticsCalls := evs |}.
           simpl. rewrite Hok, Ht, H5. simpl. split; [reflexivity|]. split; [|exact Hshape].
           unfold extend in Hd. simpl in Hd. rewrite Hd. unfold extend. simpl.
           now rewrite <- app_assoc.
        -- exists {| number := attempt; outcome := Resolved resp; diagnosticsCalls := [] |}.
           simpl. rewrite Hok, Ht, H5. simpl. repeat split.
    + exists {| number := attempt; outcome := Resolved resp; diagnosticsCalls := [] |}.
      simpl. rewrite Hok. simpl. repeat split.
  - destruct (Z.rem attempt 5 =? 0)%Z eqn:H5.
    + destruct (diagnostics_cases env b url (extend p [EvFetch u (Rejected m)]))
        as (evs & Hd & Hshape).
      exists {| number := attempt; outcome := Rejected m; diagnosticsCalls := evs |}.
      simpl. rewrite H5. simpl. split; [reflexivity|]. split; [|exact Hshape].
      unfold extend in Hd. simpl in Hd. rewrite Hd. unfold extend. simpl.
      now rewrite <- app_assoc.
    + exists {| number := attempt; outcome := Rejected m; diagnosticsCalls := [] |}.
      simpl. rewrite H5. simpl. repeat split.
Qed.

(** The loop as a list of attempts. *)
Lemma healthLoop_run (env : Env) (b : Binding) (url : string) (remaining : nat) :
  forall (attempt : Z) (p : Process),
  exists attempts result,
    healthLoop env b url 2000 remaining attempt p
      = (extend p (runEvents url attempts), Resolved result) /\
    numberedFrom attempt attempts /\
    Forall (diagnosticsAsDesigned b url) attempts /\
    stopsAtFirstSuccess remaining attempts result.
Proof.
  induction remaining as [|k IH]; intros attempt p.
  - exists [], false. simpl. unfold ret. rewrite extend_nil.
    repeat split; constructor.
  - destruct (healthAttempt_cases env b url attempt p) as (a & Hn & Ha & Hd).
    simpl. unfold bind at 1. rewrite Ha.
    destruct (succeeded (outcome a)) eqn:Hs.
    + exists [a], true. unfold ret, runEvents. simpl. rewrite Hs, !app_nil_r.
      split; [reflexivity|]. split; [now split|]. split; [now constructor|].
      exists [], a. simpl. repeat split; [constructor | exact Hs | lia].
    + unfold bind, sleep, emit. simpl.
      match goal with
      | |- context [healthLoop env b url 2000 k (attempt + 1) ?q] =>
          destruct (IH (attempt + 1) q) as (rest & result & Hrun & Hnum & Hdiag & Hstop);
          rewrite Hrun
      end.
      exists (a :: rest), result. unfold runEvents, extend. simpl. rewrite Hs.
      split; [|split; [now split | split; [now constructor|]]].
      * f_equal. f_equal. rewrite <- !app_assoc. simpl. reflexivity.
      * unfold stopsAtFirstSuccess in *. destruct result.
        -- destruct Hstop as (failed & last & -> & Hf & Hl & Hlen).
           exists (a :: failed), last. simpl. repeat split;
             [now constructor | exact Hl | lia].
        -- destruct Hstop as [Hf Hlen]. split; [now constructor | simpl; lia].
Qed.

(** The run of [waitForHealth], for any binding of the diagnostics
    function: it resolves, touches neither the registry nor the agent
    table, and its calls are those of a list of attempts numbered from 1,
    with diagnostics as designed, stopping at the first success. *)
Lemma waitForHealthWith_run
    (env : Env) (b : Binding) (url : string) (timeoutSeconds : Z) (p : Process) :
  exists attempts result,
    waitForHealthWith env b url timeoutSeconds p
      = (extend p (runEvents url attempts), Resolved result) /\
    numberedFrom 1 attempts /\
    Forall (diagnosticsAsDesigned b url) attempts /\
    stopsAtFirstSuccess (Z.to_nat (maxAttemptsOf timeoutSeconds)) attempts result.
Proof.
  unfold waitForHealthWith. apply healthLoop_run.
Qed.

Lemma probes_app a b : probes (a ++ b) = (probes a ++ probes b)%list.
Proof.
  induction a as [|e a IH]; simpl; [reflexivity|].
  destruct e; simpl; now rewrite ?IH.
Qed.

Lemma probes_diagnostics b url a :
  diagnosticsAsDesigned b url a -> probes (diagnosticsCalls a) = [].
Proof.
  unfold diagnosticsAsDesigned, isDiagnostics.
  destruct (threw (outcome a) && (Z.rem (number a) 5 =? 0)%Z).
  - destruct b; [intros [[? ->] | [? ->]] | intros ->]; reflexivity.
  - now intros ->.
Qed.

Lemma probes_runEvents b url attempts :
  Forall (diagnosticsAsDesigned b url) attempts ->
  probes (runEvents url attempts) = map outcome attempts.
Proof.
  unfold runEvents. induction 1 as [|a rest Ha _ IH]; simpl; [reflexivity|].
  rewrite !probes_app, (probes_diagnostics _ _ _ Ha), IH. simpl.
  destruct (succeeded (outcome a)); reflexivity.
Qed.

(** A probe that did not succeed came back with a non-success status or
    threw (time-out, refused or broken connection). *)
Lemma failed_probe_kinds (r : Res Response) :
  succeeded r = false <->
  (exists resp, r = Resolved resp /\ ok resp = false) \/ threw r = true.
Proof.
  destruct r as [resp|m]; simpl.
  - destruct (ok resp) eqn:Hok; simpl.
    + destruct (text resp); split; intros H; try discriminate; auto.
      destruct H as [(? & E & Hk) | ?]; [|discriminate]. inversion E; subst. congruence.
    + split; [|reflexivity]. intros _. left. now exists resp.
  - split; [now right | reflexivity].
Qed.

Lemma maxAttemptsOf_nonneg timeoutSeconds :
  0 <= timeoutSeconds ->
  Z.of_nat (Z.to_nat (maxAttemptsOf timeoutSeconds)) = timeoutSeconds * 1000 / 2000.
Proof.
  intros H. unfold maxAttemptsOf. rewrite Z2Nat.id; [reflexivity|].
  apply Z.div_pos; lia.
Qed.

(** C2. For a non-negative time-out, [waitForHealth] resolves after at most
    [maxAttempts = floor(timeoutSeconds * 1000 / 2000)] probes, issued one
    after the other. A probe succeeds when it comes back with a success
    status and its body is read; it fails when it comes back with a
    non-success status or throws (a time-out, a refused or broken
    connection). [waitForHealth] returns [true] exactly when one of the
    probes succeeded, and then that probe is the last one issued and all
    earlier ones failed; otherwise it returns [false] after exactly
    [maxAttempts] failed probes. *)
Theorem waitForHealth_bounded_polling
    (env : Env) (url : string) (timeoutSeconds : Z) (p : Process) :
  0 <= timeoutSeconds ->
  exists p' result evs,
    waitForHealth env url timeoutSeconds p = (p', Resolved result) /\
    trace p' = (trace p ++ evs)%list /\
    let maxAttempts := timeoutSeconds * 1000 / 2000 in
    Z.of_nat (length (probes evs)) <= maxAttempts /\
    (result = true <-> exists r, In r (probes evs) /\ succeeded r = true) /\
    (result = true ->
       exists failed r,
         probes evs = (failed ++ [r])%list /\
         Forall (fun r' => succeeded r' = false) failed /\
         succeeded r = true) /\
    (result = false ->
       Z.of_nat (length (probes evs)) = maxAttempts /\
       Forall (fun r => succeeded r = false) (probes evs)).
Proof.
  intros Hpos. unfold waitForHealth.
  destruct (waitForHealthWith_run env destructuredExecAsync url timeoutSeconds p)
    as (attempts & result & Hrun & _ & Hdiag & Hstop).
  exists (extend p (runEvents url attempts)), result, (runEvents url attempts).
  split; [exact Hrun|]. split; [reflexivity|]. cbv zeta.
  rewrite (probes_runEvents _ _ _ Hdiag), length_map.
  rewrite <- (maxAttemptsOf_nonneg _ Hpos).
  unfold stopsAtFirstSuccess in Hstop. destruct result.
  - destruct Hstop as (failed & last & -> & Hf & Hl & Hlen).
    split; [lia|]. split; [|split; [|discriminate]].
    + split; [|reflexivity]. intros _. exists (outcome last). split; [|exact Hl].
      rewrite map_app. apply in_or_app. right. now left.
    + intros _. exists (map outcome failed), (outcome last).
      split; [now rewrite map_app|]. split; [|exact Hl].
      clear -Hf. induction Hf; simpl; constructor; auto.
  - destruct Hstop as [Hf Hlen].
    assert (Hall : Forall (fun r => succeeded r = false) (map outcome attempts))
      by (clear -Hf; induction Hf; simpl; constructor; auto).
    split; [lia|]. split; [|split; [discriminate|]].
    + split; [discriminate|]. intros (r & Hin & Hr).
      rewrite Forall_forall in Hall. apply list_elem_of_In in Hin.
      specialize (Hall r Hin). congruence.
    + intros _. split; [lia | exact Hall].
Qed.

Lemma waitForHealth_bounded_polling_witness :
  0 <= 60 /\
  exists p' result evs,
    waitForHealth refusing "http://localhost:3261" 60 initial = (p', Resolved result) /\
    trace p' = (trace initial ++ evs)%list /\
    let maxAttempts := 60 * 1000 / 2000 in
    Z.of_nat (length (probes evs)) <= maxAttempts /\
    (result = true <-> exists r, In r (probes evs) /\ succeeded r = true) /\
    (result = true ->
       exists failed r,
         probes evs = (failed ++ [r])%list /\
         Forall (fun r' => succeeded r' = false) failed /\
         succeeded r = true) /\
    (result = false ->
       Z.of_nat (length (probes evs)) = maxAttempts /\
       Forall (fun r => succeeded r = false) (probes evs)).
Proof.
  assert (H : 0 <= 60) by lia.
  split; [exact H|].
  exact (waitForHealth_bounded_polling refusing "http://localhost:3261" 60 initial H).
Defined.

(** Thirty refused probes, then [false]; a probe that succeeds at once,
    then [true] with no further probe. *)
Example waitForHealth_exhausted :
  snd (waitForHealth refusing "http://localhost:3261" 60 initial) = Resolved false /\
  length (probes (trace (fst (waitForHealth refusing "http://localhost:3261" 60 initial))))
    = 30%nat.
Proof. split; vm_compute; reflexivity. Qed.

(** A connection that breaks while the body is read is a failed attempt,
    whatever the status was. *)
Example waitForHealth_broken_body :
  snd (waitForHealth truncating "http://localhost:3261" 4 initial) = Resolved false /\
  length (probes (trace (fst (waitForHealth truncating "http://localhost:3261" 4 initial))))
    = 2%nat.
Proof. split; vm_compute; reflexivity. Qed.

Example waitForHealth_immediate :
  waitForHealth sunny "http://localhost:3261" 60 initial =
    (extend initial [EvFetch "http://localhost:3261/health" healthy], Resolved true).
Proof. vm_compute. reflexivity. Qed.

(** C5 (as amended). Whatever the function the diagnostics branch calls is
    bound to, [waitForHealth] being the case of the binding of the code:
    the run is a list of attempts numbered from 1; the diagnostics branch
    is entered on exactly the attempts whose number is a multiple of five
    and whose probe threw, and on no attempt that failed with a non-success
    status; whatever the branch does, the attempt ends with the sleep and
    the loop goes on, so that the run stops at the first successful probe
    and otherwise makes all its attempts and returns [false]. *)
Theorem diagnostics_never_abort_the_health_loop
    (env : Env) (b : Binding) (url : string) (timeoutSeconds : Z) (p : Process) :
  waitForHealth env url timeoutSeconds p
    = waitForHealthWith env destructuredExecAsync url timeoutSeconds p /\
  exists attempts result,
    waitForHealthWith env b url timeoutSeconds p
      = (extend p (runEvents url attempts), Resolved result) /\
    numberedFrom 1 attempts /\
    Forall (fun a =>
              if threw (outcome a) && (Z.rem (number a) 5 =? 0)%Z
              then isDiagnostics b url (diagnosticsCalls a)
              else diagnosticsCalls a = []) attempts /\
    stopsAtFirstSuccess (Z.to_nat (maxAttemptsOf timeoutSeconds)) attempts result.
Proof.
  split; [reflexivity|]. apply waitForHealthWith_run.
Qed.

(** C5, as stated, fails: when the fifth attempt fails with a non-success
    status, no diagnostics are pulled; the fifth probe is followed by the
    sleep alone. *)
Lemma fifth_failure_by_status_pulls_nothing :
  waitForHealth unavailable "http://localhost:3261" 10 initial =
    (extend initial
       [EvFetch "http://localhost:3261/health"
          (Resolved {| status := 503; text := Resolved "starting" |});
        EvSleep 2000;
        EvFetch "http://localhost:3261/health"
          (Resolved {| status := 503; text := Resolved "starting" |});
        EvSleep 2000;
        EvFetch "http://localhost:3261/health"
          (Resolved {| status := 503; text := Resolved "starting" |});
        EvSleep 2000;
        EvFetch "http://localhost:3261/health"
          (Resolved {| status := 503; text := Resolved "starting" |});
        EvSleep 2000;
        EvFetch "http://localhost:3261/health"
          (Resolved {| status := 503; text := Resolved "starting" |});
        EvSleep 2000],
     Resolved false).
Proof. vm_compute. reflexivity. Qed.

(** With the binding of the code the diagnostics branch issues no command
    at all: calling [undefined] throws, and only the report of that error is
    left. *)
Example diagnostics_of_the_code_issue_no_command :
  drop 8 (trace (fst (waitForHealth refusing "http://localhost:3261" 10 initial))) =
    [EvFetch "http://localhost:3261/health" (Rejected "ECONNREFUSED");
     EvConsole (CouldNotFetchLogs "execAsync is not a function");
     EvSleep 2000].
Proof. vm_compute. reflexivity. Qed.

(** The container the diagnostics command names is read off the URL, which
    does not contain the agent identifier. *)
Example diagnostics_name_unknown_container :
  String.prefix "docker logs --tail 10 superior-agent-unknown 2>&1"
    (diagnosticsCommand "http://localhost:3261") = true /\
  String.prefix "docker logs --tail 10 superior-agent-3100 2>&1"
    (diagnosticsCommand "http://localhost:3100") = true.
Proof. split; vm_compute; reflexivity. Qed.

(* ===================================================================== *)
(** * The deploy pipeline: [deployAgent] *)
(* ===================================================================== *)

Lemma bind_step {A B} (m : M A) (k : A -> M B) (p : Process) :
  bind m k p =
  match m p with
  | (p', Resolved a) => k a p'
  | (p', Rejected e) => (p', Rejected e)
  end.
Proof. reflexivity. Qed.

Lemma try_catch_step {A} (body : M A) (handler : string -> M A) (p : Process) :
  try_catch body handler p =
  match body p with
  | (p', Resolved a) => (p', Resolved a)
  | (p', Rejected e) => handler e p'
  end.
Proof. reflexivity. Qed.

Lemma mkdir_step env path p :
  mkdir env path p =
    (extend p [EvMkdir path (fs_mkdir env (trace p) path)], fs_mkdir env (trace p) path).
Proof. reflexivity. Qed.

Lemma stat_step env path p :
  stat env path p =
    (extend p [EvStat path (fs_stat env (trace p) path)], fs_stat env (trace p) path).
Proof. reflexivity. Qed.

Lemma rmdir_step env path p :
  rmdir env path p =
    (extend p [EvRmdir path (fs_rmdir env (trace p) path)], fs_rmdir env (trace p) path).
Proof. reflexivity. Qed.

Lemma writeFile_step env path content p :
  writeFile env path content p =
    (extend p [EvWriteFile path content (fs_writeFile env (trace p) path content)],
     fs_writeFile env (trace p) path content).
Proof. reflexivity. Qed.

Lemma execAsync_step env command cwd p :
  execAsync env command cwd p =
    (extend p [EvExec command cwd (child_exec env (trace p) command cwd)],
     child_exec env (trace p) command cwd).
Proof. reflexivity. Qed.

Lemma now_step env p :
  now env p = (extend p [EvNow (date_now env (trace p))], Resolved (date_now env (trace p))).
Proof. reflexivity. Qed.

(** The check for a stale directory never fails. *)
Lemma staleCheck_ran (env : Env) (agentId : string) (p : Process) :
  exists check,
    StaleCheck env agentId check /\
    try_catch
      (await stats <- stat env (configPathOf env agentId);
       if isDirectory stats then rmdir env (configPathOf env agentId) else ret tt)
      (fun _ => ret tt) p
    = (extend p check, Resolved tt).
Proof.
  rewrite try_catch_step, bind_step, stat_step.
  destruct (fs_stat env (trace p) (configPathOf env agentId)) as [st|m] eqn:E.
  - destruct (isDirectory st) eqn:Hd.
    + rewrite rmdir_step, extend_extend. simpl.
      match goal with
      | |- context [EvRmdir _ ?r] =>
          exists [EvStat (configPathOf env agentId) (Resolved st);
                  EvRmdir (configPathOf env agentId) r]
      end.
      split; [now apply StaleCheck_directory|].
      destruct (fs_rmdir env _ _) as [[]|?]; reflexivity.
    + exists [EvStat (configPathOf env agentId) (Resolved st)].
      split; [now apply StaleCheck_file | reflexivity].
  - exists [EvStat (configPathOf env agentId) (Rejected m)].
    split; [apply StaleCheck_nothing | reflexivity].
Qed.

Lemma saveAgentConfig_ran
    (env : Env) (yaml : Compose -> string) (agentId : string) (cfg : AgentConfig) (p : Process) :
  exists cs v,
    StageRan env yaml agentId cfg ConfigWrite cs v /\
    saveAgentConfig env agentId cfg p = (extend p cs, settled v (configPathOf env agentId)).
Proof.
  unfold saveAgentConfig. fold (configDirOf env). fold (configPathOf env agentId).
  rewrite bind_step, mkdir_step.
  destruct (fs_mkdir env (trace p) (configDirOf env)) as [[]|m] eqn:E1.
  2:{ eexists [_], (Some m). split; [apply Config_mkdir_failed | reflexivity]. }
  rewrite bind_step.
  destruct (staleCheck_ran env agentId (extend p [EvMkdir (configDirOf env) (Resolved tt)]))
    as (check & Hcheck & ->).
  rewrite extend_extend, bind_step, writeFile_step, extend_extend.
  destruct (fs_writeFile env _ _ _) as [[]|m] eqn:E2.
  2:{ eexists _, (Some m). split; [exact (Config_write_failed env yaml agentId cfg check m Hcheck)|].
      simpl. reflexivity. }
  rewrite bind_step, stat_step, extend_extend.
  destruct (fs_stat env _ _) as [st|m] eqn:E3.
  - eexists _, None. split; [exact (Config_written env yaml agentId cfg check st Hcheck)|].
    simpl. rewrite <- !app_assoc. reflexivity.
  - eexists _, (Some m). split; [exact (Config_size_failed env yaml agentId cfg check m Hcheck)|].
    simpl. rewrite <- !app_assoc. reflexivity.
Qed.

Lemma saveDockerCompose_ran
    (env : Env) (yaml : Compose -> string) (agentId : string) (cfg : AgentConfig) (p : Process) :
  exists cs v,
    StageRan env yaml agentId cfg DescriptorWrite cs v /\
    saveDockerCompose env yaml agentId (generateDockerCompose env agentId cfg) p
      = (extend p cs, settled v (composePathOf env agentId)).
Proof.
  unfold saveDockerCompose. fold (composeDirOf env). fold (composePathOf env agentId).
  rewrite bind_step, mkdir_step.
  destruct (fs_mkdir env (trace p) (composeDirOf env)) as [[]|m] eqn:E1.
  2:{ eexists [_], (Some m). split; [apply Descriptor_mkdir_failed | reflexivity]. }
  rewrite bind_step, writeFile_step, extend_extend.
  destruct (fs_writeFile env _ _ _) as [[]|m] eqn:E2.
  - eexists _, None. split; [apply Descriptor_written | reflexivity].
  - eexists _, (Some m). split; [apply Descriptor_write_failed | reflexivity].
Qed.

Lemma build_ran
    (env : Env) (yaml : Compose -> string) (agentId : string) (cfg : AgentConfig) (p : Process) :
  exists cs v out,
    StageRan env yaml agentId cfg ImageBuild cs v /\
    execAsync env buildCommand (Some (deploymentDir env)) p = (extend p cs, settled v out).
Proof.
  rewrite execAsync_step.
  destruct (child_exec env (trace p) buildCommand (Some (deploymentDir env))) as [out|m].
  - eexists [_], None, out. split; [apply Build_done | reflexivity].
  - eexists [_], (Some m), quiet. split; [apply Build_failed | reflexivity].
Qed.

Lemma up_ran
    (env : Env) (yaml : Compose -> string) (agentId : string) (cfg : AgentConfig) (p : Process) :
  exists cs v out,
    StageRan env yaml agentId cfg BringUp cs v /\
    execAsync env (upCommand env agentId) (Some (path_dirname env (composePathOf env agentId))) p
      = (extend p cs, settled v out).
Proof.
  rewrite execAsync_step.
  destruct (child_exec env (trace p) (upCommand env agentId) _) as [out|m].
  - eexists [_], None, out. split; [apply Up_done | reflexivity].
  - eexists [_], (Some m), quiet. split; [apply Up_failed | reflexivity].
Qed.

Lemma health_ran
    (env : Env) (yaml : Compose -> string) (agentId : string) (cfg : AgentConfig) (p : Process) :
  exists cs result,
    StageRan env yaml agentId cfg HealthWait cs
      (if result : bool then None else Some "Agent failed health check") /\
    waitForHealth env (agentUrlOf agentId) 60 p = (extend p cs, Resolved result).
Proof.
  unfold waitForHealth.
  destruct (waitForHealthWith_run env destructuredExecAsync (agentUrlOf agentId) 60 p)
    as (attempts & result & Hrun & Hnum & Hdiag & Hstop).
  change (Z.to_nat (maxAttemptsOf 60)) with 30%nat in Hstop.
  exists (runEvents (agentUrlOf agentId) attempts), result. split; [|exact Hrun].
  destruct result; [now apply Health_passed | now apply Health_failed].
Qed.

(** The [try] block of [deployAgent] as a gated run of the pipeline: the
    stages run in the order of [pipeline]; a stage runs only when all the
    stages before it completed; the block rejects with the message of the
    stage that failed, the registry untouched, or, when all five stages
    completed, reads the clock, records the entry and resolves. *)
Lemma deployAttempt_stages
    (env : Env) (yaml : Compose -> string) (agentId : string) (cfg : AgentConfig) (p : Process) :
  exists done last p' res,
    deployAttempt env yaml agentId cfg p = (p', res) /\
    map stage (done ++ [last]) = take (length (done ++ [last])) pipeline /\
    Forall (ran env yaml agentId cfg) (done ++ [last]) /\
    Forall (fun s => verdict s = None) done /\
    match verdict last with
    | Some m =>
        res = Rejected m /\ p' = extend p (callsOf (done ++ [last]))
    | None =>
        stage last = HealthWait /\
        exists d,
          res = Resolved (deployed agentId) /\
          p' = {| trace := trace p ++ callsOf (done ++ [last]) ++ [EvNow d];
                  runningAgents :=
                    <[agentId := deployedEntry env agentId d]> (runningAgents p);
                  agents := agents p |}
    end.
Proof.
  remember (deployAttempt env yaml agentId cfg p) as out eqn:E.
  unfold deployAttempt in E. unfold bind at 1 in E.
  destruct (saveAgentConfig_ran env yaml agentId cfg p) as (c1 & v1 & R1 & E1).
  rewrite E1 in E; clear E1.
  destruct v1 as [m|]; simpl settled in E.
  { subst out. exists [], {| stage := ConfigWrite; calls := c1; verdict := Some m |}. eexists _, _.
    split; [reflexivity|]. split; [reflexivity|]. split; [repeat constructor; exact R1|].
    split; [constructor|]. simpl. unfold callsOf. simpl. now rewrite app_nil_r. }
  unfold bind at 1 in E.
  destruct (saveDockerCompose_ran env yaml agentId cfg (extend p c1)) as (c2 & v2 & R2 & E2).
  rewrite E2 in E; clear E2.
  rewrite extend_extend in E.
  destruct v2 as [m|]; simpl settled in E.
  { subst out. exists [{| stage := ConfigWrite; calls := c1; verdict := None |}],
           {| stage := DescriptorWrite; calls := c2; verdict := Some m |}. eexists _, _.
    split; [reflexivity|]. split; [reflexivity|].
    split; [repeat constructor; assumption|].
    split; [repeat constructor|]. simpl. unfold callsOf. simpl. now rewrite app_nil_r. }
  unfold bind at 1 in E.
  destruct (build_ran env yaml agentId cfg (extend p (c1 ++ c2))) as (c3 & v3 & o3 & R3 & E3).
  unfold buildCommand in E3. rewrite E3 in E; clear E3.
  rewrite extend_extend in E.
  destruct v3 as [m|]; simpl settled in E.
  { subst out. exists [{| stage := ConfigWrite; calls := c1; verdict := None |};
            {| stage := DescriptorWrite; calls := c2; verdict := None |}],
           {| stage := ImageBuild; calls := c3; verdict := Some m |}. eexists _, _.
    split; [reflexivity|]. split; [reflexivity|].
    split; [repeat constructor; assumption|].
    split; [repeat constructor|]. simpl. unfold callsOf. simpl.
    now rewrite app_nil_r, <- !app_assoc. }
  unfold bind at 1 in E. fold (upCommand env agentId) in E.
  destruct (up_ran env yaml agentId cfg (extend p ((c1 ++ c2) ++ c3)))
    as (c4 & v4 & o4 & R4 & E4).
  rewrite E4 in E; clear E4.
  rewrite extend_extend in E.
  destruct v4 as [m|]; simpl settled in E.
  { subst out. exists [{| stage := ConfigWrite; calls := c1; verdict := None |};
            {| stage := DescriptorWrite; calls := c2; verdict := None |};
            {| stage := ImageBuild; calls := c3; verdict := None |}],
           {| stage := BringUp; calls := c4; verdict := Some m |}. eexists _, _.
    split; [reflexivity|]. split; [reflexivity|].
    split; [repeat constructor; assumption|].
    split; [repeat constructor|]. simpl. unfold callsOf. simpl.
    now rewrite app_nil_r, <- !app_assoc. }
  cbv zeta in E. fold (agentUrlOf agentId) in E. unfold bind at 1 in E.
  destruct (health_ran env yaml agentId cfg (extend p (((c1 ++ c2) ++ c3) ++ c4)))
    as (c5 & result & R5 & E5).
  rewrite E5 in E; clear E5.
  rewrite extend_extend in E.
  destruct result.
  - subst out. exists [{| stage := ConfigWrite; calls := c1; verdict := None |};
            {| stage := DescriptorWrite; calls := c2; verdict := None |};
            {| stage := ImageBuild; calls := c3; verdict := None |};
            {| stage := BringUp; calls := c4; verdict := None |}],
           {| stage := HealthWait; calls := c5; verdict := None |}. eexists _, _.
    split; [reflexivity|]. split; [reflexivity|].
    split; [repeat constructor; assumption|].
    split; [repeat constructor|]. simpl. split; [reflexivity|].
    eexists. split; [reflexivity|].
    unfold callsOf, extend. simpl. rewrite app_nil_r, <- !app_assoc. reflexivity.
  - subst out. exists [{| stage := ConfigWrite; calls := c1; verdict := None |};
            {| stage := DescriptorWrite; calls := c2; verdict := None |};
            {| stage := ImageBuild; calls := c3; verdict := None |};
            {| stage := BringUp; calls := c4; verdict := None |}],
           {| stage := HealthWait; calls := c5;
              verdict := Some "Agent failed health check" |}. eexists _, _.
    split; [reflexivity|]. split; [reflexivity|].
    split; [repeat constructor; assumption|].
    split; [repeat constructor|]. simpl. unfold callsOf. simpl.
    now rewrite app_nil_r, <- !app_assoc.
Qed.

(** [deployAgent] case by case: either a stage failed, and the outcome is
    that of the cleanup run in the state the failure left, with the failure
    result carrying the message of the stage; or every stage completed, and
    the entry is recorded. *)
Lemma deployAgent_cases
    (env : Env) (yaml : Compose -> string) (agentId : string) (cfg : AgentConfig) (p : Process) :
  exists done last,
    map stage (done ++ [last]) = take (length (done ++ [last])) pipeline /\
    Forall (ran env yaml agentId cfg) (done ++ [last]) /\
    Forall (fun s => verdict s = None) done /\
    match verdict last with
    | Some m =>
        deployAttempt env yaml agentId cfg p
          = (extend p (callsOf (done ++ [last])), Rejected m) /\
        exists p' r2,
          stopAgent env agentId (extend p (callsOf (done ++ [last]))) = (p', Resolved r2) /\
          deployAgent env yaml agentId cfg p = (p', Resolved (deployFailure agentId m))
    | None =>
        stage last = HealthWait /\
        exists d,
          deployAgent env yaml agentId cfg p
            = ({| trace := trace p ++ callsOf (done ++ [last]) ++ [EvNow d];
                  runningAgents :=
                    <[agentId := deployedEntry env agentId d]> (runningAgents p);
                  agents := agents p |},
               Resolved (deployed agentId))
    end.
Proof.
  destruct (deployAttempt_stages env yaml agentId cfg p)
    as (done & last & p' & res & E & Hord & Hran & Hdone & Hlast).
  exists done, last. split; [exact Hord|]. split; [exact Hran|]. split; [exact Hdone|].
  unfold deployAgent. rewrite try_catch_step, E.
  destruct (verdict last) as [m|].
  - destruct Hlast as [-> ->]. split; [reflexivity|].
    destruct (stopAgent_resolves env agentId (extend p (callsOf (done ++ [last]))))
      as (p2 & r2 & E2).
    exists p2, r2. split; [exact E2|].
    unfold bind. rewrite E2. reflexivity.
  - destruct Hlast as (Hst & d & -> & ->). split; [exact Hst|]. now exists d.
Qed.



(** A health check that never passes on a fresh registry: the failure is
    reported with the message of the pipeline; the cleanup finds no entry
    and issues no tear-down command. *)
Example failed_health_check_on_fresh_registry :
  snd (deployAgent refusing sampleYaml "a1" sampleConfig initial)
    = Resolved (deployFailure "a1" "Agent failed health check") /\
  runningAgents (fst (deployAgent refusing sampleYaml "a1" sampleConfig initial)) = ∅ /\
  existsb (fun e => match e with
                    | EvExec command _ _ => Js.includes " down" command
                    | _ => false
                    end)
          (trace (fst (deployAgent refusing sampleYaml "a1" sampleConfig initial))) = false.
Proof. repeat split; vm_compute; reflexivity. Qed.

(** The scenario of the design document: the build fails on a fresh
    registry; the failure is reported and no entry is left. *)
Example failed_build_on_fresh_registry :
  deployAgent unbuildable sampleYaml "a1" sampleConfig initial =
    (extend initial
       [EvMkdir "/srv/backend/../agent-configs" (Resolved tt);
        EvStat "/srv/backend/../agent-configs/a1.json"
          (Resolved {| isDirectory := false; size := 2 |});
        EvWriteFile "/srv/backend/../agent-configs/a1.json" "{}" (Resolved tt);
        EvStat "/srv/backend/../agent-configs/a1.json"
          (Resolved {| isDirectory := false; size := 2 |});
        EvMkdir "/srv/backend/../deployments" (Resolved tt);
        EvWriteFile "/srv/backend/../deployments/a1-compose.yml" "services:" (Resolved tt);
        EvExec "docker build -t superior-agent-runtime ."
          (Some "/srv/backend/../runtime-agent") (Rejected "build failed")],
     Resolved (deployFailure "a1" "build failed")).
Proof. vm_compute. reflexivity. Qed.

(** C4 (as amended). The [try] block of [deployAgent] runs its stages one
    after the other in the order: write the configuration, write the
    descriptor, build the image, bring the descriptor up, wait for health.
    The stages that ran are an initial part of that list, every stage but
    the last one that ran completed, and the calls made are exactly the
    calls of those stages, followed by one reading of the clock when all of
    them completed. *)
Theorem deploy_stages_run_in_order_and_gate
    (env : Env) (yaml : Compose -> string) (agentId : string) (cfg : AgentConfig) (p : Process) :
  exists done last p' res,
    deployAttempt env yaml agentId cfg p = (p', res) /\
    map stage (done ++ [last])
      = take (length (done ++ [last]))
             [ConfigWrite; DescriptorWrite; ImageBuild; BringUp; HealthWait] /\
    Forall (ran env yaml agentId cfg) (done ++ [last]) /\
    Forall (fun s => verdict s = None) done /\
    match verdict last with
    | Some m =>
        res = Rejected m /\
        trace p' = (trace p ++ callsOf (done ++ [last]))%list
    | None =>
        stage last = HealthWait /\
        exists d,
          res = Resolved (deployed agentId) /\
          trace p' = (trace p ++ callsOf (done ++ [last]) ++ [EvNow d])%list
    end.
Proof.
  destruct (deployAttempt_stages env yaml agentId cfg p)
    as (done & last & p' & res & E & Hord & Hran & Hdone & Hlast).
  exists done, last, p', res. split; [exact E|]. split; [exact Hord|].
  split; [exact Hran|]. split; [exact Hdone|].
  destruct (verdict last) as [m|].
  - destruct Hlast as [-> ->]. split; reflexivity.
  - destruct Hlast as (Hst & d & -> & ->). split; [exact Hst|]. exists d. split; reflexivity.
Qed.

(** C4, as stated, fails: in a fully successful deployment the descriptor is
    written (sixth call) before the image is built (seventh call), not
    after it. *)
Lemma descriptor_is_written_before_the_build :
  trace (fst (deployAgent sunny sampleYaml "a1" sampleConfig initial)) =
    [EvMkdir "/srv/backend/../agent-configs" (Resolved tt);
     EvStat "/srv/backend/../agent-configs/a1.json"
       (Resolved {| isDirectory := false; size := 2 |});
     EvWriteFile "/srv/backend/../agent-configs/a1.json" "{}" (Resolved tt);
     EvStat "/srv/backend/../agent-configs/a1.json"
       (Resolved {| isDirectory := false; size := 2 |});
     EvMkdir "/srv/backend/../deployments" (Resolved tt);
     EvWriteFile "/srv/backend/../deployments/a1-compose.yml" "services:" (Resolved tt);
     EvExec "docker build -t superior-agent-runtime ."
       (Some "/srv/backend/../runtime-agent") (Resolved quiet);
     EvExec "docker-compose -f /srv/backend/../deployments/a1-compose.yml up -d"
       (Some "/srv/backend/../deployments") (Resolved quiet);
     EvFetch "http://localhost:3261/health" healthy;
     EvNow "2025-01-01T00:00:9Z"] /\
  buildsBeforeDescriptor (composePathOf sunny "a1") false
    (trace (fst (deployAgent sunny sampleYaml "a1" sampleConfig initial))) = false.
Proof. split; vm_compute; reflexivity. Qed.

(* ===================================================================== *)
(** * The registry invariant *)
(* ===================================================================== *)

Lemma health_passed_has_success
    (env : Env) (yaml : Compose -> string) (agentId : string) (cfg : AgentConfig)
    (cs : list Event) :
  StageRan env yaml agentId cfg HealthWait cs None ->
  exists r, In (EvFetch (agentUrlOf agentId ++ "/health") r) cs /\ succeeded r = true.
Proof.
  intros H. inversion H as [| | | | | | | | | | | |attempts Hnum Hdiag Hstop]; subst.
  destruct Hstop as (failed & last & -> & _ & Hl & _).
  exists (outcome last). split; [|exact Hl].
  unfold runEvents. rewrite map_app, concat_app. apply in_or_app. right.
  simpl. now left.
Qed.

(** What one operation does to the trace and to the registry. *)
Lemma stop_effect (env : Env) (agentId : string) (p : Process) :
  exists evs,
    trace (fst (stopAgent env agentId p)) = (trace p ++ evs)%list /\
    (runningAgents (fst (stopAgent env agentId p)) = runningAgents p /\
     snd (stopAgent env agentId p) <> Resolved (stopped agentId)
     \/ runningAgents (fst (stopAgent env agentId p)) = delete agentId (runningAgents p) /\
        snd (stopAgent env agentId p) = Resolved (stopped agentId)).
Proof.
  destruct (runningAgents p !! agentId) as [agent|] eqn:H.
  - destruct (stopAgent_registered env agentId p agent H)
      as (p' & r & evs & E & Ht & _ & [(m & _ & -> & Hreg) | (_ & -> & Hreg)]);
      rewrite E; simpl; exists evs; (split; [exact Ht|]).
    + left. split; [exact Hreg | discriminate].
    + right. split; [exact Hreg | reflexivity].
  - rewrite (stopAgent_unregistered_is_noop env agentId p H). simpl.
    exists []. split; [now rewrite app_nil_r|]. left. split; [reflexivity | discriminate].
Qed.

(** [getAgentStatus] only reads the registry. *)
Lemma getAgentStatus_state (env : Env) (agentId : string) (p : Process) :
  exists evs, fst (getAgentStatus env agentId p) = extend p evs.
Proof.
  unfold getAgentStatus, bind, readRegistry, try_catch, fetch, bind,
    readTrace, emit, settle, ret. simpl.
  destruct (runningAgents p !! agentId) as [agent|]; [|exists []; now rewrite extend_nil].
  destruct (node_fetch env (trace p) (Deployment.url agent ++ "/health")) as [resp|m]; simpl.
  - destruct (ok resp); simpl; [destruct (text resp)|]; simpl; eexists [_]; reflexivity.
  - eexists [_]; reflexivity.
Qed.

Lemma getAgentStatus_effect (env : Env) (agentId : string) (p : Process) :
  exists evs,
    trace (fst (getAgentStatus env agentId p)) = (trace p ++ evs)%list /\
    runningAgents (fst (getAgentStatus env agentId p)) = runningAgents p.
Proof.
  destruct (getAgentStatus_state env agentId p) as (evs & ->).
  exists evs. split; reflexivity.
Qed.

Lemma perform_effect (env : Env) (yaml : Compose -> string) (op : Op) (p : Process) :
  exists evs,
    trace (perform env yaml op p) = (trace p ++ evs)%list /\
    (runningAgents (perform env yaml op p) = runningAgents p
     \/ (runningAgents (perform env yaml op p) = delete (target op) (runningAgents p) /\
         exists p1,
           stopAgent env (target op) p1
             = (perform env yaml op p, Resolved (stopped (target op))))
     \/ (exists cfg d r,
           op = Deploy (target op) cfg /\
           snd (deployAgent env yaml (target op) cfg p) = Resolved (deployed (target op)) /\
           runningAgents (perform env yaml op p)
             = <[target op := deployedEntry env (target op) d]> (runningAgents p) /\
           In (EvNow d) evs /\
           In (EvFetch (agentUrlOf (target op) ++ "/health") r) evs /\
           succeeded r = true)).
Proof.
  destruct op as [agentId cfg | agentId | agentId]; simpl.
  - destruct (deployAgent_cases env yaml agentId cfg p)
      as (done & last & _ & Hran & _ & Hlast).
    destruct (verdict last) as [m|] eqn:Hv.
    + destruct Hlast as (_ & p' & r2 & Estop & ->). simpl.
      destruct (stop_effect env agentId (extend p (callsOf (done ++ [last]))))
        as (evs & Ht & Hreg).
      rewrite Estop in Ht, Hreg. simpl in Ht, Hreg.
      exists (callsOf (done ++ [last]) ++ evs)%list.
      split; [now rewrite Ht, app_assoc|].
      destruct Hreg as [[Hsame _] | [Hdel Hr]].
      * now left.
      * right. left. split; [exact Hdel|].
        exists (extend p (callsOf (done ++ [last]))). rewrite Estop. now inversion Hr.
    + destruct Hlast as (Hst & d & Edeploy). rewrite Edeploy. simpl.
      exists (callsOf (done ++ [last]) ++ [EvNow d])%list. split; [reflexivity|].
      right. right.
      assert (Hlastran : StageRan env yaml agentId cfg HealthWait (calls last) None).
      { rewrite Forall_app in Hran. destruct Hran as [_ Hl].
        inversion Hl; subst. unfold ran in *. now rewrite Hst, Hv in *. }
      destruct (health_passed_has_success _ _ _ _ _ Hlastran) as (r & Hin & Hs).
      exists cfg, d, r. split; [reflexivity|]. split; [now rewrite Edeploy|].
      split; [reflexivity|]. split; [apply in_or_app; right; now left|].
      split; [|exact Hs].
      apply in_or_app. left. unfold callsOf. rewrite map_app, concat_app.
      apply in_or_app. right. simpl. rewrite app_nil_r. exact Hin.
  - destruct (stop_effect env agentId p) as (evs & Ht & Hreg).
    exists evs. split; [exact Ht|].
    destruct Hreg as [[Hsame _] | [Hdel Hr]].
    + now left.
    + right. left. split; [exact Hdel|]. exists p.
      rewrite <- Hr. apply surjective_pairing.
  - destruct (getAgentStatus_effect env agentId p) as (evs & Ht & Hreg).
    exists evs. split; [exact Ht|]. now left.
Qed.




(* ===================================================================== *)
(** * Stop and pause *)
(* ===================================================================== *)

Lemma stopAgent_keeps_agents (env : Env) (agentId : string) (p : Process) :
  exists p1 r, stopAgent env agentId p = (p1, Resolved r) /\ agents p1 = agents p.
Proof.
  destruct (runningAgents p !! agentId) as [agent|] eqn:H.
  - destruct (stopAgent_registered env agentId p agent H) as (p1 & r & _ & E & _ & Ha & _).
    eauto.
  - rewrite (stopAgent_unregistered_is_noop env agentId p H). eauto.
Qed.

Lemma saveAgents_step (env : Env) (agentsJson : gmap string Agent.t -> string) (p : Process) :
  saveAgents env agentsJson p =
    (extend p [EvWriteFile (agentsDbPath env) (agentsJson (agents p))
                 (fs_writeFile env (trace p) (agentsDbPath env) (agentsJson (agents p)))],
     Resolved tt).
Proof.
  unfold saveAgents. rewrite try_catch_step. unfold bind, readAgents.
  rewrite writeFile_step.
  destruct (fs_writeFile env (trace p) (agentsDbPath env) (agentsJson (agents p))) as [[]|m];
    reflexivity.
Qed.

Lemma stopRoute_cases
    (env : Env) (agentsJson : gmap string Agent.t -> string) (id : string)
    (p p1 : Process) (agent : Agent.t) (r : Result.t) :
  agents p !! id = Some agent ->
  stopAgent env id p = (p1, Resolved r) ->
  stopRoute env agentsJson id p =
    if Result.success r
    then (afterTearDown env agentsJson id (fun t1 t2 => markStopped t1 t2 agent) p1,
          Resolved (okAnswer "Agent stopped successfully" id "stopped"))
    else (p1, Resolved (errorAnswer 500 "Failed to stop agent" (Result.error r))).
Proof.
  intros Hagent Estop.
  unfold stopRoute. rewrite try_catch_step.
  unfold bind at 1. unfold readAgents at 1. rewrite Hagent.
  unfold bind at 1. rewrite Estop.
  destruct (Result.success r); [|reflexivity].
  unfold bind at 1. rewrite now_step.
  unfold bind at 1. rewrite now_step.
  unfold bind at 1. unfold readAgents at 1.
  unfold bind at 1. unfold writeAgents at 1.
  unfold bind. rewrite saveAgents_step.
  unfold afterTearDown, extend, ret. simpl. rewrite <- !app_assoc. reflexivity.
Qed.

Lemma pauseRoute_cases
    (env : Env) (agentsJson : gmap string Agent.t -> string) (id : string)
    (p p1 : Process) (agent : Agent.t) (r : Result.t) :
  agents p !! id = Some agent ->
  stopAgent env id p = (p1, Resolved r) ->
  pauseRoute env agentsJson id p =
    if Result.success r
    then (afterTearDown env agentsJson id (fun t1 t2 => markPaused t1 t2 agent) p1,
          Resolved (okAnswer "Agent paused successfully" id "paused"))
    else (p1, Resolved (errorAnswer 500 "Failed to pause agent" (Result.error r))).
Proof.
  intros Hagent Estop.
  unfold pauseRoute. rewrite try_catch_step.
  unfold bind at 1. unfold readAgents at 1. rewrite Hagent.
  unfold bind at 1. rewrite Estop.
  destruct (Result.success r); [|reflexivity].
  unfold bind at 1. rewrite now_step.
  unfold bind at 1. rewrite now_step.
  unfold bind at 1. unfold readAgents at 1.
  unfold bind at 1. unfold writeAgents at 1.
  unfold bind. rewrite saveAgents_step.
  unfold afterTearDown, extend, ret. simpl. rewrite <- !app_assoc. reflexivity.
Qed.

(** C6 (as amended). The stop and the pause route run the same tear-down
    [stopAgent]. When it fails, both answer 500 with its error and leave
    the agent record alone. When it succeeds, both clear [containerUrl] and
    set [updatedAt]; the records they leave differ only in the status label
    ([stopped] or [paused]) and in the time stamp they set ([stoppedAt] or
    [pausedAt]). *)
Theorem stop_and_pause_differ_in_label_and_timestamp
    (env : Env) (agentsJson : gmap string Agent.t -> string) (id : string)
    (p : Process) (agent : Agent.t) :
  agents p !! id = Some agent ->
  exists p1 r,
    stopAgent env id p = (p1, Resolved r) /\
    agents p1 = agents p /\
    if Result.success r then
      exists t1 t2 pS pP aS aP,
        stopRoute env agentsJson id p
          = (pS, Resolved (okAnswer "Agent stopped successfully" id "stopped")) /\
        pauseRoute env agentsJson id p
          = (pP, Resolved (okAnswer "Agent paused successfully" id "paused")) /\
        runningAgents pS = runningAgents p1 /\
        runningAgents pP = runningAgents p1 /\
        agents pS = <[id := aS]> (agents p) /\
        agents pP = <[id := aP]> (agents p) /\
        Agent.containerUrl aS = None /\
        Agent.containerUrl aP = None /\
        Agent.status aS = "stopped" /\
        Agent.status aP = "paused" /\
        Agent.stoppedAt aS = Some t1 /\
        Agent.pausedAt aP = Some t1 /\
        Agent.pausedAt aS = Agent.pausedAt agent /\
        Agent.stoppedAt aP = Agent.stoppedAt agent /\
        Agent.updatedAt aS = t2 /\
        Agent.updatedAt aP = t2 /\
        Agent.name aS = Agent.name agent /\
        Agent.name aP = Agent.name agent /\
        Agent.superiorAgentConfig aS = Agent.superiorAgentConfig agent /\
        Agent.superiorAgentConfig aP = Agent.superiorAgentConfig agent /\
        Agent.deployedAt aS = Agent.deployedAt agent /\
        Agent.deployedAt aP = Agent.deployedAt agent /\
        Agent.error aS = Agent.error agent /\
        Agent.error aP = Agent.error agent
    else
      stopRoute env agentsJson id p
        = (p1, Resolved (errorAnswer 500 "Failed to stop agent" (Result.error r))) /\
      pauseRoute env agentsJson id p
        = (p1, Resolved (errorAnswer 500 "Failed to pause agent" (Result.error r))).
Proof.
  intros Hagent.
  destruct (stopAgent_keeps_agents env id p) as (p1 & r & Estop & Hagents).
  exists p1, r. split; [exact Estop|]. split; [exact Hagents|].
  rewrite (stopRoute_cases env agentsJson id p p1 agent r Hagent Estop).
  rewrite (pauseRoute_cases env agentsJson id p p1 agent r Hagent Estop).
  destruct (Result.success r); [|split; reflexivity].
  exists (date_now env (trace p1)),
         (date_now env (trace p1 ++ [EvNow (date_now env (trace p1))])).
  eexists _, _, _, _.
  split; [reflexivity|]. split; [reflexivity|].
  unfold afterTearDown. simpl. rewrite Hagents.
  split; [reflexivity|]. split; [reflexivity|].
  split; [reflexivity|]. split; [reflexivity|].
  repeat split.
Qed.

Lemma stop_and_pause_differ_in_label_and_timestamp_witness :
  agents a1Serving !! "a1" = Some a1Record /\
  exists p1 r,
    stopAgent sunny "a1" a1Serving = (p1, Resolved r) /\
    agents p1 = agents a1Serving.
Proof.
  assert (H : agents a1Serving !! "a1" = Some a1Record) by (vm_compute; reflexivity).
  split; [exact H|].
  destruct (stop_and_pause_differ_in_label_and_timestamp
              sunny sampleAgentsJson "a1" a1Serving a1Record H)
    as (p1 & r & Estop & Ha & _).
  exists p1, r. split; assumption.
Defined.

(** Stopping and pausing the serving agent [a1] in the sunny world. *)
Example stop_and_pause_a1 :
  agents (fst (stopRoute sunny sampleAgentsJson "a1" a1Serving)) !! "a1"
    = Some (markStopped "2025-01-01T00:00:12Z" "2025-01-01T00:00:13Z" a1Record) /\
  agents (fst (pauseRoute sunny sampleAgentsJson "a1" a1Serving)) !! "a1"
    = Some (markPaused "2025-01-01T00:00:12Z" "2025-01-01T00:00:13Z" a1Record) /\
  runningAgents (fst (stopRoute sunny sampleAgentsJson "a1" a1Serving)) = ∅ /\
  runningAgents (fst (pauseRoute sunny sampleAgentsJson "a1" a1Serving)) = ∅.
Proof. repeat split; vm_compute; reflexivity. Qed.

(** C6, as stated, fails: the pause route clears [containerUrl] just as the
    stop route does. *)
Lemma pause_clears_containerUrl :
  Agent.containerUrl <$> (agents a1Serving !! "a1") = Some (Some "http://localhost:3261") /\
  snd (pauseRoute sunny sampleAgentsJson "a1" a1Serving)
    = Resolved (okAnswer "Agent paused successfully" "a1" "paused") /\
  Agent.containerUrl <$> (agents (fst (pauseRoute sunny sampleAgentsJson "a1" a1Serving)) !! "a1")
    = Some None.
Proof. repeat split; vm_compute; reflexivity. Qed.

(* ===================================================================== *)
(** * Follow-mode log streaming *)
(* ===================================================================== *)

Lemma armed_after_setup r : armed (LogStream.step LogStream.start (LogStream.InitialLogsSettled r)).
Proof. destruct r; repeat split; simpl; discriminate. Qed.

Lemma armed_step s i : armed s -> armed (LogStream.step s i).
Proof.
  intros H. pose proof H as (Hl & Hp & Hc).
  destruct i as [r| |data|data|]; simpl.
  - destruct (LogStream.followProcess s) eqn:E; [congruence | exact H ..].
  - destruct (LogStream.requestClosed s) eqn:E; [exact H|].
    unfold armed. simpl. rewrite Hl. split; [reflexivity|].
    destruct (LogStream.followProcess s); split; try congruence; intros _; discriminate.
  - destruct (LogStream.followProcess s); exact H.
  - destruct (LogStream.followProcess s); exact H.
  - destruct (LogStream.followProcess s) eqn:E; try exact H;
      unfold armed; simpl; (split; [exact Hl|]); split; discriminate.
Qed.

Lemma armed_steps inputs s : armed s -> armed (fold_left LogStream.step inputs s).
Proof.
  revert s. induction inputs as [|i rest IH]; intros s H; simpl; [exact H|].
  apply IH, armed_step, H.
Qed.

Lemma closed_stays_closed inputs s :
  LogStream.requestClosed s = true ->
  LogStream.requestClosed (fold_left LogStream.step inputs s) = true.
Proof.
  revert s. induction inputs as [|i rest IH]; intros s H; simpl; [exact H|].
  apply IH. destruct i as [r| |data|data|]; simpl.
  - destruct (LogStream.followProcess s); [destruct r|..]; exact H.
  - now rewrite H.
  - destruct (LogStream.followProcess s); exact H.
  - destruct (LogStream.followProcess s); exact H.
  - destruct (LogStream.followProcess s); exact H.
Qed.

(** When the consumer disconnects after the route has set the stream up,
    whatever happened in between and whatever happens later, the follow
    subprocess is not running any more. *)
Lemma disconnect_after_setup_terminates_the_follower r before later :
  LogStream.followProcess
    (LogStream.run (LogStream.InitialLogsSettled r
                      :: before ++ LogStream.RequestClose :: later))
    <> LogStream.Running.
Proof.
  unfold LogStream.run. simpl fold_left. rewrite fold_left_app. simpl fold_left.
  set (s1 := fold_left LogStream.step before _).
  assert (H1 : armed s1) by (apply armed_steps, armed_after_setup).
  set (s2 := LogStream.step s1 LogStream.RequestClose).
  assert (H2 : armed s2) by (apply armed_step, H1).
  assert (Hc : LogStream.requestClosed s2 = true).
  { unfold s2. simpl. destruct (LogStream.requestClosed s1) eqn:E; [exact E | reflexivity]. }
  destruct (armed_steps later s2 H2) as (_ & _ & Hfinal).
  apply Hfinal, closed_stays_closed, Hc.
Qed.

Lemma leaked_stays_running inputs s :
  LogStream.requestClosed s = true ->
  LogStream.followProcess s = LogStream.Running ->
  Forall (fun i => i <> LogStream.ProcessClose) inputs ->
  LogStream.followProcess (fold_left LogStream.step inputs s) = LogStream.Running.
Proof.
  revert s. induction inputs as [|i rest IH]; intros s Hc Hr Hall; simpl; [exact Hr|].
  inversion Hall as [|? ? Hi Hrest]; subst.
  apply IH; [| |exact Hrest]; destruct i as [r| |data|data|]; simpl;
    rewrite ?Hc, ?Hr; simpl; try assumption; try reflexivity; congruence.
Qed.

(** C7 at its failing input. The consumer disconnects while the initial logs
    are still awaited: the close event finds no listener; the route then
    spawns the follow subprocess and registers the listener too late. The
    request is closed and the subprocess runs, and nothing the server does
    afterwards terminates it: it keeps running until its own output ends. *)
Theorem early_disconnect_leaks_the_follower :
  let s := LogStream.run [LogStream.RequestClose;
                          LogStream.InitialLogsSettled (Resolved quiet)] in
  LogStream.requestClosed s = true /\
  LogStream.followProcess s = LogStream.Running /\
  forall later,
    Forall (fun i => i <> LogStream.ProcessClose) later ->
    LogStream.followProcess (fold_left LogStream.step later s) = LogStream.Running.
Proof.
  cbv zeta. split; [reflexivity|]. split; [reflexivity|].
  intros later Hall. now apply leaked_stays_running.
Qed.

(* ===================================================================== *)
(** * Further properties of the deployment manager *)
(* ===================================================================== *)

(** X1. [getAgentStatus] never rejects and never writes. Without a registry
    entry it makes no call and reports [not_running]. With an entry it sends
    exactly one probe, to the URL of the entry, and reports [healthy] with
    the body when the probe succeeded, [unhealthy] when it came back with a
    non-success status, and [unreachable] with the message when it threw. *)
Theorem getAgentStatus_classifies (env : Env) (agentId : string) (p : Process) :
  exists p' report,
    getAgentStatus env agentId p = (p', Resolved report) /\
    runningAgents p' = runningAgents p /\
    agents p' = agents p /\
    match runningAgents p !! agentId with
    | None => p' = p /\ report = notRunning
    | Some agent =>
        exists r,
          trace p' = (trace p ++ [EvFetch (Deployment.url agent ++ "/health") r])%list /\
          StatusReport.url report = Some (Deployment.url agent) /\
          StatusReport.deployedAt report = Some (Deployment.deployedAt agent) /\
          StatusReport.health report = delivered r /\
          StatusReport.error report = thrown r /\
          StatusReport.status report =
            (if succeeded r then "healthy"
             else if threw r then "unreachable"
             else "unhealthy")
    end.
Proof.
  unfold getAgentStatus, bind, readRegistry, try_catch, fetch, bind,
    readTrace, emit, settle, ret. simpl.
  destruct (runningAgents p !! agentId) as [agent|].
  - destruct (node_fetch env (trace p) (Deployment.url agent ++ "/health"))
      as [resp|m] eqn:E; simpl.
    + destruct (ok resp) eqn:Hok; simpl.
      * destruct (text resp) as [body|m] eqn:Ht; simpl;
          eexists _, _; (split; [reflexivity|]); simpl;
          (split; [reflexivity|]); (split; [reflexivity|]);
          exists (Resolved resp); simpl; rewrite Hok, Ht; simpl; repeat split.
      * eexists _, _; (split; [reflexivity|]); simpl;
          (split; [reflexivity|]); (split; [reflexivity|]);
          exists (Resolved resp); simpl; rewrite Hok; simpl; repeat split.
    + eexists _, _; (split; [reflexivity|]); simpl;
        (split; [reflexivity|]); (split; [reflexivity|]);
        exists (Rejected m); simpl; repeat split.
  - exists p, notRunning. repeat split.
Qed.






(** X3. With a time-out below two seconds the budget is zero attempts:
    [waitForHealth] returns [false] at once, without a probe or any other
    call. *)
Theorem waitForHealth_without_budget
    (env : Env) (url : string) (timeoutSeconds : Z) (p : Process) :
  timeoutSeconds < 2 ->
  waitForHealth env url timeoutSeconds p = (p, Resolved false).
Proof.
  intros H. unfold waitForHealth, waitForHealthWith, maxAttemptsOf.
  assert (Hq : timeoutSeconds * 1000 / 2000 < 1)
    by (apply Z.div_lt_upper_bound; lia).
  replace (Z.to_nat (timeoutSeconds * 1000 / 2000)) with 0%nat by lia.
  reflexivity.
Qed.

Lemma waitForHealth_without_budget_witness :
  1 < 2 /\ waitForHealth sunny "http://localhost:3261" 1 initial = (initial, Resolved false).
Proof.
  assert (H : 1 < 2) by lia.
  split; [exact H | exact (waitForHealth_without_budget sunny "http://localhost:3261" 1 initial H)].
Defined.

Lemma commands_app a b : commands (a ++ b) = (commands a ++ commands b)%list.
Proof.
  induction a as [|e a IH]; simpl; [reflexivity|].
  destruct e; simpl; now rewrite ?IH.
Qed.

Lemma commands_health url attempts :
  Forall (diagnosticsAsDesigned destructuredExecAsync url) attempts ->
  commands (runEvents url attempts) = [].
Proof.
  unfold runEvents. induction 1 as [|a rest Ha _ IH]; simpl; [reflexivity|].
  rewrite !commands_app, IH.
  unfold diagnosticsAsDesigned, isDiagnostics, destructuredExecAsync in Ha.
  destruct (threw (outcome a) && (Z.rem (number a) 5 =? 0)%Z); rewrite Ha; simpl;
    destruct (succeeded (outcome a)); reflexivity.
Qed.

Lemma commands_stage env yaml agentId cfg st cs v :
  StageRan env yaml agentId cfg st cs v -> commands cs = stageCommands env agentId st.
Proof.
  assert (Hcheck : forall check, StaleCheck env agentId check -> commands check = [])
    by (intros check H; destruct H; reflexivity).
  intros H. destruct H; simpl; rewrite ?commands_app, ?Hcheck by assumption;
    try reflexivity; now apply commands_health.
Qed.

Lemma commands_callsOf env yaml agentId cfg runs :
  Forall (ran env yaml agentId cfg) runs ->
  commands (callsOf runs) = concat (map (stageCommands env agentId) (map stage runs)).
Proof.
  unfold callsOf. induction 1 as [|s rest Hs _ IH]; simpl; [reflexivity|].
  rewrite commands_app, IH. f_equal. exact (commands_stage _ _ _ _ _ _ _ Hs).
Qed.

(** The commands of the stages that ran: none before the build, then the
    build, then the bring-up. *)
Lemma commands_of_pipeline env yaml agentId cfg runs :
  Forall (ran env yaml agentId cfg) runs ->
  map stage runs = take (length runs) pipeline ->
  commands (callsOf runs)
    = take (length runs - 2)
        [(buildCommand, Some (deploymentDir env));
         (upCommand env agentId, Some (path_dirname env (composePathOf env agentId)))].
Proof.
  intros Hran Hord. rewrite (commands_callsOf _ _ _ _ _ Hran).
  remember (length runs) as n eqn:Hn. rewrite Hord. clear.
  destruct n as [|[|[|[|[|[|?]]]]]]; reflexivity.
Qed.

(** When the last stage that ran is the health wait, all five stages ran. *)
Lemma all_stages_ran (done : list StageRun) (last : StageRun) :
  map stage (done ++ [last]) = take (length (done ++ [last])) pipeline ->
  stage last = HealthWait ->
  length (done ++ [last]) = 5%nat.
Proof.
  intros Hord Hst.
  destruct done as [|a [|b [|c [|d [|e rest]]]]]; simpl in *;
    try reflexivity; inversion Hord; try congruence.
  destruct rest; discriminate.
Qed.

(** X4. The shell commands of [deployAgent]. A deployment issues the image
    build and then the bring-up of the agent's descriptor, or fewer of them
    when an earlier stage fails. A successful one issues exactly these two
    and never a tear-down, also when the agent was registered already. A
    failed one adds at most one command: the tear-down of the descriptor of
    the entry the registry held before the call. *)
Theorem deployAgent_commands
    (env : Env) (yaml : Compose -> string) (agentId : string) (cfg : AgentConfig) (p : Process) :
  exists p' r evs n cleanup,
    deployAgent env yaml agentId cfg p = (p', Resolved r) /\
    trace p' = (trace p ++ evs)%list /\
    commands evs
      = (take n [("docker build -t superior-agent-runtime .", Some (deploymentDir env));
                 (("docker-compose -f " ++ composePathOf env agentId ++ " up -d")%string,
                  Some (path_dirname env (composePathOf env agentId)))]
         ++ cleanup)%list /\
    (Result.success r = true -> (2 <= n)%nat /\ cleanup = []) /\
    (cleanup = [] \/
     exists agent,
       Result.success r = false /\
       runningAgents p !! agentId = Some agent /\
       cleanup = [("docker-compose -f " ++ Deployment.composePath agent ++ " down", None)]).
Proof.
  destruct (deployAgent_cases env yaml agentId cfg p)
    as (done & last & Hord & Hran & _ & Hlast).
  pose proof (commands_of_pipeline _ _ _ _ _ Hran Hord) as Hcmd.
  destruct (verdict last) as [m|] eqn:Hv.
  - destruct Hlast as (_ & p' & r2 & Estop & Edeploy).
    set (p1 := extend p (callsOf (done ++ [last]))) in *.
    destruct (runningAgents p !! agentId) as [agent|] eqn:Hreg.
    + destruct (stopAgent_registered env agentId p1 agent Hreg)
        as (q & r & evs & E & Ht & _ & Hcases).
      rewrite Estop in E. inversion E; subst q r. clear E.
      exists p', (deployFailure agentId m), (callsOf (done ++ [last]) ++ evs)%list,
             (length (done ++ [last]) - 2)%nat, (commands evs).
      split; [exact Edeploy|]. split; [rewrite Ht; unfold p1; simpl; now rewrite app_assoc|].
      split; [now rewrite commands_app, Hcmd|]. split; [discriminate|].
      destruct Hcases as [(m' & Hthrew & _) | (Hclean & _)].
      * right. exists agent. unfold tearDownThrew in Hthrew. subst evs. now repeat split.
      * destruct Hclean as [[-> _] | [[? ->] | [? ->]]]; [now left | now left |].
        right. exists agent. now repeat split.
    + rewrite (stopAgent_unregistered_is_noop env agentId p1 Hreg) in Estop.
      inversion Estop; subst p' r2.
      exists p1, (deployFailure agentId m), (callsOf (done ++ [last])),
             (length (done ++ [last]) - 2)%nat, [].
      split; [exact Edeploy|]. split; [reflexivity|].
      split; [now rewrite app_nil_r|]. split; [discriminate | now left].
  - destruct Hlast as (Hst & d & Edeploy).
    eexists _, _, (callsOf (done ++ [last]) ++ [EvNow d])%list,
            (length (done ++ [last]) - 2)%nat, [].
    split; [exact Edeploy|]. split; [reflexivity|].
    split; [rewrite commands_app, Hcmd; simpl; now rewrite !app_nil_r|].
    split; [|now left]. intros _. split; [|reflexivity].
    rewrite (all_stages_ran done last Hord Hst). lia.
Qed.

Lemma perform_keeps_agents env yaml op p : agents (perform env yaml op p) = agents p.
Proof.
  destruct op as [agentId cfg | agentId | agentId]; simpl.
  - destruct (deployAgent_cases env yaml agentId cfg p) as (done & last & _ & _ & _ & Hlast).
    destruct (verdict last).
    + destruct Hlast as (_ & p' & r2 & Estop & ->). simpl.
      destruct (stopAgent_keeps_agents env agentId (extend p (callsOf (done ++ [last]))))
        as (q & r & E & Ha).
      rewrite Estop in E. inversion E; subst. exact Ha.
    + destruct Hlast as (_ & d & ->). reflexivity.
  - destruct (stopAgent_keeps_agents env agentId p) as (q & r & -> & Ha). exact Ha.
  - destruct (getAgentStatus_state env agentId p) as (evs & ->). reflexivity.
Qed.

(** X5. An operation of the manager on one agent leaves the registry entries of
    all other agents, and the server's whole agent table, as they were; it
    only ever adds to the list of calls made. *)
Theorem manager_operations_touch_one_agent
    (env : Env) (yaml : Compose -> string) (op : Op) (p : Process) :
  agents (perform env yaml op p) = agents p /\
  (exists evs, trace (perform env yaml op p) = (trace p ++ evs)%list) /\
  forall other,
    other <> target op ->
    runningAgents (perform env yaml op p) !! other = runningAgents p !! other.
Proof.
  split; [apply perform_keeps_agents|].
  destruct (perform_effect env yaml op p) as (evs & Ht & Hreg).
  split; [now exists evs|]. intros other Hne.
  destruct Hreg as [-> | [[-> _] | (cfg & d & r & _ & _ & -> & _)]].
  - reflexivity.
  - now apply lookup_delete_ne.
  - now apply lookup_insert_ne.
Qed.

(** The two outcomes of [deployAgent] and what each does to the registry. *)
Lemma deployAgent_outcomes
    (env : Env) (yaml : Compose -> string) (agentId : string) (cfg : AgentConfig) (p : Process) :
  exists p' r,
    deployAgent env yaml agentId cfg p = (p', Resolved r) /\
    (Result.success r = true ->
     exists d evs,
       r = deployed agentId /\
       trace p' = (trace p ++ evs ++ [EvNow d])%list /\
       runningAgents p' = <[agentId := deployedEntry env agentId d]> (runningAgents p)) /\
    (Result.success r = false ->
     (exists m, r = deployFailure agentId m) /\
     (runningAgents p' = runningAgents p \/
      runningAgents p' = delete agentId (runningAgents p))).
Proof.
  destruct (deployAgent_cases env yaml agentId cfg p) as (done & last & _ & _ & _ & Hlast).
  destruct (verdict last) as [m|].
  - destruct Hlast as (_ & p' & r2 & Estop & Edeploy).
    exists p', (deployFailure agentId m). split; [exact Edeploy|].
    split; [discriminate|]. intros _. split; [now exists m|].
    destruct (stop_effect env agentId (extend p (callsOf (done ++ [last]))))
      as (evs & _ & Hreg).
    rewrite Estop in Hreg. simpl in Hreg.
    destruct Hreg as [[-> _] | [-> _]]; [now left | now right].
  - destruct Hlast as (_ & d & Edeploy).
    eexists _, _. split; [exact Edeploy|]. split; [|discriminate].
    intros _. exists d, (callsOf (done ++ [last])). repeat split.
Qed.

(** X6. A successful [deployAgent] returns [{success: true, agentId, url,
    status: 'running'}] and has put, as its last step, an entry under the
    agent's identifier that carries the same URL; the entry replaces any
    entry the agent had. A failed one returns no URL and never adds an
    entry: the registry is as before, or the agent's old entry is gone. *)
Theorem deployAgent_success_records_the_entry
    (env : Env) (yaml : Compose -> string) (agentId : string) (cfg : AgentConfig) (p : Process) :
  exists p' r,
    deployAgent env yaml agentId cfg p = (p', Resolved r) /\
    (Result.success r = true ->
     exists d evs,
       r = {| Result.success := true; Result.agentId := Some agentId;
              Result.url := Some ("http://localhost:" ++ Js.ofNumber (deployPort agentId));
              Result.status := Some "running"; Result.error := None |} /\
       trace p' = (trace p ++ evs ++ [EvNow d])%list /\
       runningAgents p'
         = <[agentId := {| Deployment.url :=
                             "http://localhost:" ++ Js.ofNumber (deployPort agentId);
                           Deployment.composePath := composePathOf env agentId;
                           Deployment.status := "running";
                           Deployment.deployedAt := d |}]> (runningAgents p)) /\
    (Result.success r = false ->
     Result.url r = None /\
     (runningAgents p' = runningAgents p \/
      runningAgents p' = delete agentId (runningAgents p))).
Proof.
  destruct (deployAgent_outcomes env yaml agentId cfg p) as (p' & r & E & Hok & Hfail).
  exists p', r. split; [exact E|]. split.
  - intros H. destruct (Hok H) as (d & evs & -> & Ht & Hreg). exists d, evs.
    split; [reflexivity|]. split; [exact Ht | exact Hreg].
  - intros H. destruct (Hfail H) as ((m & ->) & Hreg). split; [reflexivity | exact Hreg].
Qed.

(** X7. Deploy, then stop. After a successful [deployAgent], a [stopAgent] for
    the same agent tears down the very descriptor that was brought up: its
    only possible command is [docker-compose -f <descriptor> down] on the
    path the deployment wrote. When the stop succeeds the registry is what
    it was before the deployment, less any earlier entry of the agent; when
    it fails the new entry stays. *)
Theorem deploy_then_stop
    (env env' : Env) (yaml : Compose -> string) (agentId : string) (cfg : AgentConfig)
    (p p1 p2 : Process) (r1 r2 : Result.t) :
  deployAgent env yaml agentId cfg p = (p1, Resolved r1) ->
  Result.success r1 = true ->
  stopAgent env' agentId p1 = (p2, Resolved r2) ->
  exists evs,
    trace p2 = (trace p1 ++ evs)%list /\
    (forall c, In c (commands evs) ->
       c = (("docker-compose -f " ++ composePathOf env agentId ++ " down")%string, None)) /\
    (Result.success r2 = true ->
     runningAgents p2 = delete agentId (runningAgents p) /\
     (runningAgents p !! agentId = None -> runningAgents p2 = runningAgents p)) /\
    (Result.success r2 = false ->
     runningAgents p2 = runningAgents p1 /\ is_Some (runningAgents p1 !! agentId)).
Proof.
  intros Edeploy Hok Estop.
  destruct (deployAgent_outcomes env yaml agentId cfg p) as (q & r & E & Hsucc & _).
  rewrite Edeploy in E. inversion E; subst q r. clear E.
  destruct (Hsucc Hok) as (d & evs0 & _ & _ & Hreg).
  set (entry := deployedEntry env agentId d) in *.
  assert (Hl : runningAgents p1 !! agentId = Some entry)
    by (rewrite Hreg; apply lookup_insert_eq).
  destruct (stopAgent_registered env' agentId p1 entry Hl)
    as (q & r & evs & E & Ht & _ & Hcases).
  rewrite Estop in E. inversion E; subst q r. clear E.
  exists evs. split; [exact Ht|].
  destruct Hcases as [(m & Hthrew & -> & Hsame) | (Hclean & -> & Hdel)].
  - split; [|split; [discriminate|]].
    + unfold tearDownThrew in Hthrew. subst evs. simpl.
      intros c [<- | []]. reflexivity.
    + intros _. split; [exact Hsame | now rewrite Hl].
  - split; [|split; [|discriminate]].
    + destruct Hclean as [[-> _] | [[? ->] | [? ->]]]; simpl;
        [intros c [] | intros c [] | intros c [<- | []]; reflexivity].
    + intros _. rewrite Hdel, Hreg, delete_insert_eq.
      split; [reflexivity|]. intros Hnone. now apply delete_id.
Qed.

Lemma deploy_then_stop_witness :
  deployAgent sunny sampleYaml "a1" sampleConfig initial
    = (a1Running, Resolved (deployed "a1")) /\
  Result.success (deployed "a1") = true /\
  stopAgent sunny "a1" a1Running
    = (fst (stopAgent sunny "a1" a1Running), Resolved (stopped "a1")) /\
  exists evs,
    trace (fst (stopAgent sunny "a1" a1Running)) = (trace a1Running ++ evs)%list /\
    (forall c, In c (commands evs) ->
       c = (("docker-compose -f " ++ composePathOf sunny "a1" ++ " down")%string, None)).
Proof.
  assert (E1 : deployAgent sunny sampleYaml "a1" sampleConfig initial
               = (a1Running, Resolved (deployed "a1"))) by (vm_compute; reflexivity).
  assert (E2 : stopAgent sunny "a1" a1Running
               = (fst (stopAgent sunny "a1" a1Running), Resolved (stopped "a1")))
    by (vm_compute; reflexivity).
  split; [exact E1|]. split; [reflexivity|]. split; [exact E2|].
  destruct (deploy_then_stop sunny sunny sampleYaml "a1" sampleConfig initial a1Running
              (fst (stopAgent sunny "a1" a1Running)) (deployed "a1") (stopped "a1")
              E1 eq_refl E2) as (evs & Ht & Hc & _).
  exists evs. split; assumption.
Defined.

(** X8. Stopping twice. Once [stopAgent] has returned success for an agent, a
    second [stopAgent] for it, in any world, finds nothing to stop: it
    returns [Agent not found] and changes nothing. *)
Theorem stopAgent_twice
    (env env' : Env) (agentId : string) (p p1 : Process) (r : Result.t) :
  stopAgent env agentId p = (p1, Resolved r) ->
  Result.success r = true ->
  stopAgent env' agentId p1 = (p1, Resolved agentNotFound).
Proof.
  intros E Hok. apply stopAgent_unregistered_is_noop.
  destruct (stop_effect env agentId p) as (evs & _ & Hreg).
  rewrite E in Hreg. simpl in Hreg.
  destruct Hreg as [[_ Hne] | [-> _]].
  - destruct (runningAgents p !! agentId) as [agent|] eqn:Hl.
    + destruct (stopAgent_registered env agentId p agent Hl)
        as (q & r' & evs' & E' & _ & _ & [(m & _ & -> & _) | (_ & -> & _)]);
        rewrite E in E'; inversion E'; subst; [discriminate Hok | congruence].
    + rewrite (stopAgent_unregistered_is_noop env agentId p Hl) in E.
      inversion E; subst. discriminate Hok.
  - apply lookup_delete_eq.
Qed.

Lemma stopAgent_twice_witness :
  stopAgent sunny "a1" a1Running
    = (fst (stopAgent sunny "a1" a1Running), Resolved (stopped "a1")) /\
  Result.success (stopped "a1") = true /\
  stopAgent stuck "a1" (fst (stopAgent sunny "a1" a1Running))
    = (fst (stopAgent sunny "a1" a1Running), Resolved agentNotFound).
Proof.
  assert (E : stopAgent sunny "a1" a1Running
              = (fst (stopAgent sunny "a1" a1Running), Resolved (stopped "a1")))
    by (vm_compute; reflexivity).
  split; [exact E|]. split; [reflexivity|].
  exact (stopAgent_twice sunny stuck "a1" a1Running _ (stopped "a1") E eq_refl).
Defined.

(* ===================================================================== *)
(** * The start, delete and status routes *)
(* ===================================================================== *)

Lemma deployAgent_effect
    (env : Env) (yaml : Compose -> string) (agentId : string) (cfg : AgentConfig) (p : Process) :
  exists p1 r,
    deployAgent env yaml agentId cfg p = (p1, Resolved r) /\
    agents p1 = agents p /\
    (exists evs, trace p1 = (trace p ++ evs)%list) /\
    (Result.success r = true ->
     exists d,
       r = deployed agentId /\
       runningAgents p1 = <[agentId := deployedEntry env agentId d]> (runningAgents p)) /\
    (Result.success r = false ->
     (exists m, r = deployFailure agentId m) /\
     (runningAgents p1 = runningAgents p \/
      runningAgents p1 = delete agentId (runningAgents p))).
Proof.
  destruct (deployAgent_outcomes env yaml agentId cfg p) as (p1 & r & E & Hok & Hfail).
  exists p1, r. split; [exact E|].
  pose proof (perform_keeps_agents env yaml (Deploy agentId cfg) p) as Ha.
  destruct (perform_effect env yaml (Deploy agentId cfg) p) as (evs & Ht & _).
  simpl in Ha, Ht. rewrite E in Ha, Ht. simpl in Ha, Ht.
  split; [exact Ha|]. split; [now exists evs|]. split.
  - intros H. destruct (Hok H) as (d & _ & -> & _ & Hreg). now exists d.
  - exact Hfail.
Qed.

Lemma startRoute_cases
    (env : Env) (yaml : Compose -> string) (agentsJson : gmap string Agent.t -> string)
    (id : string) (p p1 : Process) (agent : Agent.t) (r : Result.t) :
  agents p !! id = Some agent ->
  deployAgent env yaml id (Agent.superiorAgentConfig agent) p = (p1, Resolved r) ->
  startRoute env yaml agentsJson id p =
    if Result.success r
    then (afterTearDown env agentsJson id
            (fun t1 t2 => markRunning t1 (Result.url r) t2 agent) p1,
          Resolved (started id (Result.url r)))
    else (afterFailedStart env agentsJson id
            (fun t => markFailed (Result.error r) t agent) p1,
          Resolved (startError 500 "Failed to start agent" (Result.error r))).
Proof.
  intros Hagent Edeploy.
  unfold startRoute. rewrite try_catch_step.
  unfold bind at 1. unfold readAgents at 1. rewrite Hagent.
  unfold bind at 1. rewrite Edeploy.
  destruct (Result.success r).
  - unfold bind at 1. rewrite now_step.
    unfold bind at 1. rewrite now_step.
    unfold bind at 1. unfold readAgents at 1.
    unfold bind at 1. unfold writeAgents at 1.
    unfold bind. rewrite saveAgents_step.
    unfold afterTearDown, extend, ret. simpl. rewrite <- !app_assoc. reflexivity.
  - unfold bind at 1. rewrite now_step.
    unfold bind at 1. unfold readAgents at 1.
    unfold bind at 1. unfold writeAgents at 1.
    unfold bind. rewrite saveAgents_step.
    unfold afterFailedStart, extend, ret. simpl. reflexivity.
Qed.

Lemma deleteRoute_cases
    (env : Env) (agentsJson : gmap string Agent.t -> string)
    (id : string) (p p1 : Process) (agent : Agent.t) (r : Result.t) :
  agents p !! id = Some agent ->
  stopAgent env id p = (p1, Resolved r) ->
  deleteRoute env agentsJson id p =
    (afterDelete env agentsJson id p1,
     Resolved {| code := 200;
                 body := {| Body.message := Some "Agent deleted successfully";
                            Body.agentId := Some id; Body.status := None;
                            Body.error := None; Body.details := None |} |}).
Proof.
  intros Hagent Estop.
  unfold deleteRoute. rewrite try_catch_step.
  unfold bind at 1. unfold readAgents at 1. rewrite Hagent.
  unfold bind at 1. rewrite Estop.
  unfold bind at 1. unfold readAgents at 1.
  unfold bind at 1. unfold writeAgents at 1.
  unfold bind. rewrite saveAgents_step.
  unfold afterDelete, extend, ret. simpl. reflexivity.
Qed.

Lemma stopAgent_outcomes (env : Env) (agentId : string) (p : Process) :
  exists p1 r evs,
    stopAgent env agentId p = (p1, Resolved r) /\
    agents p1 = agents p /\
    trace p1 = (trace p ++ evs)%list /\
    match runningAgents p !! agentId with
    | None => evs = [] /\ r = agentNotFound /\ runningAgents p1 = runningAgents p
    | Some entry =>
        (exists m, tearDownThrew entry m evs /\ r = stopFailed agentId m /\
                   runningAgents p1 = runningAgents p) \/
        (tearDownClean entry evs /\ r = stopped agentId /\
         runningAgents p1 = delete agentId (runningAgents p))
    end.
Proof.
  destruct (runningAgents p !! agentId) as [entry|] eqn:H.
  - destruct (stopAgent_registered env agentId p entry H)
      as (p1 & r & evs & E & Ht & Ha & Hcases).
    exists p1, r, evs. repeat (split; [assumption|]). exact Hcases.
  - exists p, agentNotFound, []. rewrite (stopAgent_unregistered_is_noop env agentId p H).
    rewrite app_nil_r. repeat split.
Qed.

(** What [stopAgent] does to the two tables, by its verdict. *)
Lemma stopAgent_tables (env : Env) (agentId : string) (p : Process) :
  exists p1 r,
    stopAgent env agentId p = (p1, Resolved r) /\
    agents p1 = agents p /\
    (Result.success r = false /\ runningAgents p1 = runningAgents p \/
     Result.success r = true /\ runningAgents p1 = delete agentId (runningAgents p)).
Proof.
  destruct (stopAgent_outcomes env agentId p) as (p1 & r & evs & E & Ha & _ & H).
  exists p1, r. split; [exact E|]. split; [exact Ha|].
  destruct (runningAgents p !! agentId) as [entry|].
  - destruct H as [(m & _ & -> & Hreg) | (_ & -> & Hreg)]; [left | right]; now split.
  - destruct H as (_ & -> & Hreg). left. now split.
Qed.

Lemma routes_404
    (env : Env) (yaml : Compose -> string) (agentsJson : gmap string Agent.t -> string)
    (id : string) (p : Process) :
  agents p !! id = None ->
  fst (stopRoute env agentsJson id p) = p /\
  fst (pauseRoute env agentsJson id p) = p /\
  fst (startRoute env yaml agentsJson id p) = p /\
  fst (deleteRoute env agentsJson id p) = p /\
  fst (statusRoute env id p) = p.
Proof.
  intros H.
  unfold stopRoute, pauseRoute, startRoute, deleteRoute, statusRoute.
  rewrite !try_catch_step. unfold bind, readAgents. rewrite H.
  repeat split.
Qed.

(** X9. A request for an identifier the server has no record of is answered
    with 404 [Agent not found] by the stop, pause, start, delete and status
    routes alike, and nothing happens: no call is made, neither table
    changes. In particular a container the manager still has registered
    under that identifier is neither stopped nor probed. *)
Theorem routes_answer_404_for_an_unknown_agent
    (env : Env) (yaml : Compose -> string) (agentsJson : gmap string Agent.t -> string)
    (id : string) (p : Process) :
  agents p !! id = None ->
  stopRoute env agentsJson id p = (p, Resolved (errorAnswer 404 "Agent not found" None)) /\
  pauseRoute env agentsJson id p = (p, Resolved (errorAnswer 404 "Agent not found" None)) /\
  startRoute env yaml agentsJson id p
    = (p, Resolved (startError 404 "Agent not found" None)) /\
  deleteRoute env agentsJson id p = (p, Resolved (errorAnswer 404 "Agent not found" None)) /\
  statusRoute env id p = (p, Resolved (StatusError 404 "Agent not found")).
Proof.
  intros H.
  unfold stopRoute, pauseRoute, startRoute, deleteRoute, statusRoute.
  rewrite !try_catch_step. unfold bind, readAgents. rewrite H.
  repeat split.
Qed.

Lemma routes_answer_404_for_an_unknown_agent_witness :
  agents a1Running !! "a1" = None /\
  deleteRoute sunny sampleAgentsJson "a1" a1Running
    = (a1Running, Resolved (errorAnswer 404 "Agent not found" None)) /\
  runningAgents a1Running !! "a1" = Some a1Entry.
Proof.
  assert (H : agents a1Running !! "a1" = None) by (vm_compute; reflexivity).
  split; [exact H|]. split.
  - exact (proj1 (proj2 (proj2 (proj2
             (routes_answer_404_for_an_unknown_agent
                sunny sampleYaml sampleAgentsJson "a1" a1Running H))))).
  - vm_compute. reflexivity.
Defined.



(** X11. The delete route, for an agent the server knows. It always answers 200
    and always removes the record and persists the table without it,
    whatever [stopAgent] returned. The registry entry of the agent goes
    only when the tear-down went through: when the tear-down command
    throws, the record is gone and the entry (and so the container) is left
    behind in the registry. *)
Theorem deleteRoute_removes_the_record_whatever_the_tear_down_does
    (env : Env) (agentsJson : gmap string Agent.t -> string)
    (id : string) (p : Process) (agent : Agent.t) :
  agents p !! id = Some agent ->
  exists p' evs w,
    deleteRoute env agentsJson id p
      = (p', Resolved {| code := 200;
                         body := {| Body.message := Some "Agent deleted successfully";
                                    Body.agentId := Some id; Body.status := None;
                                    Body.error := None; Body.details := None |} |}) /\
    agents p' = delete id (agents p) /\
    trace p' = (trace p ++ evs
                  ++ [EvWriteFile (agentsDbPath env) (agentsJson (delete id (agents p))) w])%list /\
    (forall other, other <> id -> runningAgents p' !! other = runningAgents p !! other) /\
    match runningAgents p !! id with
    | None => evs = [] /\ runningAgents p' = runningAgents p
    | Some entry =>
        (exists m, tearDownThrew entry m evs /\ runningAgents p' !! id = Some entry) \/
        (tearDownClean entry evs /\ runningAgents p' !! id = None)
    end.
Proof.
  intros Hagent.
  destruct (stopAgent_outcomes env id p) as (p1 & r & evs & E & Ha & Ht & H).
  rewrite (deleteRoute_cases env agentsJson id p p1 agent r Hagent E).
  eexists _, evs, _. split; [reflexivity|].
  unfold afterDelete. simpl. rewrite Ha, Ht, <- app_assoc.
  split; [reflexivity|]. split; [reflexivity|].
  destruct (runningAgents p !! id) as [entry|] eqn:Hreg.
  - destruct H as [(m & Hthrew & _ & ->) | (Hclean & _ & ->)].
    + split; [reflexivity|]. left. exists m. now split.
    + split; [intros other Hne; now apply lookup_delete_ne|].
      right. split; [exact Hclean | apply lookup_delete_eq].
  - destruct H as (-> & _ & ->). repeat split.
Qed.

Lemma deleteRoute_removes_the_record_whatever_the_tear_down_does_witness :
  agents a1Serving !! "a1" = Some a1Record /\
  exists p',
    fst (deleteRoute stuck sampleAgentsJson "a1" a1Serving) = p' /\
    agents p' = delete "a1" (agents a1Serving).
Proof.
  assert (H : agents a1Serving !! "a1" = Some a1Record) by (vm_compute; reflexivity).
  split; [exact H|].
  destruct (deleteRoute_removes_the_record_whatever_the_tear_down_does
              stuck sampleAgentsJson "a1" a1Serving a1Record H)
    as (p' & evs & w & E & Hagents & _).
  exists p'. split; [now rewrite E | exact Hagents].
Defined.

(** In the stuck world, deleting the deployed agent [a1] answers 200 and
    leaves its registry entry behind. *)
Example deleteRoute_orphans_the_container :
  let '(p', answer) := deleteRoute stuck sampleAgentsJson "a1" a1Serving in
  option_map code (match answer with Resolved a => Some a | Rejected _ => None end) = Some 200 /\
  agents p' !! "a1" = None /\
  runningAgents p' !! "a1" = Some a1Entry.
Proof. vm_compute. repeat split. Qed.

Lemma statusRoute_state (env : Env) (id : string) (p : Process) :
  exists evs, fst (statusRoute env id p) = extend p evs.
Proof.
  unfold statusRoute. rewrite try_catch_step. unfold bind at 1. unfold readAgents at 1.
  destruct (agents p !! id) as [agent|]; [|exists []; now rewrite extend_nil].
  unfold bind.
  destruct (getAgentStatus_state env id p) as (evs & H).
  destruct (getAgentStatus env id p) as [q [rep|m]]; simpl in H; subst q;
    exists evs; reflexivity.
Qed.

(** A table changed at one identifier only, where the record it now holds,
    if any, is not [running] or is backed by the registry. *)
Lemma runningRecordsAreRegistered_step (id : string) (p q : Process) :
  runningRecordsAreRegistered p ->
  (forall other, other <> id ->
     agents q !! other = agents p !! other /\
     runningAgents q !! other = runningAgents p !! other) ->
  (forall a, agents q !! id = Some a -> Agent.status a = "running" ->
     exists e, runningAgents q !! id = Some e /\
               Agent.containerUrl a = Some (Deployment.url e)) ->
  runningRecordsAreRegistered q.
Proof.
  intros Hp Hother Hid id' a Ha Hrun.
  destruct (decide (id' = id)) as [-> | Hne]; [now apply Hid|].
  destruct (Hother id' Hne) as [E1 E2]. rewrite E1 in Ha. rewrite E2. now apply Hp.
Qed.

Lemma tearDownRoute_preserves
    (env : Env) (agentsJson : gmap string Agent.t -> string) (id : string)
    (mark : string -> string -> Agent.t) (p p1 : Process) (r : Result.t) :
  (forall t1 t2, Agent.status (mark t1 t2) <> "running") ->
  runningRecordsAreRegistered p ->
  agents p1 = agents p ->
  (Result.success r = false /\ runningAgents p1 = runningAgents p \/
   Result.success r = true /\ runningAgents p1 = delete id (runningAgents p)) ->
  runningRecordsAreRegistered
    (if Result.success r then afterTearDown env agentsJson id mark p1 else p1).
Proof.
  intros Hmark Hp Ha [[-> Hreg] | [-> Hreg]].
  - intros id' a. rewrite Ha, Hreg. apply Hp.
  - apply (runningRecordsAreRegistered_step id p); [exact Hp|..].
    + intros other Hne. unfold afterTearDown. simpl. rewrite Ha, Hreg.
      split; [now apply lookup_insert_ne | now apply lookup_delete_ne].
    + intros a. unfold afterTearDown. simpl. rewrite lookup_insert_eq.
      intros [= <-] Hrun. now apply Hmark in Hrun.
Qed.

Lemma serve_preserves
    (env : Env) (yaml : Compose -> string) (agentsJson : gmap string Agent.t -> string)
    (rq : Request) (p : Process) :
  runningRecordsAreRegistered p ->
  runningRecordsAreRegistered (serve env yaml agentsJson rq p).
Proof.
  intros Hp.
  destruct rq as [id | id | id | id | id]; simpl;
    destruct (agents p !! id) as [agent|] eqn:Hagent.
  - destruct (stopAgent_tables env id p) as (p1 & r & E & Ha & Hreg).
    rewrite (stopRoute_cases env agentsJson id p p1 agent r Hagent E).
    pose proof (tearDownRoute_preserves env agentsJson id
                  (fun t1 t2 => markStopped t1 t2 agent) p p1 r) as H.
    destruct (Result.success r); apply H; try assumption; discriminate.
  - destruct (routes_404 env yaml agentsJson id p Hagent) as (-> & _). exact Hp.
  - destruct (stopAgent_tables env id p) as (p1 & r & E & Ha & Hreg).
    rewrite (pauseRoute_cases env agentsJson id p p1 agent r Hagent E).
    pose proof (tearDownRoute_preserves env agentsJson id
                  (fun t1 t2 => markPaused t1 t2 agent) p p1 r) as H.
    destruct (Result.success r); apply H; try assumption; discriminate.
  - destruct (routes_404 env yaml agentsJson id p Hagent) as (_ & -> & _). exact Hp.
  - destruct (deployAgent_effect env yaml id (Agent.superiorAgentConfig agent) p)
      as (p1 & r & E & Ha & _ & Hok & Hfail).
    rewrite (startRoute_cases env yaml agentsJson id p p1 agent r Hagent E).
    destruct (Result.success r) eqn:Hs; simpl.
    + destruct (Hok eq_refl) as (d & -> & Hreg).
      apply (runningRecordsAreRegistered_step id p); [exact Hp|..]; simpl.
      * intros other Hne. rewrite Ha, Hreg. split; now apply lookup_insert_ne.
      * intros a. rewrite lookup_insert_eq. intros [= <-] _.
        exists (deployedEntry env id d). rewrite Hreg. split; [apply lookup_insert_eq|].
        reflexivity.
    + destruct (Hfail eq_refl) as (_ & Hreg).
      apply (runningRecordsAreRegistered_step id p); [exact Hp|..]; simpl.
      * intros other Hne. rewrite Ha. split; [now apply lookup_insert_ne|].
        destruct Hreg as [-> | ->]; [reflexivity | now apply lookup_delete_ne].
      * intros a. rewrite lookup_insert_eq. intros [= <-]. discriminate.
  - destruct (routes_404 env yaml agentsJson id p Hagent) as (_ & _ & -> & _). exact Hp.
  - destruct (stopAgent_tables env id p) as (p1 & r & E & Ha & Hreg).
    rewrite (deleteRoute_cases env agentsJson id p p1 agent r Hagent E). simpl.
    apply (runningRecordsAreRegistered_step id p); [exact Hp|..]; simpl.
    + intros other Hne. rewrite Ha. split; [now apply lookup_delete_ne|].
      destruct Hreg as [[_ ->] | [_ ->]]; [reflexivity | now apply lookup_delete_ne].
    + intros a. rewrite lookup_delete_eq. discriminate.
  - destruct (routes_404 env yaml agentsJson id p Hagent) as (_ & _ & _ & -> & _). exact Hp.
  - destruct (statusRoute_state env id p) as (evs & ->). exact Hp.
  - destruct (statusRoute_state env id p) as (evs & ->). exact Hp.
Qed.

(** X12. Across any sequence of stop, pause, start, delete and status requests,
    in any world: every record whose status is [running] has an entry in
    the manager's registry, and the record's [containerUrl] is that entry's
    URL, provided this held before the first request. *)
Theorem running_records_stay_registered
    (env : Env) (yaml : Compose -> string) (agentsJson : gmap string Agent.t -> string)
    (rqs : list Request) (p : Process) :
  runningRecordsAreRegistered p ->
  runningRecordsAreRegistered (serveAll env yaml agentsJson rqs p).
Proof.
  revert p. induction rqs as [|rq rqs IH]; intros p Hp; [exact Hp|].
  simpl. apply IH. now apply serve_preserves.
Qed.

Lemma running_records_stay_registered_witness :
  runningRecordsAreRegistered a1Serving /\
  runningRecordsAreRegistered
    (serveAll stuck sampleYaml sampleAgentsJson
       [PostPause "a1"; PostStart "a1"; GetStatus "a1"; PostDelete "a1"] a1Serving).
Proof.
  assert (H : runningRecordsAreRegistered a1Serving).
  { intros id a Ha _. unfold a1Serving in Ha. cbn [agents] in Ha.
    apply lookup_singleton_Some in Ha as [<- <-].
    exists a1Entry. split; [vm_compute|]; reflexivity. }
  split; [exact H|].
  exact (running_records_stay_registered stuck sampleYaml sampleAgentsJson _ a1Serving H).
Defined.

(* ===================================================================== *)
(** * Saving the agent configuration *)
(* ===================================================================== *)

(** X13. [saveAgentConfig] and the check for a stale directory at the
    configuration path. Whatever the check's [stat] or [rmdir] answer, the
    write of the configuration is attempted next, at the configuration
    path and with the serialized configuration. The function resolves, with
    the configuration path, exactly when its last two calls are that write
    and the [stat] that reads the file size for the log line, both
    successful. It rejects with the message of the failed [mkdir], of the
    failed write, or of that closing [stat]: a failure to read the size for
    the log line fails the save although the file was written. *)
Theorem saveAgentConfig_failure_modes
    (env : Env) (agentId : string) (cfg : AgentConfig) (p : Process) :
  exists evs res,
    saveAgentConfig env agentId cfg p = (extend p evs, res) /\
    (forall path content w,
       In (EvWriteFile path content w) evs ->
       path = configPathOf env agentId /\ content = json cfg) /\
    (forall path r,
       In (EvRmdir path r) evs ->
       path = configPathOf env agentId /\
       exists before after w,
         evs = (before ++ EvRmdir path r
                  :: EvWriteFile (configPathOf env agentId) (json cfg) w :: after)%list) /\
    match res with
    | Resolved path =>
        path = configPathOf env agentId /\
        exists before st,
          evs = (before ++ [EvWriteFile path (json cfg) (Resolved tt);
                            EvStat path (Resolved st)])%list
    | Rejected m =>
        evs = [EvMkdir (configDirOf env) (Rejected m)] \/
        (exists before,
           evs = (before ++ [EvWriteFile (configPathOf env agentId) (json cfg)
                               (Rejected m)])%list) \/
        (exists before,
           evs = (before ++ [EvWriteFile (configPathOf env agentId) (json cfg)
                               (Resolved tt);
                             EvStat (configPathOf env agentId) (Rejected m)])%list)
    end.
Proof.
  destruct (saveAgentConfig_ran env (fun _ => EmptyString) agentId cfg p)
    as (cs & v & Hran & E).
  exists cs, (settled v (configPathOf env agentId)). split; [exact E|].
  assert (Hcheck : forall check, StaleCheck env agentId check ->
            (forall path content w, ~ In (EvWriteFile path content w) check) /\
            (forall path r, In (EvRmdir path r) check ->
               path = configPathOf env agentId /\
               exists pre, check = (pre ++ [EvRmdir path r])%list)).
  { intros check Hc. destruct Hc as [m | st Hd | st r0 Hd]; split.
    - intros path content w [H|[]]; discriminate.
    - intros path r [H|[]]; discriminate.
    - intros path content w [H|[]]; discriminate.
    - intros path r [H|[]]; discriminate.
    - intros path content w [H|[H|[]]]; discriminate.
    - intros path r [H|[H|[]]]; [discriminate|]. inversion H; subst.
      split; [reflexivity|]. now exists [EvStat (configPathOf env agentId) (Resolved st)]. }
  inversion Hran; subst; simpl.
  - (* mkdir failed *)
    split; [intros path content w [Hin|[]]; discriminate|].
    split; [intros path r [Hin|[]]; discriminate|]. now left.
  - (* the write failed *)
    match goal with Hc : StaleCheck _ _ _ |- _ => destruct (Hcheck _ Hc) as [Hnow Hrm] end.
    split; [|split].
    + intros path content w [Hin|Hin]; [discriminate|].
      apply in_app_or in Hin as [Hin|[Hin|[]]]; [now apply Hnow in Hin|].
      inversion Hin; now subst.
    + intros path r [Hin|Hin]; [discriminate|].
      apply in_app_or in Hin as [Hin|[Hin|[]]]; [|discriminate].
      destruct (Hrm path r Hin) as (-> & pre & ->). split; [reflexivity|].
      exists (EvMkdir (configDirOf env) (Resolved tt) :: pre), [], (Rejected m).
      simpl. now rewrite <- app_assoc.
    + right. left. now exists (EvMkdir (configDirOf env) (Resolved tt) :: check).
  - (* the closing stat failed *)
    match goal with Hc : StaleCheck _ _ _ |- _ => destruct (Hcheck _ Hc) as [Hnow Hrm] end.
    split; [|split].
    + intros path content w [Hin|Hin]; [discriminate|].
      apply in_app_or in Hin as [Hin|[Hin|[Hin|[]]]]; [now apply Hnow in Hin| |discriminate].
      inversion Hin; now subst.
    + intros path r [Hin|Hin]; [discriminate|].
      apply in_app_or in Hin as [Hin|[Hin|[Hin|[]]]]; [|discriminate|discriminate].
      destruct (Hrm path r Hin) as (-> & pre & ->). split; [reflexivity|].
      exists (EvMkdir (configDirOf env) (Resolved tt) :: pre),
        [EvStat (configPathOf env agentId) (Rejected m)], (Resolved tt).
      simpl. now rewrite <- app_assoc.
    + right. right. now exists (EvMkdir (configDirOf env) (Resolved tt) :: check).
  - (* written *)
    match goal with Hc : StaleCheck _ _ _ |- _ => destruct (Hcheck _ Hc) as [Hnow Hrm] end.
    split; [|split].
    + intros path content w [Hin|Hin]; [discriminate|].
      apply in_app_or in Hin as [Hin|[Hin|[Hin|[]]]]; [now apply Hnow in Hin| |discriminate].
      inversion Hin; now subst.
    + intros path r [Hin|Hin]; [discriminate|].
      apply in_app_or in Hin as [Hin|[Hin|[Hin|[]]]]; [|discriminate|discriminate].
      destruct (Hrm path r Hin) as (-> & pre & ->). split; [reflexivity|].
      exists (EvMkdir (configDirOf env) (Resolved tt) :: pre),
        [EvStat (configPathOf env agentId) (Resolved st)], (Resolved tt).
      simpl. now rewrite <- app_assoc.
    + split; [reflexivity|].
      now exists (EvMkdir (configDirOf env) (Resolved tt) :: check), st.
Qed.

(* ===================================================================== *)
(** * The descriptor as text *)
(* ===================================================================== *)

Lemma append_assoc (a b c : string) : ((a ++ b) ++ c = a ++ b ++ c)%string.
Proof.
  induction a as [|x a IH]; [reflexivity|].
  change (String x ((a ++ b) ++ c) = String x (a ++ b ++ c))%string. now rewrite IH.
Qed.

Lemma append_nil_r (a : string) : (a ++ "" = a)%string.
Proof.
  induction a as [|x a IH]; [reflexivity|].
  change (String x (a ++ "") = String x a)%string. now rewrite IH.
Qed.

Lemma objectToYaml_object n properties :
  Yaml.objectToYaml (Yaml.VObject properties) n = Yaml.entries n properties "".
Proof. reflexivity. Qed.

Lemma objectToYaml_array n items :
  Yaml.objectToYaml (Yaml.VArray items) n = Yaml.elements n items 0 "".
Proof. reflexivity. Qed.

Lemma throws_object properties :
  Yaml.throws (Yaml.VObject properties)
    = existsb (fun kv => Yaml.throwsAsProperty (snd kv)) properties.
Proof. reflexivity. Qed.

Lemma throws_array items :
  Yaml.throws (Yaml.VArray items) = existsb Yaml.throwsAsProperty items.
Proof. reflexivity. Qed.

(** Induction over values, with the hypothesis for every item of an array
    and every property of an object. *)
Lemma Value_induction (P : Yaml.Value -> Prop) :
  P Yaml.VNull -> P Yaml.VUndefined ->
  (forall s, P (Yaml.VString s)) -> (forall text, P (Yaml.VOther text)) ->
  (forall items, Forall P items -> P (Yaml.VArray items)) ->
  (forall properties, Forall (fun kv => P (snd kv)) properties ->
                      P (Yaml.VObject properties)) ->
  forall v, P v.
Proof.
  intros Hnull Hundef Hstr Hother Harr Hobj.
  fix IH 1. intros [| | s | text | items | properties].
  - exact Hnull.
  - exact Hundef.
  - apply Hstr.
  - apply Hother.
  - apply Harr. induction items as [|item rest IHitems]; constructor; [apply IH | exact IHitems].
  - apply Hobj. induction properties as [|[key value] rest IHps]; constructor;
      [apply IH | exact IHps].
Qed.

Lemma repeatString_app s n k :
  Yaml.repeatString s (n + k) = (Yaml.repeatString s n ++ Yaml.repeatString s k)%string.
Proof.
  induction n as [|n IH]; [reflexivity|].
  change (s ++ Yaml.repeatString s (n + k)
          = (s ++ Yaml.repeatString s n) ++ Yaml.repeatString s k)%string.
  now rewrite IH, append_assoc.
Qed.

Lemma indentLines_app n a b :
  Yaml.indentLines n (a ++ b) = (Yaml.indentLines n a ++ Yaml.indentLines n b)%string.
Proof.
  induction a as [|l a IH]; [reflexivity|].
  change ((Yaml.repeatString "  " n ++ l ++ Yaml.newline) ++ Yaml.indentLines n (a ++ b)
          = ((Yaml.repeatString "  " n ++ l ++ Yaml.newline) ++ Yaml.indentLines n a)
              ++ Yaml.indentLines n b)%string.
  now rewrite IH, !append_assoc.
Qed.

Lemma indentLines_deeper n k ls :
  Yaml.indentLines (n + k) ls
    = Yaml.indentLines n (map (fun l => Yaml.repeatString "  " k ++ l)%string ls).
Proof.
  induction ls as [|l ls IH]; [reflexivity|].
  change ((Yaml.repeatString "  " (n + k) ++ l ++ Yaml.newline)
            ++ Yaml.indentLines (n + k) ls
          = (Yaml.repeatString "  " n ++ (Yaml.repeatString "  " k ++ l) ++ Yaml.newline)
              ++ Yaml.indentLines n (map (fun l => Yaml.repeatString "  " k ++ l) ls))%string.
  now rewrite IH, repeatString_app, !append_assoc.
Qed.

Lemma indentLines_one n l :
  Yaml.indentLines n [l] = (Yaml.repeatString "  " n ++ l ++ Yaml.newline)%string.
Proof.
  change ((Yaml.repeatString "  " n ++ l ++ Yaml.newline) ++ ""
          = Yaml.repeatString "  " n ++ l ++ Yaml.newline)%string.
  apply append_nil_r.
Qed.

Lemma forEach_shape (items : list Yaml.Value) :
  Forall (fun item => Yaml.shape item) items ->
  if existsb Yaml.throwsAsItem items
  then forall n yaml, Yaml.forEach n items yaml = Rejected Yaml.notAnObject
  else exists ls, forall n yaml,
         Yaml.forEach n items yaml = Resolved (yaml ++ Yaml.indentLines n ls)%string.
Proof.
  induction 1 as [|item rest Hitem _ IH].
  - exists []. intros n yaml. simpl. now rewrite append_nil_r.
  - assert (Hcons : forall n yaml,
              Yaml.forEach n (item :: rest) yaml =
              match item with
              | Yaml.VNull | Yaml.VArray _ | Yaml.VObject _ =>
                  match Yaml.objectToYaml item (n + 2) with
                  | Resolved inner =>
                      Yaml.forEach n rest
                        ((yaml ++ Yaml.repeatString "  " n ++ "  -" ++ Yaml.newline)
                           ++ inner)%string
                  | Rejected m => Rejected m
                  end
              | Yaml.VUndefined =>
                  Yaml.forEach n rest
                    (yaml ++ Yaml.repeatString "  " n ++ "  - undefined" ++ Yaml.newline)%string
              | Yaml.VString text | Yaml.VOther text =>
                  Yaml.forEach n rest
                    (yaml ++ Yaml.repeatString "  " n ++ "  - " ++ text ++ Yaml.newline)%string
              end) by (intros; destruct item; reflexivity).
    assert (Hscalar : forall text,
              (forall n yaml,
                 Yaml.forEach n (item :: rest) yaml =
                 Yaml.forEach n rest
                   (yaml ++ Yaml.repeatString "  " n ++ "  - " ++ text ++ Yaml.newline)%string) ->
              Yaml.throwsAsItem item = false ->
              if existsb Yaml.throwsAsItem (item :: rest)
              then forall n yaml, Yaml.forEach n (item :: rest) yaml = Rejected Yaml.notAnObject
              else exists ls, forall n yaml,
                     Yaml.forEach n (item :: rest) yaml
                       = Resolved (yaml ++ Yaml.indentLines n ls)%string).
    { intros text E Hno. simpl existsb. rewrite Hno. simpl orb.
      destruct (existsb Yaml.throwsAsItem rest).
      - intros n yaml. rewrite E. apply IH.
      - destruct IH as (ls & IH). exists (("  - " ++ text)%string :: ls).
        intros n yaml. rewrite E, IH.
        change (Yaml.indentLines n (("  - " ++ text)%string :: ls))
          with ((Yaml.repeatString "  " n ++ ("  - " ++ text) ++ Yaml.newline)
                  ++ Yaml.indentLines n ls)%string.
        now rewrite !append_assoc. }
    assert (Hobject :
              Yaml.throwsAsItem item = Yaml.throws item ->
              (forall n yaml,
                 Yaml.forEach n (item :: rest) yaml =
                 match Yaml.objectToYaml item (n + 2) with
                 | Resolved inner =>
                     Yaml.forEach n rest
                       ((yaml ++ Yaml.repeatString "  " n ++ "  -" ++ Yaml.newline)
                          ++ inner)%string
                 | Rejected m => Rejected m
                 end) ->
              if existsb Yaml.throwsAsItem (item :: rest)
              then forall n yaml, Yaml.forEach n (item :: rest) yaml = Rejected Yaml.notAnObject
              else exists ls, forall n yaml,
                     Yaml.forEach n (item :: rest) yaml
                       = Resolved (yaml ++ Yaml.indentLines n ls)%string).
    { intros Hthrows E. simpl existsb. rewrite Hthrows.
      unfold Yaml.shape in Hitem. destruct (Yaml.throws item).
      - intros n yaml. now rewrite E, Hitem.
      - destruct Hitem as (inner & Hinner). simpl orb.
        destruct (existsb Yaml.throwsAsItem rest).
        + intros n yaml. rewrite E, Hinner. apply IH.
        + destruct IH as (ls & IH).
          exists ("  -" :: map (fun l => Yaml.repeatString "  " 2 ++ l)%string inner ++ ls)%list.
          intros n yaml. rewrite E, Hinner, IH, indentLines_deeper.
          change (Yaml.indentLines n
                    ("  -" :: map (fun l => Yaml.repeatString "  " 2 ++ l)%string inner ++ ls)%list)
            with ((Yaml.repeatString "  " n ++ "  -" ++ Yaml.newline)
                    ++ Yaml.indentLines n
                         (map (fun l => Yaml.repeatString "  " 2 ++ l)%string inner ++ ls)%list)%string.
          now rewrite indentLines_app, !append_assoc. }
    destruct item as [| | s | text | sub | sub].
    + apply Hobject; [reflexivity | exact Hcons].
    + apply (Hscalar "undefined"); [exact Hcons | reflexivity].
    + apply (Hscalar s); [exact Hcons | reflexivity].
    + apply (Hscalar text); [exact Hcons | reflexivity].
    + apply Hobject; [reflexivity | exact Hcons].
    + apply Hobject; [reflexivity | exact Hcons].
Qed.

Lemma property_shape (value : Yaml.Value) :
  match value with
  | Yaml.VObject _ => Yaml.shape value
  | Yaml.VArray items => Forall (fun item => Yaml.shape item) items
  | _ => True
  end ->
  Yaml.propertyShape value.
Proof.
  intros H key.
  assert (Hscalar : forall rest,
            (forall n yaml,
               Yaml.property n yaml key value
                 = Resolved (yaml ++ Yaml.repeatString "  " n ++ (key ++ rest) ++ Yaml.newline)%string) ->
            exists ls, forall n yaml,
              Yaml.property n yaml key value = Resolved (yaml ++ Yaml.indentLines n ls)%string).
  { intros rest E. exists [(key ++ rest)%string]. intros n yaml.
    now rewrite E, indentLines_one. }
  destruct value as [| | s | text | items | properties];
    cbv beta iota delta [Yaml.throwsAsProperty].
  - apply (Hscalar ": null"). intros n yaml. unfold Yaml.property.
    now rewrite !append_assoc.
  - apply (Hscalar ": null"). intros n yaml. unfold Yaml.property.
    now rewrite !append_assoc.
  - apply (Hscalar (": " ++ Js.dquote ++ s ++ Js.dquote)%string). intros n yaml.
    unfold Yaml.property. now rewrite !append_assoc.
  - apply (Hscalar (": " ++ text)%string). intros n yaml. unfold Yaml.property.
    now rewrite !append_assoc.
  - pose proof (forEach_shape items H) as Hitems.
    destruct (existsb Yaml.throwsAsItem items).
    + intros n yaml. unfold Yaml.property. apply Hitems.
    + destruct Hitems as (ls & Hitems). exists ((key ++ ":")%string :: ls).
      intros n yaml. unfold Yaml.property. rewrite Hitems.
      change (Yaml.indentLines n ((key ++ ":")%string :: ls))
        with ((Yaml.repeatString "  " n ++ (key ++ ":") ++ Yaml.newline)
                ++ Yaml.indentLines n ls)%string.
      now rewrite !append_assoc.
  - unfold Yaml.shape in H. destruct (Yaml.throws (Yaml.VObject properties)).
    + intros n yaml. unfold Yaml.property. now rewrite H.
    + destruct H as (inner & Hinner).
      exists ((key ++ ":")%string :: map (fun l => Yaml.repeatString "  " 1 ++ l)%string inner).
      intros n yaml. unfold Yaml.property. rewrite Hinner, indentLines_deeper.
      change (Yaml.indentLines n
                ((key ++ ":")%string :: map (fun l => Yaml.repeatString "  " 1 ++ l)%string inner))
        with ((Yaml.repeatString "  " n ++ (key ++ ":") ++ Yaml.newline)
                ++ Yaml.indentLines n
                     (map (fun l => Yaml.repeatString "  " 1 ++ l)%string inner))%string.
      now rewrite !append_assoc.
Qed.

Lemma entries_shape (properties : list (string * Yaml.Value)) :
  Forall (fun kv => Yaml.propertyShape (snd kv)) properties ->
  if existsb (fun kv => Yaml.throwsAsProperty (snd kv)) properties
  then forall n yaml, Yaml.entries n properties yaml = Rejected Yaml.notAnObject
  else exists ls, forall n yaml,
         Yaml.entries n properties yaml = Resolved (yaml ++ Yaml.indentLines n ls)%string.
Proof.
  induction 1 as [|[key value] rest Hkv _ IH].
  - exists []. intros n yaml. simpl. now rewrite append_nil_r.
  - assert (E : forall n yaml,
              Yaml.entries n ((key, value) :: rest) yaml =
              match Yaml.property n yaml key value with
              | Resolved yaml' => Yaml.entries n rest yaml'
              | Rejected m => Rejected m
              end) by reflexivity.
    simpl existsb. specialize (Hkv key). simpl in Hkv.
    destruct (Yaml.throwsAsProperty value); simpl orb.
    + intros n yaml. now rewrite E, Hkv.
    + destruct Hkv as (first & Hfirst).
      destruct (existsb (fun kv => Yaml.throwsAsProperty (snd kv)) rest).
      * intros n yaml. rewrite E, Hfirst. apply IH.
      * destruct IH as (ls & IH). exists (first ++ ls)%list. intros n yaml.
        now rewrite E, Hfirst, IH, indentLines_app, !append_assoc.
Qed.

Lemma elements_shape (items : list Yaml.Value) :
  Forall Yaml.propertyShape items ->
  forall i,
    if existsb Yaml.throwsAsProperty items
    then forall n yaml, Yaml.elements n items i yaml = Rejected Yaml.notAnObject
    else exists ls, forall n yaml,
           Yaml.elements n items i yaml = Resolved (yaml ++ Yaml.indentLines n ls)%string.
Proof.
  induction 1 as [|item rest Hitem _ IH]; intros i.
  - exists []. intros n yaml. simpl. now rewrite append_nil_r.
  - assert (E : forall n yaml,
              Yaml.elements n (item :: rest) i yaml =
              match Yaml.property n yaml (Yaml.ofIndex i) item with
              | Resolved yaml' => Yaml.elements n rest (S i) yaml'
              | Rejected m => Rejected m
              end) by reflexivity.
    simpl existsb. specialize (Hitem (Yaml.ofIndex i)). specialize (IH (S i)).
    destruct (Yaml.throwsAsProperty item); simpl orb.
    + intros n yaml. now rewrite E, Hitem.
    + destruct Hitem as (first & Hfirst).
      destruct (existsb Yaml.throwsAsProperty rest).
      * intros n yaml. rewrite E, Hfirst. apply IH.
      * destruct IH as (ls & IH). exists (first ++ ls)%list. intros n yaml.
        now rewrite E, Hfirst, IH, indentLines_app, !append_assoc.
Qed.

Lemma characterLines_shape (s : string) :
  forall i, exists ls, forall n,
    Yaml.characterLines (Yaml.repeatString "  " n) i s = Yaml.indentLines n ls.
Proof.
  induction s as [|c s IH]; intros i.
  - now exists [].
  - destruct (IH (S i)) as (ls & Hls).
    exists ((Yaml.ofIndex i ++ ": " ++ Js.dquote ++ String c EmptyString ++ Js.dquote)%string
              :: ls).
    intros n.
    change ((Yaml.repeatString "  " n ++ Yaml.ofIndex i ++ ": " ++ Js.dquote
               ++ String c EmptyString ++ Js.dquote ++ Yaml.newline)
              ++ Yaml.characterLines (Yaml.repeatString "  " n) (S i) s
            = (Yaml.repeatString "  " n
                 ++ (Yaml.ofIndex i ++ ": " ++ Js.dquote ++ String c EmptyString ++ Js.dquote)
                 ++ Yaml.newline)
                ++ Yaml.indentLines n ls)%string.
    now rewrite Hls, !append_assoc.
Qed.

(** The outcome of [objectToYaml] for every value, as a result and as the
    value of a property. *)
Lemma objectToYaml_shape (v : Yaml.Value) : Yaml.shape v /\ Yaml.propertyShape v.
Proof.
  induction v as [| | s | text | items IH | properties IH] using Value_induction.
  - split; [intros n; reflexivity | now apply property_shape].
  - split; [intros n; reflexivity | now apply property_shape].
  - split; [|now apply property_shape].
    destruct (characterLines_shape s 0) as (ls & Hls). exists ls. intros n.
    simpl. now rewrite Hls.
  - split; [|now apply property_shape]. exists []. intros n. reflexivity.
  - split.
    + unfold Yaml.shape. rewrite throws_array.
      assert (Hitems : Forall Yaml.propertyShape items).
      { eapply Forall_impl; [exact IH|]. now intros item [_ H]. }
      pose proof (elements_shape items Hitems 0%nat) as H.
      destruct (existsb Yaml.throwsAsProperty items).
      * intros n. rewrite objectToYaml_array. apply H.
      * destruct H as (ls & H). exists ls. intros n. rewrite objectToYaml_array, H.
        reflexivity.
    + apply property_shape. eapply Forall_impl; [exact IH|]. now intros item [H _].
  - assert (Hthis : Yaml.shape (Yaml.VObject properties)).
    { unfold Yaml.shape. rewrite throws_object.
      assert (Hps : Forall (fun kv => Yaml.propertyShape (snd kv)) properties).
      { eapply Forall_impl; [exact IH|]. now intros kv [_ H]. }
      pose proof (entries_shape properties Hps) as H.
      destruct (existsb (fun kv => Yaml.throwsAsProperty (snd kv)) properties).
      - intros n. rewrite objectToYaml_object. apply H.
      - destruct H as (ls & H). exists ls. intros n. rewrite objectToYaml_object, H.
        reflexivity. }
    split; [exact Hthis | now apply property_shape].
Qed.

(** X14. [objectToYaml] has two outcomes, and the indentation decides neither.
    Either [null] or [undefined] reaches [Object.entries] ([throws]): then
    the call throws that [TypeError] at every indentation. Or the call
    returns, and then at every indentation it returns the same lines, each
    ended by a line feed and shifted by two spaces per level. *)
Theorem objectToYaml_throws_or_indents (v : Yaml.Value) :
  (Yaml.throws v = true /\
   forall n, Yaml.objectToYaml v n = Rejected Yaml.notAnObject) \/
  (Yaml.throws v = false /\
   exists ls, forall n, Yaml.objectToYaml v n = Resolved (Yaml.indentLines n ls)).
Proof.
  destruct (objectToYaml_shape v) as [H _]. unfold Yaml.shape in H.
  destruct (Yaml.throws v); [left | right]; now split.
Qed.

Lemma nullFree_never_throws (v : Yaml.Value) :
  Yaml.nullFree v = true ->
  Yaml.throws v = false /\ Yaml.throwsAsProperty v = false.
Proof.
  induction v as [| | s | text | items IH | properties IH] using Value_induction;
    intros Hfree; try discriminate; try (split; reflexivity).
  - simpl in Hfree. rewrite throws_array.
    change (Yaml.throwsAsProperty (Yaml.VArray items)) with (existsb Yaml.throwsAsItem items).
    induction IH as [|item rest Hitem _ IHrest]; [split; reflexivity|].
    simpl in Hfree. apply andb_true_iff in Hfree as [Hi Hr].
    destruct (Hitem Hi) as [H1 H2]. destruct (IHrest Hr) as [H3 H4].
    simpl existsb. rewrite H2, H3, H4. split; [reflexivity|].
    destruct item; simpl; try reflexivity; rewrite ?orb_false_r; exact H1.
  - simpl in Hfree.
    change (Yaml.throwsAsProperty (Yaml.VObject properties))
      with (Yaml.throws (Yaml.VObject properties)).
    rewrite throws_object. split; 
      (induction IH as [|[key value] rest Hkv _ IHrest]; [reflexivity|];
       simpl in Hfree; apply andb_true_iff in Hfree as [Hi Hr];
       simpl in Hkv; simpl existsb; destruct (Hkv Hi) as [_ ->]; now apply IHrest).
Qed.

(** X15. A value that holds no [null] and no [undefined] anywhere is always
    serialized: [objectToYaml] returns, at every indentation. *)
Theorem objectToYaml_serializes_values_without_null (v : Yaml.Value) (n : nat) :
  Yaml.nullFree v = true ->
  exists text, Yaml.objectToYaml v n = Resolved text.
Proof.
  intros Hfree. destruct (nullFree_never_throws v Hfree) as [Hno _].
  destruct (objectToYaml_shape v) as [H _]. unfold Yaml.shape in H. rewrite Hno in H.
  destruct H as (ls & H). exists (Yaml.indentLines n ls). apply H.
Qed.

Lemma objectToYaml_serializes_values_without_null_witness :
  Yaml.nullFree
    (Yaml.VObject [("ports", Yaml.VArray [Yaml.VString "3261:8000"]);
                   ("retries", Yaml.VOther "3")]) = true /\
  exists text,
    Yaml.objectToYaml
      (Yaml.VObject [("ports", Yaml.VArray [Yaml.VString "3261:8000"]);
                     ("retries", Yaml.VOther "3")]) 1 = Resolved text.
Proof.
  split; [reflexivity|].
  exact (objectToYaml_serializes_values_without_null
           (Yaml.VObject [("ports", Yaml.VArray [Yaml.VString "3261:8000"]);
                          ("retries", Yaml.VOther "3")]) 1 eq_refl).
Defined.

(** A [null] that is the value of a property is written as [null]; a
    [null] that is an item of an array makes [objectToYaml] throw. *)
Example objectToYaml_null_property_and_null_item :
  Yaml.objectToYaml (Yaml.VObject [("a", Yaml.VNull)]) 0
    = Resolved ("a: null" ++ Yaml.newline)%string /\
  Yaml.objectToYaml (Yaml.VObject [("a", Yaml.VArray [Yaml.VNull])]) 0
    = Rejected Yaml.notAnObject.
Proof. split; reflexivity. Qed.



Lemma getAgentStatus_registered
    (env : Env) (agentId : string) (p : Process) (entry : Deployment.t) :
  runningAgents p !! agentId = Some entry ->
  exists r report,
    getAgentStatus env agentId p
      = (extend p [EvFetch (Deployment.url entry ++ "/health") r], Resolved report) /\
    StatusReport.url report = Some (Deployment.url entry) /\
    StatusReport.health report = delivered r /\
    StatusReport.error report = thrown r /\
    StatusReport.status report =
      (if succeeded r then "healthy" else if threw r then "unreachable" else "unhealthy") /\
    StatusReport.deployedAt report = Some (Deployment.deployedAt entry).
Proof.
  intros H.
  unfold getAgentStatus, bind, readRegistry, try_catch, fetch, bind,
    readTrace, emit, settle, ret. simpl. rewrite H.
  destruct (node_fetch env (trace p) (Deployment.url entry ++ "/health"))
    as [resp|m] eqn:E; simpl.
  - destruct (ok resp) eqn:Hok; simpl.
    + destruct (text resp) as [body|m] eqn:Ht; simpl;
        exists (Resolved resp); eexists; (split; [reflexivity|]); simpl;
        rewrite Hok, Ht; repeat split.
    + exists (Resolved resp); eexists; (split; [reflexivity|]); simpl;
        rewrite Hok; repeat split.
  - exists (Rejected m); eexists; (split; [reflexivity|]); repeat split.
Qed.

(** X17. The status route and a record that says [running], in a server state
    where running records are registered (which the lifecycle routes
    maintain). The route answers 200; it sends exactly one probe, to
    [/health] under the record's own [containerUrl]; it reports that URL,
    the record's status as [configStatus] and the record's [deployedAt];
    the live status is [healthy], [unhealthy] or [unreachable] by the
    probe, never [not_running]. Neither table changes. *)
Theorem statusRoute_of_a_running_record
    (env : Env) (id : string) (p : Process) (agent : Agent.t) :
  runningRecordsAreRegistered p ->
  agents p !! id = Some agent ->
  Agent.status agent = "running" ->
  exists url r b,
    Agent.containerUrl agent = Some url /\
    statusRoute env id p
      = (extend p [EvFetch (url ++ "/health") r], Resolved (StatusOk b)) /\
    StatusBody.configStatus b = "running" /\
    StatusBody.url b = Some url /\
    StatusBody.deployedAt b = Agent.deployedAt agent /\
    StatusBody.health b = delivered r /\
    StatusBody.error b = thrown r /\
    StatusBody.deploymentStatus b =
      (if succeeded r then "healthy" else if threw r then "unreachable" else "unhealthy").
Proof.
  intros Hinv Hagent Hrun.
  destruct (Hinv id agent Hagent Hrun) as (entry & Hentry & Hurl).
  destruct (getAgentStatus_registered env id p entry Hentry)
    as (r & report & E & H1 & H2 & H3 & H4 & _).
  exists (Deployment.url entry), r. eexists. split; [exact Hurl|].
  unfold statusRoute. rewrite try_catch_step.
  unfold bind at 1. unfold readAgents at 1. rewrite Hagent.
  unfold bind. rewrite E. unfold ret. split; [reflexivity|]. simpl.
  repeat split; assumption.
Qed.

Lemma statusRoute_of_a_running_record_witness :
  runningRecordsAreRegistered a1Serving /\
  agents a1Serving !! "a1" = Some a1Record /\
  Agent.status a1Record = "running" /\
  exists r b,
    statusRoute sunny "a1" a1Serving
      = (extend a1Serving [EvFetch "http://localhost:3261/health" r], Resolved (StatusOk b)) /\
    StatusBody.url b = Some "http://localhost:3261".
Proof.
  assert (H : runningRecordsAreRegistered a1Serving).
  { intros id a Ha _. unfold a1Serving in Ha. cbn [agents] in Ha.
    apply lookup_singleton_Some in Ha as [<- <-].
    exists a1Entry. split; [vm_compute|]; reflexivity. }
  assert (Ha : agents a1Serving !! "a1" = Some a1Record) by (vm_compute; reflexivity).
  split; [exact H|]. split; [exact Ha|]. split; [reflexivity|].
  destruct (statusRoute_of_a_running_record sunny "a1" a1Serving a1Record H Ha eq_refl)
    as (url & r & b & Hurl & E & _ & Hb & _).
  injection Hurl as <-. exists r, b. split; [exact E | exact Hb].
Defined.

(* ===================================================================== *)
(** * The catalog and the generated configuration *)
(* ===================================================================== *)

Lemma getMCPById_found (catalog : list Catalog.Mcp) (mcpId : string) (mcp : Catalog.Mcp) :
  Catalog.getMCPById catalog mcpId = Some mcp ->
  In mcp catalog /\ Catalog.id mcp = mcpId.
Proof.
  intros H. apply find_some in H as [Hin Heq]. split; [exact Hin|].
  now apply String.eqb_eq.
Qed.

Lemma omap_step (A B : Type) (f : A -> option B) (x : A) (rest : list A) :
  omap f (x :: rest)
    = match f x with
      | Some y => y :: omap f rest
      | None => omap f rest
      end.
Proof. reflexivity. Qed.

Lemma clients_of_selection (catalog : list Catalog.Mcp) (mcps : list string) :
  map Catalog.clientId (omap (Catalog.client catalog) mcps)
    = List.filter (fun mcpId => match Catalog.getMCPById catalog mcpId with
                                | Some _ => true
                                | None => false
                                end) mcps.
Proof.
  induction mcps as [|mcpId rest IH]; [reflexivity|].
  rewrite omap_step. unfold Catalog.client at 1. cbn [List.filter].
  destruct (Catalog.getMCPById catalog mcpId) as [mcp|] eqn:E.
  - cbn [map Catalog.clientId]. rewrite IH. f_equal.
    now apply getMCPById_found in E as [_ ->].
  - exact IH.
Qed.

Lemma valid_selection_is_kept (catalog : list Catalog.Mcp) (mcps : list string) :
  Catalog.invalidMCPs catalog mcps = [] ->
  List.filter (fun mcpId => match Catalog.getMCPById catalog mcpId with
                            | Some _ => true
                            | None => false
                            end) mcps = mcps.
Proof.
  unfold Catalog.invalidMCPs. induction mcps as [|mcpId rest IH]; [reflexivity|].
  simpl. destruct (Catalog.getMCPById catalog mcpId); [|discriminate].
  intros H. now rewrite IH.
Qed.

(** X18. A selection that passes the create route's check ([invalidMCPs] is
    empty) gets exactly one client per selected identifier in the generated
    configuration, in the order of the selection and with repetitions
    kept: the identifiers of [mcp_clients], and those of
    [deployment.mcps_embedded], are the selection itself. Every client has
    a transport, [stdio] unless the catalog gives one. *)
Theorem valid_selection_gets_one_client_per_identifier
    (catalog : list Catalog.Mcp)
    (name description prompt llm : string) (mcps : list string) (rag : string) :
  Catalog.invalidMCPs catalog mcps = [] ->
  let generated :=
    Catalog.generateSuperiorAgentConfig catalog name description prompt llm mcps rag in
  map Catalog.clientId (Catalog.mcp_clients generated) = mcps /\
  map Catalog.embeddedId (Catalog.mcps_embedded generated) = mcps /\
  Forall (fun c => Js.truthy (Catalog.clientTransport c) = true)
    (Catalog.mcp_clients generated).
Proof.
  intros Hvalid generated. subst generated. simpl.
  pose proof (clients_of_selection catalog mcps) as Hids.
  rewrite (valid_selection_is_kept catalog mcps Hvalid) in Hids.
  split; [exact Hids|]. split.
  - rewrite map_map. exact Hids.
  - clear. induction mcps as [|mcpId rest IH]; [constructor|].
    rewrite omap_step. unfold Catalog.client at 1.
    destruct (Catalog.getMCPById catalog mcpId) as [mcp|]; [|exact IH].
    constructor; [|exact IH]. simpl.
    destruct (Catalog.transport mcp) as [t|]; [|reflexivity].
    destruct (Js.truthy t) eqn:Ht; [exact Ht | reflexivity].
Qed.

Lemma valid_selection_gets_one_client_per_identifier_witness :
  Catalog.invalidMCPs sampleCatalog ["price-feed"; "wallet-tracker"; "price-feed"] = [] /\
  map Catalog.clientId
    (Catalog.mcp_clients
       (Catalog.generateSuperiorAgentConfig sampleCatalog "Scout" "A scout" "Watch." "gpt4"
          ["price-feed"; "wallet-tracker"; "price-feed"] "chroma"))
    = ["price-feed"; "wallet-tracker"; "price-feed"].
Proof.
  split; [reflexivity|].
  exact (proj1 (valid_selection_gets_one_client_per_identifier sampleCatalog
                  "Scout" "A scout" "Watch." "gpt4"
                  ["price-feed"; "wallet-tracker"; "price-feed"] "chroma" eq_refl)).
Defined.

Lemma distinct_spec (xs seen : list string) :
  List.NoDup (Catalog.distinct seen xs) /\
  forall x, In x (Catalog.distinct seen xs) <-> In x xs /\ ~ In x seen.
Proof.
  revert seen. induction xs as [|y rest IH]; intros seen.
  - split; [constructor|]. intros x. simpl. tauto.
  - simpl. destruct (existsb (String.eqb y) seen) eqn:E.
    + destruct (IH seen) as [Hnd Hin]. split; [exact Hnd|].
      intros x. rewrite Hin. split; [tauto|].
      intros [[<- | Hx] Hno]; [|tauto].
      exfalso. apply Hno. apply existsb_exists in E as (z & Hz & Heq).
      apply String.eqb_eq in Heq. now subst z.
    + destruct (IH (y :: seen)) as [Hnd Hin].
      assert (Hy : ~ In y seen).
      { intros Hy. apply Bool.not_true_iff_false in E. apply E.
        apply existsb_exists. exists y. split; [exact Hy | apply String.eqb_refl]. }
      split.
      * constructor; [|exact Hnd]. rewrite Hin. simpl. tauto.
      * intros x. simpl. rewrite Hin. simpl.
        destruct (String.eqb_spec y x) as [-> | Hne]; [tauto|]. tauto.
Qed.

(** X19. [getAvailableCategories] lists every category of the catalog exactly
    once: the list has no repetition, and a category is in it exactly when
    some entry of the catalog has it. *)
Theorem getAvailableCategories_lists_each_category_once (catalog : list Catalog.Mcp) :
  List.NoDup (Catalog.getAvailableCategories catalog) /\
  forall c,
    In c (Catalog.getAvailableCategories catalog)
    <-> exists mcp, In mcp catalog /\ Catalog.category mcp = c.
Proof.
  unfold Catalog.getAvailableCategories.
  destruct (distinct_spec (map Catalog.category catalog) []) as [Hnd Hin].
  split; [exact Hnd|]. intros c. rewrite Hin, in_map_iff. simpl.
  split.
  - intros [(mcp & Hc & Hm) _]. now exists mcp.
  - intros (mcp & Hm & Hc). split; [now exists mcp | tauto].
Qed.

Lemma sum_from (A : Type) (f : A -> nat) (xs : list A) (start : nat) :
  fold_left (fun sum x => (sum + f x)%nat) xs start
    = (start + fold_left (fun sum x => (sum + f x)%nat) xs 0%nat)%nat.
Proof.
  revert start. induction xs as [|x rest IH]; intros start; simpl; [lia|].
  rewrite (IH (start + f x)%nat), (IH (f x)). lia.
Qed.

Lemma filter_length_positive (A : Type) (f : A -> bool) (xs : list A) :
  existsb f xs = true <-> (0 < length (List.filter f xs))%nat.
Proof.
  induction xs as [|x rest IH]; simpl; [split; [discriminate | lia]|].
  destruct (f x); simpl; [split; [lia | reflexivity]|exact IH].
Qed.

(** X20. The summary [getMCPsConfigRequirements] gives for a selection. Its
    [mcps] are the requirements of the selected identifiers that the
    catalog has with a [config], in the order of the selection; the
    identifiers without are left out silently. [requiredFields] never
    exceeds [totalFields], and [hasRequiredConfigs] holds exactly when
    [requiredFields] is not zero. *)
Theorem requirements_summary_is_consistent
    (catalog : list Catalog.Mcp) (mcpIds : list string) :
  let summary := Catalog.getMCPsConfigRequirements catalog mcpIds in
  map Catalog.mcpId (Catalog.mcps summary)
    = List.filter (fun mcpId =>
                     match Catalog.getMCPConfigRequirements catalog mcpId with
                     | Some _ => true
                     | None => false
                     end) mcpIds /\
  (Catalog.requiredFields summary <= Catalog.totalFields summary)%nat /\
  (Catalog.hasRequiredConfigs summary = true <-> (0 < Catalog.requiredFields summary)%nat).
Proof.
  intros summary. subst summary. simpl. split; [|].
  - induction mcpIds as [|mcpId rest IH]; [reflexivity|].
    rewrite omap_step. cbn [List.filter].
    destruct (Catalog.getMCPConfigRequirements catalog mcpId) as [req|] eqn:E;
      [|exact IH].
    cbn [map]. rewrite IH. f_equal. unfold Catalog.getMCPConfigRequirements in E.
    destruct (Catalog.getMCPById catalog mcpId) as [mcp|]; [|discriminate].
    destruct (Catalog.config mcp); [|discriminate]. now inversion E.
  - assert (Hreq : Forall (fun req =>
                Catalog.hasRequiredFields req
                  = existsb Catalog.required (Catalog.fields req))
              (omap (Catalog.getMCPConfigRequirements catalog) mcpIds)).
    { induction mcpIds as [|mcpId rest IH]; [constructor|]. rewrite omap_step.
      destruct (Catalog.getMCPConfigRequirements catalog mcpId) as [req|] eqn:E;
        [|exact IH].
      constructor; [|exact IH]. unfold Catalog.getMCPConfigRequirements in E.
      destruct (Catalog.getMCPById catalog mcpId) as [mcp|]; [|discriminate].
      destruct (Catalog.config mcp); [|discriminate]. now inversion E. }
    induction Hreq as [|req reqs Hhead _ IH]; simpl; [split; [lia|]; split; [discriminate | lia]|].
    rewrite (sum_from _ (fun r => length (Catalog.fields r)) reqs),
      (sum_from _ (fun r => length (List.filter Catalog.required (Catalog.fields r))) reqs).
    destruct IH as [IHle IHiff].
    pose proof (filter_length_positive _ Catalog.required (Catalog.fields req)) as Hpos.
    assert (Hle : (length (List.filter Catalog.required (Catalog.fields req))
                   <= length (Catalog.fields req))%nat).
    { clear. induction (Catalog.fields req) as [|f fs IH]; simpl; [lia|].
      destruct (Catalog.required f); simpl; lia. }
    split; [lia|]. rewrite Hhead, orb_true_iff, IHiff, Hpos. lia.
Qed.

(* ===================================================================== *)
(** * Follow-mode log streaming: what is sent, and the late disconnect *)
(* ===================================================================== *)

Lemma following_forwards (inputs : list LogStream.Input) (s : LogStream.State) :
  forallb whileFollowing inputs = true ->
  LogStream.followProcess s = LogStream.Running \/
  LogStream.followProcess s = LogStream.Killed ->
  let s' := fold_left LogStream.step inputs s in
  (LogStream.followProcess s' = LogStream.Running \/
   LogStream.followProcess s' = LogStream.Killed) /\
  LogStream.sent s' = (LogStream.sent s ++ chunksOf inputs)%list /\
  LogStream.responseEnded s' = LogStream.responseEnded s.
Proof.
  revert s. induction inputs as [|i rest IH]; intros s Hall Hp; simpl.
  - split; [exact Hp|]. split; [now rewrite app_nil_r | reflexivity].
  - simpl in Hall. apply andb_true_iff in Hall as [Hi Hrest].
    destruct i as [r | | data | data |]; try discriminate.
    + (* the consumer goes away *)
      assert (Hstep :
        (LogStream.followProcess (LogStream.step s LogStream.RequestClose) = LogStream.Running \/
         LogStream.followProcess (LogStream.step s LogStream.RequestClose) = LogStream.Killed) /\
        LogStream.sent (LogStream.step s LogStream.RequestClose) = LogStream.sent s /\
        LogStream.responseEnded (LogStream.step s LogStream.RequestClose)
          = LogStream.responseEnded s).
      { simpl. destruct (LogStream.requestClosed s); [now repeat split|]. simpl.
        split; [|split; reflexivity].
        destruct (LogStream.closeListener s); destruct Hp as [-> | ->]; auto. }
      destruct Hstep as (Hp' & Hsent & Hend).
      destruct (IH _ Hrest Hp') as (H1 & H2 & H3).
      split; [exact H1|]. split; [now rewrite H2, Hsent | now rewrite H3, Hend].
    + assert (Hstep : LogStream.step s (LogStream.ProcessStdout data)
                      = LogStream.write {| LogStream.type := "stdout";
                                           LogStream.content := data |} s).
      { simpl. now destruct Hp as [-> | ->]. }
      rewrite Hstep.
      match goal with
      | |- context [fold_left LogStream.step rest ?q] =>
          destruct (IH q Hrest Hp) as (H1 & H2 & H3)
      end.
      split; [exact H1|]. split; [|exact H3]. rewrite H2. simpl.
      now rewrite <- app_assoc.
    + assert (Hstep : LogStream.step s (LogStream.ProcessStderr data)
                      = LogStream.write {| LogStream.type := "stderr";
                                           LogStream.content := data |} s).
      { simpl. now destruct Hp as [-> | ->]. }
      rewrite Hstep.
      match goal with
      | |- context [fold_left LogStream.step rest ?q] =>
          destruct (IH q Hrest Hp) as (H1 & H2 & H3)
      end.
      split; [exact H1|]. split; [|exact H3]. rewrite H2. simpl.
      now rewrite <- app_assoc.
Qed.

(** X21. A stream that is set up, follows its subprocess and sees it end. What
    was sent is: first the initial logs (or the error of the command that
    fetches them), then every chunk of output of the subprocess, in the
    order of arrival and labelled [stdout] or [stderr], also the chunks that
    arrive after the consumer has gone away; last, once, [Log stream
    ended]. The response is then ended and the subprocess has exited. *)
Theorem stream_forwards_every_chunk_in_order
    (r : Res ExecOutput) (following : list LogStream.Input) :
  forallb whileFollowing following = true ->
  let s := LogStream.run (LogStream.InitialLogsSettled r
                            :: following ++ [LogStream.ProcessClose]) in
  LogStream.sent s = (initialEvent r :: chunksOf following ++ [streamEnded])%list /\
  LogStream.responseEnded s = true /\
  LogStream.followProcess s = LogStream.Exited.
Proof.
  intros Hall. cbv zeta. unfold LogStream.run. cbn [fold_left].
  rewrite fold_left_app. cbn [fold_left].
  set (s1 := LogStream.step LogStream.start (LogStream.InitialLogsSettled r)).
  assert (Hs1 : LogStream.followProcess s1 = LogStream.Running /\
                LogStream.sent s1 = [initialEvent r]).
  { unfold s1. destruct r; split; reflexivity. }
  destruct Hs1 as [Hp1 Hsent1].
  destruct (following_forwards following s1 Hall (or_introl Hp1)) as (Hp & Hsent & _).
  set (s2 := fold_left LogStream.step following s1) in *.
  unfold LogStream.step.
  destruct Hp as [-> | ->]; simpl; rewrite Hsent, Hsent1; simpl;
    (split; [reflexivity | split; reflexivity]).
Qed.

Lemma stream_forwards_every_chunk_in_order_witness :
  forallb whileFollowing
    [LogStream.ProcessStdout "a"; LogStream.RequestClose; LogStream.ProcessStderr "b"] = true /\
  LogStream.sent
    (LogStream.run (LogStream.InitialLogsSettled (Rejected "no such container")
                      :: [LogStream.ProcessStdout "a"; LogStream.RequestClose;
                          LogStream.ProcessStderr "b"] ++ [LogStream.ProcessClose]))
    = [{| LogStream.type := "error";
          LogStream.content := "Error getting logs: no such container" |};
       {| LogStream.type := "stdout"; LogStream.content := "a" |};
       {| LogStream.type := "stderr"; LogStream.content := "b" |};
       streamEnded].
Proof.
  split; [reflexivity|].
  exact (proj1 (stream_forwards_every_chunk_in_order (Rejected "no such container")
                  [LogStream.ProcessStdout "a"; LogStream.RequestClose;
                   LogStream.ProcessStderr "b"] eq_refl)).
Defined.

(** X22. The consumer disconnects after the set-up of the stream. Whatever
    happened in between and whatever happens later, the follow subprocess
    has then been killed, or has exited by itself: it is neither running
    nor waiting to be spawned. *)
Theorem late_disconnect_kills_the_follower
    (r : Res ExecOutput) (before later : list LogStream.Input) :
  let s := LogStream.run (LogStream.InitialLogsSettled r
                            :: before ++ LogStream.RequestClose :: later) in
  LogStream.requestClosed s = true /\
  (LogStream.followProcess s = LogStream.Killed \/
   LogStream.followProcess s = LogStream.Exited).
Proof.
  cbv zeta. unfold LogStream.run. simpl fold_left. rewrite fold_left_app. simpl fold_left.
  set (s1 := fold_left LogStream.step before _).
  assert (H1 : armed s1) by (apply armed_steps, armed_after_setup).
  set (s2 := LogStream.step s1 LogStream.RequestClose).
  assert (H2 : armed s2) by (apply armed_step, H1).
  assert (Hc : LogStream.requestClosed s2 = true).
  { unfold s2. simpl. destruct (LogStream.requestClosed s1) eqn:E; [exact E | reflexivity]. }
  pose proof (closed_stays_closed later s2 Hc) as Hclosed.
  destruct (armed_steps later s2 H2) as (_ & Hspawned & Hfinal).
  split; [exact Hclosed|]. specialize (Hfinal Hclosed).
  destruct (LogStream.followProcess (fold_left LogStream.step later s2)) eqn:E;
    [congruence | congruence | left; exact E | right; exact E].
Qed.

(* ===================================================================== *)
(** * Stopping what is already stopped *)
(* ===================================================================== *)

Lemma tearDownRoute_success_unregisters
    (env : Env) (agentsJson : gmap string Agent.t -> string) (id : string)
    (mark : string -> string -> Agent.t) (p p1 : Process) (r : Result.t) :
  stopAgent env id p = (p1, Resolved r) ->
  Result.success r = true ->
  runningAgents (afterTearDown env agentsJson id mark p1) !! id = None /\
  exists t1 t2, agents (afterTearDown env agentsJson id mark p1) !! id = Some (mark t1 t2).
Proof.
  intros E Hs.
  destruct (stopAgent_tables env id p) as (q & r' & E' & _ & Hreg).
  rewrite E in E'. inversion E'; subst q r'. clear E'.
  destruct Hreg as [[Hf _] | [_ Hreg]]; [congruence|].
  unfold afterTearDown. simpl. rewrite Hreg. split; [apply lookup_delete_eq|].
  eexists _, _. apply lookup_insert_eq.
Qed.

(** X23. A stop or pause request for an agent that a stop or pause request has
    just torn down: the record is still there, the registry entry is not,
    so [stopAgent] reports [Agent not found]; the route answers 500 with
    that as [details], and changes nothing. This holds in every world, for
    either route after either route. *)
Theorem second_stop_or_pause_is_refused
    (env env' : Env) (agentsJson : gmap string Agent.t -> string) (id : string)
    (p p1 : Process) (answer : HttpAnswer) :
  (stopRoute env agentsJson id p = (p1, Resolved answer) \/
   pauseRoute env agentsJson id p = (p1, Resolved answer)) ->
  code answer = 200 ->
  stopRoute env' agentsJson id p1
    = (p1, Resolved (errorAnswer 500 "Failed to stop agent" (Some "Agent not found"))) /\
  pauseRoute env' agentsJson id p1
    = (p1, Resolved (errorAnswer 500 "Failed to pause agent" (Some "Agent not found"))).
Proof.
  intros Hfirst Hcode.
  assert (Hstate : runningAgents p1 !! id = None /\ exists a, agents p1 !! id = Some a).
  { destruct (agents p !! id) as [agent|] eqn:Hagent.
    - destruct (stopAgent_tables env id p) as (q & r & E & _ & _).
      destruct Hfirst as [H | H].
      + rewrite (stopRoute_cases env agentsJson id p q agent r Hagent E) in H.
        destruct (Result.success r) eqn:Hs.
        * inversion H; subst p1 answer.
          destruct (tearDownRoute_success_unregisters env agentsJson id
                      (fun t1 t2 => markStopped t1 t2 agent) p q r E Hs)
            as (Hreg & t1 & t2 & Ha).
          split; [exact Hreg | eexists; exact Ha].
        * inversion H; subst. discriminate.
      + rewrite (pauseRoute_cases env agentsJson id p q agent r Hagent E) in H.
        destruct (Result.success r) eqn:Hs.
        * inversion H; subst p1 answer.
          destruct (tearDownRoute_success_unregisters env agentsJson id
                      (fun t1 t2 => markPaused t1 t2 agent) p q r E Hs)
            as (Hreg & t1 & t2 & Ha).
          split; [exact Hreg | eexists; exact Ha].
        * inversion H; subst. discriminate.
    - exfalso. unfold stopRoute, pauseRoute in Hfirst.
      rewrite !try_catch_step in Hfirst. unfold bind, readAgents in Hfirst.
      rewrite Hagent in Hfirst.
      destruct Hfirst as [H | H]; inversion H; subst; discriminate. }
  destruct Hstate as (Hreg & a & Ha).
  pose proof (stopAgent_unregistered_is_noop env' id p1 Hreg) as E.
  split.
  - now rewrite (stopRoute_cases env' agentsJson id p1 p1 a agentNotFound Ha E).
  - now rewrite (pauseRoute_cases env' agentsJson id p1 p1 a agentNotFound Ha E).
Qed.

Lemma second_stop_or_pause_is_refused_witness :
  pauseRoute sunny sampleAgentsJson "a1" a1Serving
    = (fst (pauseRoute sunny sampleAgentsJson "a1" a1Serving),
       Resolved (okAnswer "Agent paused successfully" "a1" "paused")) /\
  code (okAnswer "Agent paused successfully" "a1" "paused") = 200 /\
  stopRoute stuck sampleAgentsJson "a1" (fst (pauseRoute sunny sampleAgentsJson "a1" a1Serving))
    = (fst (pauseRoute sunny sampleAgentsJson "a1" a1Serving),
       Resolved (errorAnswer 500 "Failed to stop agent" (Some "Agent not found"))).
Proof.
  assert (E : pauseRoute sunny sampleAgentsJson "a1" a1Serving
              = (fst (pauseRoute sunny sampleAgentsJson "a1" a1Serving),
                 Resolved (okAnswer "Agent paused successfully" "a1" "paused")))
    by (vm_compute; reflexivity).
  split; [exact E|]. split; [reflexivity|].
  exact (proj1 (second_stop_or_pause_is_refused sunny stuck sampleAgentsJson "a1" a1Serving
                  _ _ (or_intror E) eq_refl)).
Defined.

(* ===================================================================== *)
(** * Deploy, then ask for the status *)
(* ===================================================================== *)

(** X24. After a successful [deployAgent], [getAgentStatus] for the same agent,
    in any later world, sends its one probe to [/health] under the very URL
    the deployment returned, and reports that URL and, as [deployedAt], the
    reading of the clock that ended the deployment; the status is [healthy],
    [unhealthy] or [unreachable] by the probe, and never [not_running]. *)
Theorem deploy_then_status
    (env env' : Env) (yaml : Compose -> string) (agentId : string) (cfg : AgentConfig)
    (p p1 : Process) (r1 : Result.t) :
  deployAgent env yaml agentId cfg p = (p1, Resolved r1) ->
  Result.success r1 = true ->
  exists url d before r report,
    Result.url r1 = Some url /\
    trace p1 = (before ++ [EvNow d])%list /\
    getAgentStatus env' agentId p1
      = (extend p1 [EvFetch (url ++ "/health") r], Resolved report) /\
    StatusReport.url report = Some url /\
    StatusReport.deployedAt report = Some d /\
    StatusReport.status report =
      (if succeeded r then "healthy" else if threw r then "unreachable" else "unhealthy") /\
    StatusReport.status report <> "not_running".
Proof.
  intros Edeploy Hok.
  destruct (deployAgent_outcomes env yaml agentId cfg p) as (q & r & E & Hsucc & _).
  rewrite Edeploy in E. inversion E; subst q r. clear E.
  destruct (Hsucc Hok) as (d & evs & -> & Ht & Hreg).
  assert (Hentry : runningAgents p1 !! agentId = Some (deployedEntry env agentId d))
    by (rewrite Hreg; apply lookup_insert_eq).
  destruct (getAgentStatus_registered env' agentId p1 _ Hentry)
    as (r & report & E & H1 & _ & _ & H4 & H5).
  exists (agentUrlOf agentId), d, (trace p ++ evs)%list, r, report.
  split; [reflexivity|]. split; [now rewrite Ht, app_assoc|].
  split; [exact E|]. split; [exact H1|]. split; [exact H5|]. split; [exact H4|].
  rewrite H4. destruct (succeeded r); [discriminate|]. destruct (threw r); discriminate.
Qed.

Lemma deploy_then_status_witness :
  deployAgent sunny sampleYaml "a1" sampleConfig initial
    = (a1Running, Resolved (deployed "a1")) /\
  Result.success (deployed "a1") = true /\
  exists r report,
    getAgentStatus refusing "a1" a1Running
      = (extend a1Running [EvFetch "http://localhost:3261/health" r], Resolved report) /\
    StatusReport.url report = Some "http://localhost:3261".
Proof.
  assert (E1 : deployAgent sunny sampleYaml "a1" sampleConfig initial
               = (a1Running, Resolved (deployed "a1"))) by (vm_compute; reflexivity).
  split; [exact E1|]. split; [reflexivity|].
  destruct (deploy_then_status sunny refusing sampleYaml "a1" sampleConfig initial a1Running
              (deployed "a1") E1 eq_refl)
    as (url & d & before & r & report & Hurl & _ & E & Hreport & _).
  injection Hurl as <-. exists r, report. split; [exact E | exact Hreport].
Defined.
